(** * SpotifyExtractor: query resolution, normalisation and bridging

    A shallow embedding of
    [packages/extractor/src/extractors/SpotifyExtractor.ts] and the
    properties its specification states about it.

    - JavaScript strings are sequences of UTF-16 code units ([list N]).
    - The regular expression [re] is kept as a syntax tree and run by a
      backtracking matcher that follows the ECMAScript pattern semantics
      (continuations, greedy quantifiers, capture resets).
    - Objects that the code shares by reference (playlists, track arrays,
      tracks) live in a store; the asynchronous collaborators (primary
      client, scraper, bridge provider, stream function) are functions on
      an abstract world state and every call is recorded in a trace. *)

From Stdlib Require Import String Ascii NArith ZArith Bool Lia.
From stdpp Require Import base option list numbers.

Set Default Proof Using "Type".

(** ** JavaScript strings *)

Definition jsstring : Type := list N.

(** A string literal of the source, as code units. *)
Definition lit (s : string) : jsstring :=
  map N_of_ascii (list_ascii_of_string s).

Definition str_eqb (a b : jsstring) : bool := bool_decide (a = b).

(** JavaScript truthiness of a possibly missing string: [undefined],
    [null] and the empty string are falsy. *)
Definition truthy (o : option jsstring) : bool :=
  match o with
  | Some (_ :: _) => true
  | _ => false
  end.

(** [a ?? b] *)
Definition nullish {A} (o : option A) (d : A) : A :=
  match o with Some a => a | None => d end.

(** [a || b] on strings *)
Definition or_else (o : option jsstring) (d : jsstring) : jsstring :=
  match o with
  | Some (c :: s) => c :: s
  | _ => d
  end.

(** A value interpolated in a template literal: [undefined] prints as the
    word itself. *)
Definition interpolate (o : option jsstring) : jsstring :=
  match o with Some s => s | None => lit "undefined" end.

(** ** Query types

    The values of [QueryType] that the extractor names.  The table itself
    is declared in the discord-player package; the extractor only compares
    its members with [===], and writes the value of [SPOTIFY_SONG] as the
    literal ['spotifySong'] in the scraper path. *)

Definition SearchQueryType : Type := jsstring.

Definition AUTO : SearchQueryType := lit "auto".
Definition AUTO_SEARCH : SearchQueryType := lit "autoSearch".
Definition SPOTIFY_SONG : SearchQueryType := lit "spotifySong".
Definition SPOTIFY_ALBUM : SearchQueryType := lit "spotifyAlbum".
Definition SPOTIFY_PLAYLIST : SearchQueryType := lit "spotifyPlaylist".
Definition SPOTIFY_SEARCH : SearchQueryType := lit "spotifySearch".

(** [t === type] where [type] may be [null] or [undefined]. *)
Definition strict_eq (t : SearchQueryType) (type : option SearchQueryType) : bool :=
  match type with
  | Some u => str_eqb t u
  | None => false
  end.

(** [validate(query, type)] *)
Definition validate (query : jsstring) (type : option SearchQueryType) : bool :=
  existsb (fun t => strict_eq t type)
    [SPOTIFY_ALBUM; SPOTIFY_PLAYLIST; SPOTIFY_SONG; SPOTIFY_SEARCH; AUTO; AUTO_SEARCH].

(** ** Regular expressions *)

Module Regex.

(** The part of the pattern syntax that [re] uses.  [Quant min max r] is
    the greedy quantifier [r{min,max}], with [None] for an absent upper
    bound; [Capture n r] is the [n]-th capturing group. *)
Inductive regex : Type :=
| Empty
| Bol
| Eol
| Chars (l : jsstring)
| Class (p : N -> bool)
| Seq (r1 r2 : regex)
| Alt (r1 r2 : regex)
| Quant (min : nat) (max : option nat) (r : regex)
| Capture (n : nat) (r : regex).

Definition Opt (r : regex) : regex := Quant 0 (Some 1) r.
Definition Star (r : regex) : regex := Quant 0 None r.
Definition Plus (r : regex) : regex := Quant 1 None r.

Definition captures_t : Type := nat -> option jsstring.

Record mstate : Type := MState { endIndex : nat; captures : captures_t }.

Definition cont : Type := mstate -> option mstate.

Definition no_captures : captures_t := fun _ => None.

Definition set_capture (n : nat) (v : jsstring) (cs : captures_t) : captures_t :=
  fun i => if Nat.eqb i n then Some v else cs i.

Definition clear_captures (gs : list nat) (cs : captures_t) : captures_t :=
  fun i => if existsb (Nat.eqb i) gs then None else cs i.

(** The capturing groups inside a pattern. *)
Fixpoint groups (r : regex) : list nat :=
  match r with
  | Seq r1 r2 | Alt r1 r2 => groups r1 ++ groups r2
  | Quant _ _ r => groups r
  | Capture n r => n :: groups r
  | _ => []
  end.

Definition substring (input : jsstring) (from to : nat) : jsstring :=
  take (to - from) (drop from input).

Definition pred_max (max : option nat) : option nat :=
  match max with Some n => Some (Nat.pred n) | None => None end.

(** Length of the longest prefix of [l] made of code units in [p]. *)
Fixpoint prefix_len (p : N -> bool) (l : jsstring) : nat :=
  match l with
  | ch :: l' => if p ch then S (prefix_len p l') else O
  | [] => O
  end.

(** One iteration of a quantified one-unit pattern, and [n] of them. *)
Definition step (gs : list nat) (f : mstate -> captures_t) (x : mstate) : mstate :=
  MState (S (endIndex x)) (f (MState (endIndex x) (clear_captures gs (captures x)))).

Fixpoint steps (gs : list nat) (f : mstate -> captures_t) (n : nat) (x : mstate) : mstate :=
  match n with
  | O => x
  | S k => steps gs f k (step gs f x)
  end.

Definition top_of (max : option nat) (n : nat) : nat :=
  match max with Some m => Nat.min n m | None => n end.

Definition le_max (min : nat) (max : option nat) : Prop :=
  match max with Some m => min <= m | None => True end.

Section Matcher.

Variable input : jsstring.

(** The literal [l] at position [i]; the position after it. *)
Fixpoint match_chars (l : jsstring) (i : nat) : option nat :=
  match l with
  | [] => Some i
  | ch :: l' =>
      match input !! i with
      | Some ch' => if N.eqb ch ch' then match_chars l' (S i) else None
      | None => None
      end
  end.

(** RepeatMatcher of the language specification.  An iteration that
    matches the empty string once [min] is reached is rejected, so every
    further iteration consumes input and [fuel] bounds their number. *)
Fixpoint repeatMatcher (m : mstate -> cont -> option mstate) (gs : list nat)
    (fuel : nat) (min : nat) (max : option nat) (x : mstate) (c : cont)
    {struct fuel} : option mstate :=
  match max with
  | Some O => c x
  | _ =>
      let d : cont := fun y =>
        if Nat.eqb min 0 && Nat.eqb (endIndex y) (endIndex x) then None
        else match fuel with
             | O => None
             | S fuel' => repeatMatcher m gs fuel' (Nat.pred min) (pred_max max) y c
             end in
      let xr := MState (endIndex x) (clear_captures gs (captures x)) in
      if Nat.eqb min 0 then
        match m xr d with
        | Some z => Some z
        | None => c x
        end
      else m xr d
  end.

Fixpoint matcher (r : regex) (x : mstate) (c : cont) {struct r} : option mstate :=
  match r with
  | Empty => c x
  | Bol => if Nat.eqb (endIndex x) 0 then c x else None
  | Eol => if Nat.eqb (endIndex x) (length input) then c x else None
  | Chars l =>
      match match_chars l (endIndex x) with
      | Some e => c (MState e (captures x))
      | None => None
      end
  | Class p =>
      match input !! endIndex x with
      | Some ch => if p ch then c (MState (S (endIndex x)) (captures x)) else None
      | None => None
      end
  | Seq r1 r2 => matcher r1 x (fun y => matcher r2 y c)
  | Alt r1 r2 =>
      match matcher r1 x c with
      | Some z => Some z
      | None => matcher r2 x c
      end
  | Quant min max r' =>
      repeatMatcher (matcher r') (groups r')
        (min + (length input - endIndex x)) min max x c
  | Capture n r' =>
      matcher r' x (fun y =>
        c (MState (endIndex y)
             (set_capture n (substring input (endIndex x) (endIndex y)) (captures y))))
  end.

(** [exec] of a pattern without flags: the match is tried at every start
    index from 0 on, and the first success wins. *)
Fixpoint exec_from (r : regex) (fuel : nat) (i : nat) : option (nat * mstate) :=
  match matcher r (MState i no_captures) Some with
  | Some y => Some (i, y)
  | None =>
      match fuel with
      | O => None
      | S fuel' => exec_from r fuel' (S i)
      end
  end.

(** The text that is left at a state. *)
Definition rest (x : mstate) : jsstring := drop (endIndex x) input.

(** States that a continuation can be given when matching starts at [x]. *)
Definition reach (x y : mstate) : Prop :=
  endIndex x <= endIndex y /\ endIndex y <= Nat.max (endIndex x) (length input).

(** The result of a pattern on its own. *)
Definition run (r : regex) (x : mstate) : option mstate := matcher r x Some.

(** [r] consumes exactly one code unit of the class [p] and leaves the
    captures [f x]. *)
Definition single (p : N -> bool) (r : regex) (f : mstate -> captures_t) : Prop :=
  forall x c,
    matcher r x c =
      match input !! endIndex x with
      | Some ch => if p ch then c (MState (S (endIndex x)) (f x)) else None
      | None => None
      end.

End Matcher.

(** The array that [exec] returns: index 0 is the matched text, index [n]
    is the [n]-th capture; [None] stands for [null]. *)
Definition exec (r : regex) (input : jsstring) : option (nat -> option jsstring) :=
  match exec_from input r (length input) 0 with
  | Some (i, y) =>
      Some (fun n => match n with
                     | O => Some (substring input i (endIndex y))
                     | _ => captures y n
                     end)
  | None => None
  end.

End Regex.

Import Regex.

(** ** The link pattern [re] *)

Definition in_range (lo hi : N) (c : N) : bool := (lo <=? c)%N && (c <=? hi)%N.

Definition lower (c : N) : bool := in_range 97 122 c.   (* [a-z] *)
Definition upper (c : N) : bool := in_range 65 90 c.    (* [A-Z] *)
Definition digit (c : N) : bool := in_range 48 57 c.    (* [0-9] *)
Definition alnum (c : N) : bool := upper c || lower c || digit c.   (* [A-Za-z0-9] *)
Definition slash_or_colon (c : N) : bool := (c =? 47)%N || (c =? 58)%N. (* [/:] *)

(** [.] matches every code unit but the line terminators LF, CR, U+2028
    and U+2029. *)
Definition line_terminator (c : N) : bool :=
  (c =? 10)%N || (c =? 13)%N || (c =? 8232)%N || (c =? 8233)%N.
Definition dot (c : N) : bool := negb (line_terminator c).

Definition re_locale : regex :=
  Opt (Capture 1 (Seq (Chars (lit "intl-"))
                   (Seq (Quant 0 (Some 3) (Capture 2 (Alt (Class lower) (Class upper))))
                        (Chars (lit "/"))))).

Definition re_user : regex :=
  Opt (Seq (Chars (lit "user/")) (Seq (Plus (Class alnum)) (Chars (lit "/")))).

Definition re_prefix : regex :=
  Alt (Seq (Chars (lit "https://open.spotify.com/")) (Seq re_locale re_user))
      (Chars (lit "spotify:")).

Definition re_kind : regex :=
  Capture 3 (Alt (Chars (lit "album")) (Alt (Chars (lit "playlist")) (Chars (lit "track")))).

Definition re_id : regex := Capture 4 (Plus (Class alnum)).

(** The pattern after its prefix: [(album|playlist|track)(?:[/:])([A-Za-z0-9]+).*$]. *)
Definition re_after_prefix : regex :=
  Seq re_kind
    (Seq (Class slash_or_colon)
      (Seq re_id
        (Seq (Star (Class dot)) Eol))).

(** [/^(?:https:\/\/open\.spotify\.com\/(intl-([a-z]|[A-Z]){0,3}\/)?(?:user\/[A-Za-z0-9]+\/)?|spotify:)(album|playlist|track)(?:[/:])([A-Za-z0-9]+).*$/] *)
Definition re : regex := Seq Bol (Seq re_prefix re_after_prefix).

(** [parse(q)]: [const [, , , queryType, id] = re.exec(q) || []]. *)
Definition parse (q : jsstring) : option jsstring * option jsstring :=
  match exec re q with
  | Some arr => (arr 3, arr 4)
  | None => (None, None)
  end.


(** ** A reading of [re] without backtracking

    [link_of] takes the pattern apart from left to right with the same
    priorities as the matcher; [Link] is the grammar it recognises. *)

Definition letter (c : N) : bool := lower c || upper c.

(** The text after the literal [l], when [s] starts with it. *)
Definition strip (l s : jsstring) : option jsstring :=
  if bool_decide (take (length l) s = l) then Some (drop (length l) s) else None.

(** [([A-Za-z0-9]+).*$] *)
Definition id_of (s : jsstring) : option jsstring :=
  let n := prefix_len alnum s in
  if Nat.leb 1 n && bool_decide (prefix_len dot (drop n s) = length (drop n s))
  then Some (take n s) else None.

(** [(album|playlist|track)] *)
Definition strip_kind (s : jsstring) : option (jsstring * jsstring) :=
  match strip (lit "album") s with
  | Some t => Some (lit "album", t)
  | None =>
      match strip (lit "playlist") s with
      | Some t => Some (lit "playlist", t)
      | None =>
          match strip (lit "track") s with
          | Some t => Some (lit "track", t)
          | None => None
          end
      end
  end.

(** [(album|playlist|track)(?:[/:])([A-Za-z0-9]+).*$] *)
Definition link_tail (s : jsstring) : option (jsstring * jsstring) :=
  match strip_kind s with
  | Some (k, sep :: t) =>
      if slash_or_colon sep then
        match id_of t with
        | Some i => Some (k, i)
        | None => None
        end
      else None
  | _ => None
  end.

(** [user\/[A-Za-z0-9]+\/] *)
Definition strip_user (s : jsstring) : option jsstring :=
  match strip (lit "user/") s with
  | Some t =>
      let n := prefix_len alnum t in
      if Nat.leb 1 n then strip (lit "/") (drop n t) else None
  | None => None
  end.

(** [intl-([a-z]|[A-Z]){0,3}\/] *)
Definition strip_locale (s : jsstring) : option jsstring :=
  match strip (lit "intl-") s with
  | Some t => strip (lit "/") (drop (Nat.min (prefix_len letter t) 3) t)
  | None => None
  end.

Definition first_of {A} (a b : option A) : option A :=
  match a with Some x => Some x | None => b end.

(** What [parse] reads from a final state, and from a reading. *)
Definition obs (z : mstate) : option jsstring * option jsstring :=
  (captures z 3, captures z 4).

Definition pair_of (o : option (jsstring * jsstring)) : option (option jsstring * option jsstring) :=
  match o with
  | Some (k, i) => Some (Some k, Some i)
  | None => None
  end.

Definition after_user (s : jsstring) : option (jsstring * jsstring) :=
  match strip_user s with
  | Some t => first_of (link_tail t) (link_tail s)
  | None => link_tail s
  end.

Definition after_locale (s : jsstring) : option (jsstring * jsstring) :=
  match strip_locale s with
  | Some t => first_of (after_user t) (after_user s)
  | None => after_user s
  end.

Definition link_of (s : jsstring) : option (jsstring * jsstring) :=
  first_of
    (match strip (lit "https://open.spotify.com/") s with
     | Some t => after_locale t
     | None => None
     end)
    (match strip (lit "spotify:") s with
     | Some t => link_tail t
     | None => None
     end).

(** The grammar of [re]. *)
Inductive kind_word : jsstring -> Prop :=
| kw_album : kind_word (lit "album")
| kw_playlist : kind_word (lit "playlist")
| kw_track : kind_word (lit "track").

Definition is_id (s : jsstring) : Prop := s <> [] /\ Forall (fun c => alnum c = true) s.

Inductive locale_part : jsstring -> Prop :=
| locale_absent : locale_part []
| locale_present ls :
    length ls <= 3 -> Forall (fun c => letter c = true) ls ->
    locale_part (lit "intl-" ++ ls ++ lit "/").

Inductive user_part : jsstring -> Prop :=
| user_absent : user_part []
| user_present name : is_id name -> user_part (lit "user/" ++ name ++ lit "/").

Inductive link_prefix : jsstring -> Prop :=
| prefix_scheme : link_prefix (lit "spotify:")
| prefix_https loc usr :
    locale_part loc -> user_part usr ->
    link_prefix (lit "https://open.spotify.com/" ++ loc ++ usr).

(** [q] is a prefix, a kind, [/] or [:], an identifier that ends where the
    alphanumeric run ends, and a rest without line terminators. *)
Inductive Link (kind id : jsstring) : jsstring -> Prop :=
| Link_intro pre sep tl :
    link_prefix pre -> kind_word kind -> slash_or_colon sep = true -> is_id id ->
    (forall c, head tl = Some c -> alnum c = false) ->
    Forall (fun c => dot c = true) tl ->
    Link kind id (pre ++ kind ++ sep :: id ++ tl).

(** The forms that the specification documents: the web address with an
    optional two-letter locale and an optional user scope, and the scheme
    form. *)
Inductive documented_locale : jsstring -> Prop :=
| doc_locale_absent : documented_locale []
| doc_locale_present a b :
    letter a = true -> letter b = true ->
    documented_locale (lit "intl-" ++ [a; b] ++ lit "/").

Inductive documented (kind id : jsstring) : jsstring -> Prop :=
| documented_https loc usr :
    documented_locale loc -> user_part usr -> kind_word kind -> is_id id ->
    documented kind id (lit "https://open.spotify.com/" ++ loc ++ usr ++ kind ++ lit "/" ++ id)
| documented_scheme :
    kind_word kind -> is_id id ->
    documented kind id (lit "spotify:" ++ kind ++ lit ":" ++ id).

(** ** Provider payloads

    The shapes that the extractor reads.  A field that the code guards
    with [??], [||], [?.] or a conditional may be missing. *)

(** An entry of [internal.search], and of the [tracks] of a playlist or
    album of the primary client. *)
Module ApiTrack.
Record t : Type := Build {
  title : jsstring;
  artist : option jsstring;
  url : jsstring;
  thumbnail : option jsstring;
  duration : option Z
}.
End ApiTrack.

(** The result of [internal.getPlaylist] and [internal.getAlbum]. *)
Module ApiList.
Record t : Type := Build {
  name : option jsstring;
  thumbnail : option jsstring;
  author : option jsstring;
  id : jsstring;
  url : option jsstring;
  tracks : list ApiTrack.t
}.
End ApiList.

(** An entry of [trackList] in a scraped playlist or album. *)
Module ScrapedItem.
Record t : Type := Build {
  uid : option jsstring;
  title : option jsstring;
  subtitle : option jsstring;
  duration : option Z
}.
End ScrapedItem.

Module Scraped.
Record artist : Type := Artist { artist_name : option jsstring }.
Record image : Type := Image { image_url : option jsstring }.
Record cover : Type := Cover { sources : option (list image) }.

(** What [getData] of the scraper resolves to. *)
Record t : Type := Build {
  type : jsstring;
  name : option jsstring;
  title : option jsstring;
  subtitle : option jsstring;
  id : option jsstring;
  artists : list artist;
  coverArt : option cover;
  duration : option Z;
  maxDuration : option Z;
  trackList : list ScrapedItem.t
}.

(** [coverArt?.sources?.[0]?.url] *)
Definition cover_url (d : t) : option jsstring :=
  match coverArt d with
  | Some c =>
      match sources c with
      | Some (i :: _) => image_url i
      | _ => None
      end
  | None => None
  end.

(** [artists[0]?.name] *)
Definition first_artist (d : t) : option jsstring :=
  match artists d with
  | a :: _ => artist_name a
  | [] => None
  end.
End Scraped.

(** The provider payload kept in [metadata.source]. *)
Inductive payload : Type :=
| FromApi (d : ApiTrack.t)
| FromSong (d : Scraped.t)
| FromItem (d : ScrapedItem.t).

(** ** Durations *)

Record TimeData : Type := { days : Z; hours : Z; minutes : Z; seconds : Z }.

Definition digit_code (d : nat) : N := (48 + N.of_nat d)%N.

Fixpoint uint_codes (u : Decimal.uint) : jsstring :=
  match u with
  | Decimal.Nil => []
  | Decimal.D0 u => digit_code 0 :: uint_codes u
  | Decimal.D1 u => digit_code 1 :: uint_codes u
  | Decimal.D2 u => digit_code 2 :: uint_codes u
  | Decimal.D3 u => digit_code 3 :: uint_codes u
  | Decimal.D4 u => digit_code 4 :: uint_codes u
  | Decimal.D5 u => digit_code 5 :: uint_codes u
  | Decimal.D6 u => digit_code 6 :: uint_codes u
  | Decimal.D7 u => digit_code 7 :: uint_codes u
  | Decimal.D8 u => digit_code 8 :: uint_codes u
  | Decimal.D9 u => digit_code 9 :: uint_codes u
  end.

(** The decimal digits of a unit, padded to two places. *)
Definition two_digits (z : Z) : jsstring :=
  let s := uint_codes (N.to_uint (Z.to_N z)) in
  match s with
  | [d] => digit_code 0 :: [d]
  | _ => s
  end.

Fixpoint drop_zero_units (keep : nat) (l : list Z) : list Z :=
  match l with
  | z :: l' => if (Z.eqb z 0) && Nat.ltb keep (length l) then drop_zero_units keep l' else l
  | [] => []
  end.

Fixpoint join_colon (l : list jsstring) : jsstring :=
  match l with
  | [] => []
  | [s] => s
  | s :: l' => s ++ 58%N :: join_colon l'
  end.

(** Modelled from the spec: [Util.parseMS] of the discord-player package,
    which is not part of the extractor's sources.  The duration in
    milliseconds is split into days, hours, minutes and seconds; the
    function is total, a negative duration is clamped to 0 and a missing
    one counts as 0. *)
Definition parseMS (milliseconds : option Z) : TimeData :=
  let ms := Z.max 0 (nullish milliseconds 0%Z) in
  {| days := ms / 86400000;
     hours := (ms / 3600000) mod 24;
     minutes := (ms / 60000) mod 60;
     seconds := (ms / 1000) mod 60 |}.

(** Modelled from the spec: [Util.buildTimeCode] of the discord-player
    package.  The units are zero-padded and joined with colons, leading
    units that are zero are left out down to minutes and seconds. *)
Definition buildTimeCode (d : TimeData) : jsstring :=
  join_colon (map two_digits (drop_zero_units 2 [days d; hours d; minutes d; seconds d])).

(** ** Tracks, playlists and the store *)

Definition loc : Type := nat.

(** What a bridge leaves in [metadata.bridge]: the track found by the
    default search, or the data of a bridge provider. *)
Record YTMeta : Type := { yt_url : option jsstring }.

Inductive bridge_value : Type :=
| BridgeTrack (m : YTMeta)
| BridgeData (d : jsstring).

Module Metadata.
Record t : Type := Build {
  source : option payload;
  bridge : option bridge_value
}.
End Metadata.

(** The function stored as [requestMetadata]: it closes over the provider
    payload and over the track it is created for. *)
Record resolver : Type := Resolver { captured_source : payload; captured_track : loc }.

(** Modelled from the spec: the Track class of the discord-player package
    keeps the fields it is constructed with (section 3 of the
    specification), the metadata envelope, the deferred resolver, the
    back-reference to its playlist and the [url] slot of its raw data.
    The description is the one field that it does not take from the data:
    the class writes it from the title and the author, so that tracks with
    the same title and author have the same description (section 8). *)
Module Track.
Record t : Type := Build {
  title : option jsstring;
  description : jsstring;
  author : jsstring;
  url : jsstring;
  thumbnail : jsstring;
  duration : jsstring;
  views : Z;
  requestedBy : option jsstring;
  source : jsstring;
  queryType : option SearchQueryType;
  metadata : option Metadata.t;
  requestMetadata : resolver;
  playlist : option loc;
  extractor : option jsstring;
  raw_url : jsstring
}.

(** Modelled from the spec: [new Track(player, data)].  The fields of
    [data] are kept, but for the description, which is
    [`${this.title} by ${this.author}`]. *)
Definition construct (data : t) : t :=
  Build (title data) (nullish (title data) [] ++ lit " by " ++ author data) (author data)
    (url data) (thumbnail data) (duration data) (views data) (requestedBy data) (source data)
    (queryType data) (metadata data) (requestMetadata data) (playlist data) (extractor data)
    (raw_url data).

Definition with_metadata (m : option Metadata.t) (x : t) : t :=
  Build (title x) (description x) (author x) (url x) (thumbnail x) (duration x) (views x)
    (requestedBy x) (source x) (queryType x) m (requestMetadata x) (playlist x)
    (extractor x) (raw_url x).

Definition with_playlist (p : option loc) (x : t) : t :=
  Build (title x) (description x) (author x) (url x) (thumbnail x) (duration x) (views x)
    (requestedBy x) (source x) (queryType x) (metadata x) (requestMetadata x) p
    (extractor x) (raw_url x).

Definition with_extractor (e : option jsstring) (x : t) : t :=
  Build (title x) (description x) (author x) (url x) (thumbnail x) (duration x) (views x)
    (requestedBy x) (source x) (queryType x) (metadata x) (requestMetadata x) (playlist x)
    e (raw_url x).

Definition with_raw_url (u : jsstring) (x : t) : t :=
  Build (title x) (description x) (author x) (url x) (thumbnail x) (duration x) (views x)
    (requestedBy x) (source x) (queryType x) (metadata x) (requestMetadata x) (playlist x)
    (extractor x) u.
End Track.

Inductive raw_playlist : Type :=
| RawApi (d : ApiList.t)
| RawScraped (d : Scraped.t).

Module Playlist.
Record t : Type := Build {
  title : option jsstring;
  description : jsstring;
  thumbnail : jsstring;
  type : jsstring;
  source : jsstring;
  author_name : jsstring;
  author_url : option jsstring;
  tracks : loc;
  id : option jsstring;
  url : jsstring;
  rawPlaylist : raw_playlist
}.

Definition with_tracks (a : loc) (x : t) : t :=
  Build (title x) (description x) (thumbnail x) (type x) (source x) (author_name x)
    (author_url x) a (id x) (url x) (rawPlaylist x).
End Playlist.

(** The objects that are shared by reference. *)
Inductive obj : Type :=
| OTrack (t : Track.t)
| OPlaylist (p : Playlist.t)
| OArray (elems : list loc).

Abbreviation heap := (list obj).

(** [{ playlist, tracks }] *)
Record ExtractorInfo : Type := { info_playlist : option loc; info_tracks : loc }.

(** ** Effects *)

Inductive exn : Type :=
| TypeError (msg : jsstring)
| Error (msg : jsstring)
| Thrown (value : jsstring)
| Rejection (reason : jsstring).

Inductive result (A : Type) : Type :=
| Ok (a : A)
| Throw (e : exn).
Arguments Ok {A} a.
Arguments Throw {A} e.

(** How an awaited call of a collaborator ends. *)
Inductive outcome (A : Type) : Type :=
| Fulfilled (a : A)
| Rejected (reason : jsstring).
Arguments Fulfilled {A} a.
Arguments Rejected {A} reason.

Inductive event : Type :=
| EvSearch (query : jsstring)
| EvGetPlaylist (id : option jsstring)
| EvGetAlbum (id : option jsstring)
| EvGetData (query : jsstring)
| EvResolve (track : loc)
| EvProviderStream
| EvPullYTMetadata (track : loc)
| EvStream (url : jsstring)
| EvLoadYtdl
| EvRequestToken.

Inductive Handle : Type :=
| Url (s : jsstring)
| Readable (id : N).

(** What [provider.resolve] resolves to. *)
Record BridgedMetadata : Type := { data : option bridge_value }.

Section Model.

Variable World : Type.

Definition ask (A : Type) : Type := World -> outcome A * World.

Definition StreamFN : Type := jsstring -> ask Handle.

Record BridgeProvider : Type := {
  resolve : Track.t -> ask (option BridgedMetadata);
  provider_stream : BridgedMetadata -> ask Handle
}.

Record Spotify : Type := { getData : jsstring -> ask (option Scraped.t) }.

Record SpotifyExtractorInit : Type := {
  clientId : option jsstring;
  clientSecret : option jsstring;
  createStream : option StreamFN;
  bridgeProvider : option BridgeProvider
}.

(** The fields of the extractor that [activate] sets. *)
Record SpotifyExtractor : Type := {
  options : SpotifyExtractorInit;
  _stream : option StreamFN;
  _isYtdl : bool;
  _lib : option Spotify
}.

Definition new_extractor (init : SpotifyExtractorInit) : SpotifyExtractor :=
  {| options := init; _stream := None; _isYtdl := false; _lib := None |}.

(** The imports of the extractor: the primary client [internal], the
    scraper factory [spotify(getFetch)], and the helpers of
    [common/helper] and of the YouTube extractor. *)
Record Imports : Type := {
  search : jsstring -> ask (option (list ApiTrack.t));
  getPlaylist : option jsstring -> ask (option ApiList.t);
  getAlbum : option jsstring -> ask (option ApiList.t);
  isTokenExpired : World -> bool;
  requestToken : ask unit;
  spotify : Spotify;
  loadYtdl : ask StreamFN;
  pullYTMetadata : Track.t -> ask (option YTMeta);
  validateURL : jsstring -> bool
}.

Record state : Type := { world : World; store : heap; trace : list event }.

Definition M (A : Type) : Type := state -> result A * state.

Definition ret {A} (a : A) : M A := fun s => (Ok a, s).

Definition bind {A B} (m : M A) (k : A -> M B) : M B :=
  fun s =>
    match m s with
    | (Ok a, s') => k a s'
    | (Throw e, s') => (Throw e, s')
    end.

Definition throw {A} (e : exn) : M A := fun s => (Throw e, s).

(** [try { m } catch { h }] *)
Definition try_catch {A} (m : M A) (h : M A) : M A :=
  fun s =>
    match m s with
    | (Ok a, s') => (Ok a, s')
    | (Throw _, s') => h s'
    end.

(** An awaited call, recorded in the trace. *)
Definition call {A} (ev : event) (f : ask A) : M A :=
  fun s =>
    let (r, w) := f (world s) in
    let s' := {| world := w; store := store s; trace := trace s ++ [ev] |} in
    match r with
    | Fulfilled a => (Ok a, s')
    | Rejected reason => (Throw (Rejection reason), s')
    end.

(** [promise.catch(Util.noop)] *)
Definition catch_noop {A} (m : M (option A)) : M (option A) :=
  try_catch m (ret None).

Definition alloc (o : obj) : M loc :=
  fun s =>
    (Ok (length (store s)),
     {| world := world s; store := store s ++ [o]; trace := trace s |}).

Definition read_track (l : loc) : M Track.t :=
  fun s =>
    match store s !! l with
    | Some (OTrack t) => (Ok t, s)
    | _ => (Throw (TypeError (lit "not a track")), s)
    end.

Definition update_track (l : loc) (f : Track.t -> Track.t) : M unit :=
  fun s =>
    match store s !! l with
    | Some (OTrack t) =>
        (Ok tt, {| world := world s; store := <[l := OTrack (f t)]> (store s); trace := trace s |})
    | _ => (Throw (TypeError (lit "not a track")), s)
    end.

Definition update_playlist (l : loc) (f : Playlist.t -> Playlist.t) : M unit :=
  fun s =>
    match store s !! l with
    | Some (OPlaylist p) =>
        (Ok tt, {| world := world s; store := <[l := OPlaylist (f p)]> (store s); trace := trace s |})
    | _ => (Throw (TypeError (lit "not a playlist")), s)
    end.

Fixpoint mapM {A B} (f : A -> M B) (l : list A) : M (list B) :=
  match l with
  | [] => ret []
  | a :: l' => bind (f a) (fun b => bind (mapM f l') (fun bs => ret (b :: bs)))
  end.

End Model.

Arguments ret {World A} a.
Arguments bind {World A B} m k.
Arguments throw {World A} e.
Arguments try_catch {World A} m h.
Arguments call {World A} ev f.
Arguments catch_noop {World A} m.
Arguments alloc {World} o.
Arguments read_track {World} l.
Arguments update_track {World} l f.
Arguments update_playlist {World} l f.
Arguments mapM {World A B} f l.
Arguments new_extractor {World} init.
Arguments options {World} s.
Arguments _stream {World} s.
Arguments _isYtdl {World} s.
Arguments _lib {World} s.
Arguments clientId {World} s.
Arguments clientSecret {World} s.
Arguments createStream {World} s.
Arguments bridgeProvider {World} s.
Arguments resolve {World} b.
Arguments provider_stream {World} b.
Arguments getData {World} s.
Arguments search {World} i.
Arguments getPlaylist {World} i.
Arguments getAlbum {World} i.
Arguments isTokenExpired {World} i.
Arguments requestToken {World} i.
Arguments spotify {World} i.
Arguments loadYtdl {World} i.
Arguments pullYTMetadata {World} i.
Arguments validateURL {World} i.
Arguments world {World} s.
Arguments store {World} s.
Arguments trace {World} s.

Notation "'let*' x ':=' m 'in' k" := (bind m (fun x => k))
  (at level 10, x name, m at level 100, k at level 200).
Notation "m ';;' k" := (bind m (fun _ => k))
  (at level 100, k at level 200, right associativity).

(** ** The extractor *)

Definition default_thumbnail : jsstring :=
  lit "https://www.scdn.co/i/_global/twitter_card-default.jpg".
Definition unknown_artist : jsstring := lit "Unknown Artist".
Definition identifier : jsstring := lit "com.discord-player.spotifyextractor".

(** [ExtractorSearchContext]: the query type and the requester. *)
Module SearchContext.
Record t : Type := Build {
  type : option SearchQueryType;
  requestedBy : option jsstring
}.
End SearchContext.

(** [array.map((m) => m.name).join(', ')]: a missing element prints as
    the empty string. *)
Fixpoint join_names (l : list Scraped.artist) : jsstring :=
  match l with
  | [] => []
  | [a] => nullish (Scraped.artist_name a) []
  | a :: l' => nullish (Scraped.artist_name a) [] ++ lit ", " ++ join_names l'
  end.

(** [cond ? `${base}${id}` : query] *)
Definition url_or_query (base : jsstring) (id : option jsstring) (query : jsstring) : jsstring :=
  if truthy id then base ++ nullish id [] else query.

(** The data given to [new Track] for an entry of the primary client
    (search results, playlist and album tracks). *)
Definition api_track_init (requestedBy : option jsstring) (spotifyData : ApiTrack.t)
    (self : loc) : Track.t :=
  {| Track.title := Some (ApiTrack.title spotifyData);
     Track.description :=
       ApiTrack.title spotifyData ++ lit " by " ++ interpolate (ApiTrack.artist spotifyData);
     Track.author := nullish (ApiTrack.artist spotifyData) unknown_artist;
     Track.url := ApiTrack.url spotifyData;
     Track.thumbnail := or_else (ApiTrack.thumbnail spotifyData) default_thumbnail;
     Track.duration :=
       buildTimeCode (parseMS (Some (nullish (ApiTrack.duration spotifyData) 0%Z)));
     Track.views := 0;
     Track.requestedBy := requestedBy;
     Track.source := lit "spotify";
     Track.queryType := Some SPOTIFY_SONG;
     Track.metadata := Some (Metadata.Build (Some (FromApi spotifyData)) None);
     Track.requestMetadata := Resolver (FromApi spotifyData) self;
     Track.playlist := None;
     Track.extractor := None;
     Track.raw_url := ApiTrack.url spotifyData |}.

(** The data given to [new Track] for a scraped song. *)
Definition song_track_init (query : jsstring) (context : SearchContext.t)
    (spotifyData : Scraped.t) (self : loc) : Track.t :=
  let url :=
    url_or_query (lit "https://open.spotify.com/track/") (Scraped.id spotifyData) query in
  {| Track.title := Scraped.title spotifyData;
     Track.description :=
       interpolate (Scraped.name spotifyData) ++ lit " by "
         ++ join_names (Scraped.artists spotifyData);
     Track.author := nullish (Scraped.first_artist spotifyData) unknown_artist;
     Track.url := url;
     Track.thumbnail := or_else (Scraped.cover_url spotifyData) default_thumbnail;
     Track.duration :=
       buildTimeCode
         (parseMS (Some (nullish (Scraped.duration spotifyData)
                           (nullish (Scraped.maxDuration spotifyData) 0%Z))));
     Track.views := 0;
     Track.requestedBy := SearchContext.requestedBy context;
     Track.source := lit "spotify";
     Track.queryType := SearchContext.type context;
     Track.metadata := Some (Metadata.Build (Some (FromSong spotifyData)) None);
     Track.requestMetadata := Resolver (FromSong spotifyData) self;
     Track.playlist := None;
     Track.extractor := None;
     Track.raw_url := url |}.

(** The data given to [new Track] for an entry of a scraped [trackList]. *)
Definition item_track_init (query : jsstring) (requestedBy : option jsstring)
    (playlist : loc) (m : ScrapedItem.t) (self : loc) : Track.t :=
  let url :=
    url_or_query (lit "https://open.spotify.com/tracks/") (ScrapedItem.uid m) query in
  {| Track.title := Some (nullish (ScrapedItem.title m) []);
     Track.description := nullish (ScrapedItem.title m) [];
     Track.author := nullish (ScrapedItem.subtitle m) unknown_artist;
     Track.url := url;
     Track.thumbnail := default_thumbnail;
     Track.duration := buildTimeCode (parseMS (ScrapedItem.duration m));
     Track.views := 0;
     Track.requestedBy := requestedBy;
     Track.source := lit "spotify";
     Track.queryType := Some (lit "spotifySong");
     Track.metadata := Some (Metadata.Build (Some (FromItem m)) None);
     Track.requestMetadata := Resolver (FromItem m) self;
     Track.playlist := Some playlist;
     Track.extractor := None;
     Track.raw_url := url |}.

(** The data given to [new Playlist] on the primary path; [kind] is
    ['playlist'] or ['album']. *)
Definition api_playlist_init (kind query : jsstring) (d : ApiList.t) (tracks : loc)
    : Playlist.t :=
  {| Playlist.title := ApiList.name d;
     Playlist.description := nullish (ApiList.name d) [];
     Playlist.thumbnail := nullish (ApiList.thumbnail d) default_thumbnail;
     Playlist.type := kind;
     Playlist.source := lit "spotify";
     Playlist.author_name := nullish (ApiList.author d) unknown_artist;
     Playlist.author_url := None;
     Playlist.tracks := tracks;
     Playlist.id := Some (ApiList.id d);
     Playlist.url := or_else (ApiList.url d) query;
     Playlist.rawPlaylist := RawApi d |}.

(** The data given to [new Playlist] on the scraper path. *)
Definition scraped_playlist_init (query : jsstring) (d : Scraped.t) (tracks : loc)
    : Playlist.t :=
  {| Playlist.title :=
       match Scraped.name d with Some n => Some n | None => Scraped.title d end;
     Playlist.description := nullish (Scraped.title d) [];
     Playlist.thumbnail := nullish (Scraped.cover_url d) default_thumbnail;
     Playlist.type := Scraped.type d;
     Playlist.source := lit "spotify";
     Playlist.author_name := nullish (Scraped.subtitle d) unknown_artist;
     Playlist.author_url := None;
     Playlist.tracks := tracks;
     Playlist.id := Scraped.id d;
     Playlist.url :=
       url_or_query (lit "https://open.spotify.com/playlist/") (Scraped.id d) query;
     Playlist.rawPlaylist := RawScraped d |}.

(** A track as the [map] callbacks leave it: constructed from the data
    [init] at [self], with [extractor] and, inside a playlist, [playlist]
    assigned. *)
Definition finish_track (init : loc -> Track.t) (playlist : option loc) (self : loc) : Track.t :=
  match playlist with
  | Some p =>
      Track.with_playlist (Some p)
        (Track.with_extractor (Some identifier) (Track.construct (init self)))
  | None => Track.with_extractor (Some identifier) (Track.construct (init self))
  end.

(** The store after a playlist or album was built on top of [h]: the
    empty array, the playlist, its tracks in payload order and the array
    that holds them. *)
Definition list_store {A} (h : heap) (playlist_init : loc -> Playlist.t)
    (track_init : loc -> A -> loc -> Track.t) (payload : list A) : heap :=
  let n := length h in
  h ++ [OArray []; OPlaylist (Playlist.with_tracks (n + 2 + length payload) (playlist_init n))]
    ++ imap (fun i d => OTrack (finish_track (track_init (S n) d) (Some (S n)) (n + 2 + i)))
         payload
    ++ [OArray (seq (n + 2) (length payload))].

Definition list_info (h : heap) (len : nat) : ExtractorInfo :=
  {| info_playlist := Some (S (length h)); info_tracks := length h + 2 + len |}.

Section Operations.

Context {World : Type} (env : Imports World).

Local Abbreviation M := (M World).

(** [new Track(player, init)]: the resolver closes over the new object. *)
Definition new_track (init : loc -> Track.t) : M loc :=
  fun s => alloc (OTrack (Track.construct (init (length (store s))))) s.

(** The body of the [map] callbacks: the track is constructed, then
    [extractor] and, inside a playlist, [playlist] are assigned. *)
Definition make_track (init : loc -> Track.t) (playlist : option loc) : M loc :=
  let* l := new_track init in
  update_track l (Track.with_extractor (Some identifier));;
  match playlist with
  | Some p => update_track l (Track.with_playlist (Some p));; ret l
  | None => ret l
  end.

(** The construction that the four playlist and album blocks share:
    [new Playlist({ ..., tracks: [] })], then
    [playlist.tracks = payload.map((d) => { ...; data.playlist = playlist; return data })],
    then [return { playlist, tracks: playlist.tracks }]. *)
Definition build_list {A} (playlist_init : loc -> Playlist.t)
    (track_init : loc -> A -> loc -> Track.t) (payload : list A) : M ExtractorInfo :=
  let* empty := alloc (OArray []) in
  let* playlist := alloc (OPlaylist (playlist_init empty)) in
  let* tracks :=
    mapM (fun d => make_track (track_init playlist d) (Some playlist)) payload in
  let* a := alloc (OArray tracks) in
  update_playlist playlist (Playlist.with_tracks a);;
  ret {| info_playlist := Some playlist; info_tracks := a |}.

(** Modelled from the spec: [createResponse] of [BaseExtractor], defined
    in the discord-player package.  The extractor calls it in two ways:
    without arguments, for the empty result [{ playlist: null, tracks: [] }]
    of a search that found nothing, and as [createResponse(null, tracks)]. *)
Definition createResponse (playlist : option loc) (tracks : option loc) : M ExtractorInfo :=
  match tracks with
  | Some a => ret {| info_playlist := playlist; info_tracks := a |}
  | None =>
      let* a := alloc (OArray []) in
      ret {| info_playlist := playlist; info_tracks := a |}
  end.

(** [{ playlist: null, tracks: [] }] *)
Definition empty_info : M ExtractorInfo :=
  let* a := alloc (OArray []) in
  ret {| info_playlist := None; info_tracks := a |}.

(** [await this._lib.getData(query, ...).catch(Util.noop)]: reading
    [getData] off a scraper that was never created is a [TypeError]
    raised before [catch] is attached. *)
Definition scrape (ext : SpotifyExtractor World) (query : jsstring) : M (option Scraped.t) :=
  match _lib ext with
  | None => throw (TypeError (lit "Cannot read properties of undefined (reading 'getData')"))
  | Some lib => catch_noop (call (EvGetData query) (getData lib query))
  end.

(** [activate()]: the fields it assigns are returned as the extractor
    after the call.  With a bridge provider, or with a [createStream]
    function, it returns before [_lib] is assigned. *)
Definition activate (ext : SpotifyExtractor World) : M (SpotifyExtractor World) :=
  match bridgeProvider (options ext) with
  | Some _ => ret ext
  | None =>
      match createStream (options ext) with
      | Some fn =>
          ret {| options := options ext; _stream := Some fn; _isYtdl := false;
                 _lib := _lib ext |}
      | None =>
          let* lib := call EvLoadYtdl (loadYtdl env) in
          let ext' := {| options := options ext; _stream := Some lib; _isYtdl := true;
                         _lib := Some (spotify env) |} in
          fun s =>
            if isTokenExpired env (world s)
            then (call EvRequestToken (requestToken env);; ret ext') s
            else ret ext' s
      end
  end.

Definition search_tracks (query : jsstring) (context : SearchContext.t) : M ExtractorInfo :=
  let* data := call (EvSearch query) (search env query) in
  match data with
  | None => createResponse None None
  | Some data =>
      let* tracks :=
        mapM (fun spotifyData =>
                make_track (api_track_init (SearchContext.requestedBy context) spotifyData) None)
             data in
      let* a := alloc (OArray tracks) in
      createResponse None (Some a)
  end.

Definition scraped_song (ext : SpotifyExtractor World) (query : jsstring)
    (context : SearchContext.t) : M ExtractorInfo :=
  let* spotifyData := scrape ext query in
  match spotifyData with
  | None => empty_info
  | Some spotifyData =>
      let* spotifyTrack := make_track (song_track_init query context spotifyData) None in
      let* a := alloc (OArray [spotifyTrack]) in
      ret {| info_playlist := None; info_tracks := a |}
  end.

(** The [try] block of the playlist and album cases; [kind] is the word
    that [parse] must find and [lookup] is [getPlaylist] or [getAlbum]. *)
Definition primary_list (kind : jsstring) (ev : option jsstring -> event)
    (lookup : option jsstring -> ask World (option ApiList.t))
    (query : jsstring) (context : SearchContext.t) : M ExtractorInfo :=
  let '(queryType, id) := parse query in
  if negb (strict_eq kind queryType) then throw (Thrown (lit "err")) else
  let* spotifyPlaylist := call (ev id) (lookup id) in
  match spotifyPlaylist with
  | None => throw (Thrown (lit "err"))
  | Some spotifyPlaylist =>
      build_list (api_playlist_init kind query spotifyPlaylist)
        (fun _ => api_track_init (SearchContext.requestedBy context))
        (ApiList.tracks spotifyPlaylist)
  end.

(** The [catch] block of the playlist and album cases. *)
Definition scraped_list (ext : SpotifyExtractor World) (query : jsstring)
    (context : SearchContext.t) : M ExtractorInfo :=
  let* spotifyPlaylist := scrape ext query in
  match spotifyPlaylist with
  | None => empty_info
  | Some spotifyPlaylist =>
      build_list (scraped_playlist_init query spotifyPlaylist)
        (item_track_init query (SearchContext.requestedBy context))
        (Scraped.trackList spotifyPlaylist)
  end.

(** [handle(query, context)] *)
Definition handle (ext : SpotifyExtractor World) (query : jsstring)
    (context : SearchContext.t) : M ExtractorInfo :=
  let type := SearchContext.type context in
  if strict_eq AUTO type || strict_eq AUTO_SEARCH type || strict_eq SPOTIFY_SEARCH type then
    search_tracks query context
  else if strict_eq SPOTIFY_SONG type then
    scraped_song ext query context
  else if strict_eq SPOTIFY_PLAYLIST type then
    try_catch (primary_list (lit "playlist") EvGetPlaylist (getPlaylist env) query context)
              (scraped_list ext query context)
  else if strict_eq SPOTIFY_ALBUM type then
    try_catch (primary_list (lit "album") EvGetAlbum (getAlbum env) query context)
              (scraped_list ext query context)
  else empty_info.

(** The function stored as [requestMetadata], applied. *)
Definition run_resolver (ext : SpotifyExtractor World) (f : resolver) : M Metadata.t :=
  let* track := read_track (captured_track f) in
  let* bridge :=
    match bridgeProvider (options ext) with
    | Some provider =>
        let* r := call (EvResolve (captured_track f)) (resolve provider track) in
        match r with
        | Some r => ret (data r)
        | None => throw (TypeError (lit "Cannot read properties of null (reading 'data')"))
        end
    | None =>
        let* meta := call (EvPullYTMetadata (captured_track f)) (pullYTMetadata env track) in
        ret (option_map BridgeTrack meta)
    end in
  ret (Metadata.Build (Some (captured_source f)) bridge).

(** Modelled from the spec: [setMetadata] of the Track class stores the
    envelope it is given. *)
Definition setMetadata (info : loc) (m : Metadata.t) : M unit :=
  update_track info (Track.with_metadata (Some m)).

(** Modelled from the spec: [requestMetadata] of the Track class, the
    deferred resolver of section 3: it calls the stored function and keeps
    the envelope. *)
Definition requestMetadata (ext : SpotifyExtractor World) (info : loc) : M Metadata.t :=
  let* track := read_track info in
  let* res := run_resolver ext (Track.requestMetadata track) in
  setMetadata info res;;
  ret res.

(** [{ ...(info.metadata || {}), bridge }] *)
Definition with_bridge (m : option Metadata.t) (bridge : option bridge_value) : Metadata.t :=
  Metadata.Build (match m with Some m => Metadata.source m | None => None end) bridge.

(** [stream(info)] *)
Definition stream (ext : SpotifyExtractor World) (info : loc) : M Handle :=
  match bridgeProvider (options ext) with
  | Some provider =>
      let* track := read_track info in
      let* data' := call (EvResolve info) (resolve provider track) in
      match data' with
      | None => throw (Error (lit "Failed to bridge this track"))
      | Some d =>
          setMetadata info (with_bridge (Track.metadata track) (data d));;
          call EvProviderStream (provider_stream provider d)
      end
  | None =>
      match _stream ext with
      | None =>
          throw (Error (lit "Could not initialize streaming api for 'SpotifyExtractor'"))
      | Some _stream =>
          let* track := read_track info in
          if _isYtdl ext then
            if validateURL env (Track.raw_url track) then
              call (EvStream (Track.raw_url track)) (_stream (Track.raw_url track))
            else
              let* meta := call (EvPullYTMetadata info) (pullYTMetadata env track) in
              match meta with
              | Some m =>
                  setMetadata info (with_bridge (Track.metadata track) (Some (BridgeTrack m)))
              | None => ret tt
              end;;
              let _url := match meta with Some m => yt_url m | None => None end in
              if truthy _url then
                let url := nullish _url [] in
                update_track info (Track.with_raw_url url);;
                call (EvStream url) (_stream url)
              else throw (Error (lit "Failed to fetch resources for ytdl streaming"))
          else call (EvStream (Track.url track)) (_stream (Track.url track))
      end
  end.

End Operations.

(** ** The resolution policy in the words of the specification *)

Section Policy.

Context {World : Type} (env : Imports World).

Local Abbreviation state := (state World).

(** [activate()] followed by [handle(query, context)] on a new extractor. *)
Definition activate_then_handle (init : SpotifyExtractorInit World) (query : jsstring)
    (context : SearchContext.t) : M World ExtractorInfo :=
  let* ext := activate env (new_extractor init) in
  handle env ext query context.

(** The configurations in which [activate] returns before it creates the
    scraper: a bridge provider or a [createStream] function is given. *)
Definition returns_early (init : SpotifyExtractorInit World) : bool :=
  match bridgeProvider init, createStream init with
  | None, None => false
  | _, _ => true
  end.

(** The primary structured lookup: the identifier is parsed, and when the
    link is of the wanted kind the client is asked for it.  A link of
    another kind, a rejection and an empty answer all count as no result. *)
Definition primary_result (kind : jsstring) (ev : option jsstring -> event)
    (lookup : option jsstring -> ask World (option ApiList.t)) (query : jsstring)
    (s : state) : option ApiList.t * state :=
  let '(queryType, id) := parse query in
  if strict_eq kind queryType then
    let (r, w) := lookup id (world s) in
    (match r with Fulfilled o => o | Rejected _ => None end,
     {| world := w; store := store s; trace := trace s ++ [ev id] |})
  else (None, s).

(** The fallback scraper, asked with the query as it was given. *)
Definition scraper_result (lib : Spotify World) (query : jsstring) (s : state)
    : option Scraped.t * state :=
  let (r, w) := getData lib query (world s) in
  (match r with Fulfilled o => o | Rejected _ => None end,
   {| world := w; store := store s; trace := trace s ++ [EvGetData query] |}).

(** The result [{ playlist, tracks }] built from a payload. *)
Definition built {A} (s : state) (playlist_init : loc -> Playlist.t)
    (track_init : loc -> A -> loc -> Track.t) (payload : list A)
    : result ExtractorInfo * state :=
  (Ok (list_info (store s) (length payload)),
   {| world := world s;
      store := list_store (store s) playlist_init track_init payload;
      trace := trace s |}).

(** The empty result [{ playlist: null, tracks: [] }]. *)
Definition empty_result (s : state) : result ExtractorInfo * state :=
  (Ok {| info_playlist := None; info_tracks := length (store s) |},
   {| world := world s; store := store s ++ [OArray []]; trace := trace s |}).

(** Primary lookup first; then the scraper with the original query; the
    empty result only when both gave nothing. *)
Definition two_tier (kind : jsstring) (ev : option jsstring -> event)
    (lookup : option jsstring -> ask World (option ApiList.t)) (lib : Spotify World)
    (query : jsstring) (context : SearchContext.t) (s : state)
    : result ExtractorInfo * state :=
  match primary_result kind ev lookup query s with
  | (Some d, s1) =>
      built s1 (api_playlist_init kind query d)
        (fun _ => api_track_init (SearchContext.requestedBy context)) (ApiList.tracks d)
  | (None, s1) =>
      match scraper_result lib query s1 with
      | (Some p, s2) =>
          built s2 (scraped_playlist_init query p)
            (item_track_init query (SearchContext.requestedBy context)) (Scraped.trackList p)
      | (None, s2) => empty_result s2
      end
  end.

(** [n] calls of the deferred resolver of the track at [info], one after
    the other, with the way each of them ended. *)
Fixpoint repeat_request (ext : SpotifyExtractor World) (info : loc) (n : nat) (s : state)
    : list (result Metadata.t) * state :=
  match n with
  | O => ([], s)
  | S k =>
      let (r, s1) := requestMetadata env ext info s in
      let (rs, s2) := repeat_request ext info k s1 in
      (r :: rs, s2)
  end.

End Policy.


(** [metadata.source] of a track. *)
Definition metadata_source (t : Track.t) : option payload :=
  match Track.metadata t with
  | Some m => Metadata.source m
  | None => None
  end.

(** [metadata.bridge] of a track. *)
Definition metadata_bridge (t : Track.t) : option bridge_value :=
  match Track.metadata t with
  | Some m => Metadata.bridge m
  | None => None
  end.

(** A track as [handle] creates it: the envelope holds the provider
    payload and no bridge, and the resolver closes over the same payload
    and over the track itself. *)
Definition created (l : loc) (t : Track.t) : Prop :=
  exists p,
    Track.metadata t = Some (Metadata.Build (Some p) None) /\
    Track.requestMetadata t = Resolver p l.

(** The fields of a track other than [metadata.bridge] and [raw.url]. *)
Definition same_outside_bridge (t t' : Track.t) : Prop :=
  Track.title t' = Track.title t /\
  Track.description t' = Track.description t /\
  Track.author t' = Track.author t /\
  Track.url t' = Track.url t /\
  Track.thumbnail t' = Track.thumbnail t /\
  Track.duration t' = Track.duration t /\
  Track.views t' = Track.views t /\
  Track.requestedBy t' = Track.requestedBy t /\
  Track.source t' = Track.source t /\
  Track.queryType t' = Track.queryType t /\
  metadata_source t' = metadata_source t /\
  Track.requestMetadata t' = Track.requestMetadata t /\
  Track.playlist t' = Track.playlist t /\
  Track.extractor t' = Track.extractor t.

(** The default search found nothing to play: no track, or a track
    without url. *)
Definition no_candidate (r : outcome (option YTMeta)) : bool :=
  match r with
  | Fulfilled None => true
  | Fulfilled (Some m) => negb (truthy (yt_url m))
  | Rejected _ => false
  end.

(** The stored resolver keeps its payload: the invariant of a track. *)
Definition keeps (p : payload) (l : loc) (h : heap) : Prop :=
  exists t, h !! l = Some (OTrack t) /\ metadata_source t = Some p /\
            Track.requestMetadata t = Resolver p l.

(** Between the stores [h] and [h'] nothing changed but, at most, the
    [metadata.bridge] and [raw.url] slots of the track [t] at [info]. *)
Definition only_bridge_and_raw_url_change (info : loc) (t : Track.t) (h h' : heap) : Prop :=
  (exists t', h' !! info = Some (OTrack t') /\ same_outside_bridge t t') /\
  length h' = length h /\
  forall l, l <> info -> h' !! l = h !! l.

(** Every track of [h] from [n] on is as [handle] creates tracks. *)
Definition all_created_from (n : nat) (h : heap) : Prop :=
  forall l t, n <= l -> h !! l = Some (OTrack t) -> created l t.

(** A computation that only adds tracks of that kind. *)
Definition adds_created {World A : Type} (m : M World A) : Prop :=
  forall n s, all_created_from n (store s) -> all_created_from n (store (snd (m s))).

(** The collaborator that the resolver of [t] calls answers: the bridge
    provider resolves to an envelope, or the default search is fulfilled
    (with or without a track). *)
Definition answers {World : Type} (env : Imports World) (ext : SpotifyExtractor World)
    (t : Track.t) (w : World) : bool :=
  match bridgeProvider (options ext) with
  | Some provider =>
      match fst (resolve provider t w) with
      | Fulfilled (Some _) => true
      | _ => false
      end
  | None =>
      match fst (pullYTMetadata env t w) with
      | Fulfilled _ => true
      | Rejected _ => false
      end
  end.

(** The track at [l] in the store [h] was created with an empty bridge;
    its deferred resolver returns an envelope whenever its collaborator
    answers; and however often the resolver runs (whatever the extractor's
    options and the state of the collaborators), every envelope that is
    returned carries the payload captured at creation, and so does the
    track afterwards. *)
Definition source_is_kept {World : Type} (env : Imports World) (h : heap) (l : loc)
    (t : Track.t) : Prop :=
  exists p,
    Track.metadata t = Some (Metadata.Build (Some p) None) /\
    (forall (ext : SpotifyExtractor World) (w : World) (tr : list event),
       answers env ext t w = true ->
       exists b,
         fst (requestMetadata env ext l {| world := w; store := h; trace := tr |}) =
           Ok (Metadata.Build (Some p) b)) /\
    forall (ext : SpotifyExtractor World) (n : nat) (w : World) (tr : list event),
      let out := repeat_request env ext l n {| world := w; store := h; trace := tr |} in
      Forall (fun r => forall m, r = Ok m -> Metadata.source m = Some p) (fst out) /\
      exists t', store (snd out) !! l = Some (OTrack t') /\ metadata_source t' = Some p.

(** The well-formed empty structure [{ playlist: null, tracks: [] }]. *)
Definition empty_structure (r : result ExtractorInfo) (h : heap) : Prop :=
  exists a, r = Ok {| info_playlist := None; info_tracks := a |} /\ h !! a = Some (OArray []).

(** What the specification's end-to-end scenario asks of a playlist that
    the primary client resolved: the result holds a playlist [p] and an
    array [a]; [a] is the very array that [p.tracks] holds; [p.id] is the
    payload's id; [a] has one track per payload entry, in payload order;
    every track refers back to [p]. *)
Definition playlist_of_payload (r : result ExtractorInfo) (h : heap) (d : ApiList.t) : Prop :=
  exists p a pl locs,
    r = Ok {| info_playlist := Some p; info_tracks := a |} /\
    h !! p = Some (OPlaylist pl) /\
    Playlist.tracks pl = a /\
    Playlist.id pl = Some (ApiList.id d) /\
    h !! a = Some (OArray locs) /\
    length locs = length (ApiList.tracks d) /\
    forall i di, ApiList.tracks d !! i = Some di ->
      exists l t,
        locs !! i = Some l /\ h !! l = Some (OTrack t) /\
        Track.playlist t = Some p /\
        metadata_source t = Some (FromApi di) /\
        Track.title t = Some (ApiTrack.title di).

(** ** Sample collaborators *)

Module Sample.

Definition song1 : ApiTrack.t :=
  {| ApiTrack.title := lit "Song A"; ApiTrack.artist := Some (lit "Artist");
     ApiTrack.url := lit "https://open.spotify.com/track/t1";
     ApiTrack.thumbnail := None; ApiTrack.duration := Some 215000%Z |}.

Definition song2 : ApiTrack.t :=
  {| ApiTrack.title := lit "Song B"; ApiTrack.artist := None;
     ApiTrack.url := lit "https://open.spotify.com/track/t2";
     ApiTrack.thumbnail := Some (lit "https://i.scdn.co/image/b"); ApiTrack.duration := None |}.

Definition playlist : ApiList.t :=
  {| ApiList.name := Some (lit "Mix"); ApiList.thumbnail := None;
     ApiList.author := Some (lit "bob"); ApiList.id := lit "abc123";
     ApiList.url := None; ApiList.tracks := [song1; song2] |}.

Definition item1 : ScrapedItem.t :=
  {| ScrapedItem.uid := Some (lit "u1"); ScrapedItem.title := Some (lit "Song A");
     ScrapedItem.subtitle := Some (lit "Artist"); ScrapedItem.duration := Some 215000%Z |}.

Definition scraped : Scraped.t :=
  {| Scraped.type := lit "playlist"; Scraped.name := Some (lit "Mix");
     Scraped.title := None; Scraped.subtitle := None; Scraped.id := Some (lit "abc123");
     Scraped.artists := []; Scraped.coverArt := None; Scraped.duration := None;
     Scraped.maxDuration := None; Scraped.trackList := [item1] |}.

Definition stream_fn : StreamFN unit := fun url w => (Fulfilled (Url url), w).

(** A primary client without answers next to a scraper that has one. *)
Definition scraper : Spotify unit :=
  {| getData := fun _ w => (Fulfilled (Some scraped), w) |}.

Definition imports (primary : option ApiList.t) : Imports unit :=
  {| search := fun _ w => (Fulfilled None, w);
     getPlaylist := fun _ w => (Fulfilled primary, w);
     getAlbum := fun _ w => (Fulfilled primary, w);
     isTokenExpired := fun _ => false;
     requestToken := fun w => (Fulfilled tt, w);
     spotify := scraper;
     loadYtdl := fun w => (Fulfilled stream_fn, w);
     pullYTMetadata := fun _ w => (Fulfilled None, w);
     validateURL := fun _ => false |}.

Definition provider : BridgeProvider unit :=
  {| resolve := fun _ w => (Fulfilled None, w);
     provider_stream := fun _ w => (Fulfilled (Readable 0%N), w) |}.

Definition plain_init : SpotifyExtractorInit unit :=
  {| clientId := None; clientSecret := None; createStream := None; bridgeProvider := None |}.

Definition bridge_init : SpotifyExtractorInit unit :=
  {| clientId := None; clientSecret := None; createStream := None;
     bridgeProvider := Some provider |}.

(** An extractor after [activate] on the default path. *)
Definition activated : SpotifyExtractor unit :=
  {| options := plain_init; _stream := Some stream_fn; _isYtdl := true;
     _lib := Some scraper |}.

Definition start : state unit := {| world := tt; store := []; trace := [] |}.

Definition context (type : SearchQueryType) : SearchContext.t :=
  {| SearchContext.type := Some type; SearchContext.requestedBy := Some (lit "alice") |}.

Definition playlist_link : jsstring := lit "https://open.spotify.com/playlist/abc123".

(** A store that holds one track, as the search path creates it. *)
Definition one_track : state unit :=
  {| world := tt;
     store := [OTrack (finish_track (api_track_init None song1) None 0)];
     trace := [] |}.

End Sample.

(** ** The rest of the extractor *)

(** [process.env], as far as the extractor reads it. *)
Record ProcessEnv : Type := {
  DP_SPOTIFY_CLIENT_ID : option jsstring;
  DP_SPOTIFY_CLIENT_SECRET : option jsstring
}.

Record Credentials : Type := {
  credentials_clientId : option jsstring;
  credentials_clientSecret : option jsstring
}.

(** [a || b || null] *)
Definition or_null (a b : option jsstring) : option jsstring :=
  if truthy a then a else if truthy b then b else None.

(** The field [_credentials]. *)
Definition _credentials {World : Type} (options : SpotifyExtractorInit World)
    (process_env : ProcessEnv) : Credentials :=
  {| credentials_clientId := or_null (clientId options) (DP_SPOTIFY_CLIENT_ID process_env);
     credentials_clientSecret :=
       or_null (clientSecret options) (DP_SPOTIFY_CLIENT_SECRET process_env) |}.

(** [track.author || track.title] *)
Definition related_query (track : Track.t) : option jsstring :=
  match Track.author track with
  | _ :: _ => Some (Track.author track)
  | [] => Track.title track
  end.

Section MoreOperations.

Context {World : Type} (env : Imports World).

Local Abbreviation state := (state World).

(** [getRelatedTracks(track)].  The fields of [track] are read before the
    first await.  [handle] takes a string: a track with an empty author
    and no title, for which the query would be [undefined], is left out of
    the model ([None]). *)
Definition getRelatedTracks (ext : SpotifyExtractor World) (track : Track.t)
    : option (M World ExtractorInfo) :=
  match related_query track with
  | Some query =>
      Some (handle env ext query
              {| SearchContext.type := Some SPOTIFY_SEARCH;
                 SearchContext.requestedBy := Track.requestedBy track |})
  | None => None
  end.

(** [activate()] followed by [stream(info)] on a new extractor. *)
Definition activate_then_stream (init : SpotifyExtractorInit World) (info : loc)
    : M World Handle :=
  let* ext := activate env (new_extractor init) in
  stream env ext info.

End MoreOperations.

(** ** Closed forms of the outcomes of [handle] *)

(** The state after an awaited call that left the world [w]. *)
Definition called {World : Type} (s : state World) (w : World) (ev : event) : state World :=
  {| world := w; store := store s; trace := trace s ++ [ev] |}.

(** The result [{ playlist: null, tracks }] with one track per entry of
    [payload], created on top of the store of [s]. *)
Definition tracks_result {World A : Type} (s : state World) (init : A -> loc -> Track.t)
    (payload : list A) : result ExtractorInfo * state World :=
  (Ok {| info_playlist := None; info_tracks := length (store s) + length payload |},
   {| world := world s;
      store := store s
               ++ imap (fun i d => OTrack (finish_track (init d) None (length (store s) + i)))
                    payload
               ++ [OArray (seq (length (store s)) (length payload))];
      trace := trace s |}).

(** The ways in which a call of [handle] that started with the store [h]
    can end: with an exception and the store as it was, with the empty
    result, with an array of tracks, or with a playlist. *)
Inductive handle_shape (h : heap) : result ExtractorInfo -> heap -> Prop :=
| shape_throw e : handle_shape h (Throw e) h
| shape_empty :
    handle_shape h (Ok {| info_playlist := None; info_tracks := length h |}) (h ++ [OArray []])
| shape_tracks {A} (init : A -> loc -> Track.t) (payload : list A) :
    (forall d l, Track.playlist (init d l) = None) ->
    handle_shape h
      (Ok {| info_playlist := None; info_tracks := length h + length payload |})
      (h ++ imap (fun i d => OTrack (finish_track (init d) None (length h + i))) payload
         ++ [OArray (seq (length h) (length payload))])
| shape_list {A} (playlist_init : loc -> Playlist.t) (track_init : loc -> A -> loc -> Track.t)
    (payload : list A) :
    handle_shape h (Ok (list_info h (length payload)))
      (list_store h playlist_init track_init payload).

(** ** What results look like *)

(** The events by which [handle] asks the primary client for a list: the
    identifier it passes is the one that [re] finds in the query, after
    the word for the kind of list. *)
Definition asks_for_parsed_id (query : jsstring) (ev : event) : Prop :=
  match ev with
  | EvGetPlaylist o => exists id, o = Some id /\ Link (lit "playlist") id query
  | EvGetAlbum o => exists id, o = Some id /\ Link (lit "album") id query
  | EvSearch q => q = query
  | EvGetData q => q = query
  | _ => False
  end.

(** A result [{ playlist, tracks }] in the store [h], returned by a call
    that started with [n] objects: [tracks] is an array of tracks that the
    call created, each tagged with the extractor and pointing to
    [playlist]; and [playlist], when there is one, was created by the call
    and holds that very array. *)
Definition well_formed_result (n : nat) (h : heap) (info : ExtractorInfo) : Prop :=
  n <= info_tracks info /\
  (exists locs,
     h !! info_tracks info = Some (OArray locs) /\
     Forall (fun l => n <= l /\
                      exists t, h !! l = Some (OTrack t) /\
                                Track.playlist t = info_playlist info /\
                                Track.extractor t = Some identifier) locs) /\
  match info_playlist info with
  | Some p => n <= p /\ exists pl, h !! p = Some (OPlaylist pl) /\
                                   Playlist.tracks pl = info_tracks info
  | None => True
  end.

(** The result of a search in the store [h]: no playlist, and one track
    per entry of [data], in the order of [data]. *)
Definition tracks_of_search (r : result ExtractorInfo) (h : heap)
    (requestedBy : option jsstring) (data : list ApiTrack.t) : Prop :=
  exists a locs,
    r = Ok {| info_playlist := None; info_tracks := a |} /\
    h !! a = Some (OArray locs) /\
    length locs = length data /\
    forall i d, data !! i = Some d ->
      exists l, locs !! i = Some l /\
                h !! l = Some (OTrack (finish_track (api_track_init requestedBy d) None l)).

(** The result for a list that the scraper resolved: as
    [playlist_of_payload], for the entries of [trackList]. *)
Definition playlist_of_scraped (r : result ExtractorInfo) (h : heap) (d : Scraped.t) : Prop :=
  exists p a pl locs,
    r = Ok {| info_playlist := Some p; info_tracks := a |} /\
    h !! p = Some (OPlaylist pl) /\
    Playlist.tracks pl = a /\
    Playlist.id pl = Scraped.id d /\
    Playlist.type pl = Scraped.type d /\
    h !! a = Some (OArray locs) /\
    length locs = length (Scraped.trackList d) /\
    forall i m, Scraped.trackList d !! i = Some m ->
      exists l t,
        locs !! i = Some l /\ h !! l = Some (OTrack t) /\
        Track.playlist t = Some p /\
        metadata_source t = Some (FromItem m) /\
        Track.title t = Some (nullish (ScrapedItem.title m) []).

(** The result for a single scraped song: no playlist and an array of the
    one track. *)
Definition song_of_scraped (r : result ExtractorInfo) (h : heap) (query : jsstring)
    (context : SearchContext.t) (d : Scraped.t) : Prop :=
  exists a l,
    r = Ok {| info_playlist := None; info_tracks := a |} /\
    h !! a = Some (OArray [l]) /\
    h !! l = Some (OTrack (finish_track (song_track_init query context d) None l)).

(** The query types that go to the search of the primary client. *)
Definition is_search_type (type : option SearchQueryType) : bool :=
  strict_eq AUTO type || strict_eq AUTO_SEARCH type || strict_eq SPOTIFY_SEARCH type.

(** The state in which the track at [info] is [t]. *)
Definition with_track {World : Type} (s : state World) (info : loc) (t : Track.t)
    : state World :=
  {| world := world s; store := <[info := OTrack t]> (store s); trace := trace s |}.

(** The message of the error that [stream] raises when there is no stream
    function. *)
Definition missing_api : jsstring :=
  lit "Could not initialize streaming api for 'SpotifyExtractor'".

(** The track at [info] after a bridge was stored in its envelope. *)
Definition bridged (t : Track.t) (b : option bridge_value) : Track.t :=
  Track.with_metadata (Some (with_bridge (Track.metadata t) b)) t.

(** ** More sample collaborators *)

Module Sample2.

Definition found : YTMeta := {| yt_url := Some (lit "https://www.youtube.com/watch?v=abc") |}.

Definition without_url : YTMeta := {| yt_url := None |}.

(** The default search finds [meta]; a url is playable when it is on
    YouTube. *)
Definition imports (results : option (list ApiTrack.t)) (meta : option YTMeta)
    : Imports unit :=
  {| search := fun _ w => (Fulfilled results, w);
     getPlaylist := fun _ w => (Fulfilled None, w);
     getAlbum := fun _ w => (Fulfilled (Some Sample.playlist), w);
     isTokenExpired := fun _ => true;
     requestToken := fun w => (Fulfilled tt, w);
     spotify := Sample.scraper;
     loadYtdl := fun w => (Fulfilled Sample.stream_fn, w);
     pullYTMetadata := fun _ w => (Fulfilled meta, w);
     validateURL := fun u => bool_decide (take 24 u = lit "https://www.youtube.com/") |}.

(** A client whose search is rejected. *)
Definition failing : Imports unit :=
  {| search := fun _ w => (Rejected (lit "429"), w);
     getPlaylist := fun _ w => (Rejected (lit "429"), w);
     getAlbum := fun _ w => (Rejected (lit "429"), w);
     isTokenExpired := fun _ => false;
     requestToken := fun w => (Fulfilled tt, w);
     spotify := Sample.scraper;
     loadYtdl := fun w => (Fulfilled Sample.stream_fn, w);
     pullYTMetadata := fun _ w => (Rejected (lit "offline"), w);
     validateURL := fun _ => false |}.

Definition custom_init : SpotifyExtractorInit unit :=
  {| clientId := Some []; clientSecret := None; createStream := Some Sample.stream_fn;
     bridgeProvider := None |}.

(** A provider that resolves every track to the same data. *)
Definition provider : BridgeProvider unit :=
  {| resolve := fun _ w => (Fulfilled (Some {| data := Some (BridgeData (lit "bridged")) |}), w);
     provider_stream := fun _ w => (Fulfilled (Readable 7%N), w) |}.

Definition both_init : SpotifyExtractorInit unit :=
  {| clientId := None; clientSecret := None; createStream := Some Sample.stream_fn;
     bridgeProvider := Some provider |}.

Definition null_provider_ext : SpotifyExtractor unit := new_extractor Sample.bridge_init.

Definition process_env : ProcessEnv :=
  {| DP_SPOTIFY_CLIENT_ID := Some (lit "id-from-env"); DP_SPOTIFY_CLIENT_SECRET := Some [] |}.

Definition song : Scraped.t :=
  {| Scraped.type := lit "track"; Scraped.name := Some (lit "Song A");
     Scraped.title := Some (lit "Song A"); Scraped.subtitle := None;
     Scraped.id := Some (lit "t1");
     Scraped.artists := [Scraped.Artist (Some (lit "Artist"))];
     Scraped.coverArt := None; Scraped.duration := Some 215000%Z;
     Scraped.maxDuration := None; Scraped.trackList := [] |}.

Definition song_scraper : Spotify unit :=
  {| getData := fun _ w => (Fulfilled (Some song), w) |}.

Definition song_ext : SpotifyExtractor unit :=
  {| options := Sample.plain_init; _stream := Some Sample.stream_fn; _isYtdl := true;
     _lib := Some song_scraper |}.

Definition album_link : jsstring := lit "spotify:album:abc123".

(** An album as the scraper returns it. *)
Definition album : Scraped.t :=
  {| Scraped.type := lit "album"; Scraped.name := Some (lit "Record");
     Scraped.title := None; Scraped.subtitle := Some (lit "Artist");
     Scraped.id := Some (lit "abc123");
     Scraped.artists := []; Scraped.coverArt := None; Scraped.duration := None;
     Scraped.maxDuration := None; Scraped.trackList := [Sample.item1] |}.

(** The track of [Sample.one_track]. *)
Definition track0 : Track.t := finish_track (api_track_init None Sample.song1) None 0.

Definition track_link : jsstring := lit "https://open.spotify.com/track/t1".


End Sample2.

(** * Basic facts *)

Lemma strict_eq_true t type : strict_eq t type = true <-> type = Some t.
Proof.
  destruct type as [u|]; cbn; [|done]. unfold str_eqb.
  rewrite bool_decide_eq_true. split; [by intros ->|by intros [= ->]].
Qed.


(** * Facts about the matcher *)

Module RegexFacts.

Section Facts.

Variable input : jsstring.

Local Abbreviation matcher := (matcher input).
Local Abbreviation match_chars := (match_chars input).
Local Abbreviation reach := (reach input).
Local Abbreviation rest := (rest input).
Local Abbreviation run := (run input).

Lemma reach_refl x : reach x x.
Proof. unfold reach. lia. Qed.

Lemma reach_trans x y z : reach x y -> reach y z -> reach x z.
Proof. unfold reach. lia. Qed.

Lemma match_chars_spec l i :
  match_chars l i =
    if bool_decide (take (length l) (drop i input) = l) then Some (i + length l)%nat else None.
Proof.
  revert i. induction l as [|ch l IH]; intros i; cbn [Regex.match_chars length].
  - rewrite take_0, bool_decide_eq_true_2 by done. f_equal. lia.
  - destruct (input !! i) as [ch'|] eqn:Hi.
    + rewrite (drop_S _ _ _ Hi). cbn [take].
      destruct (N.eqb_spec ch ch') as [->|Hne].
      * rewrite IH. case_bool_decide as H1; case_bool_decide as H2; try congruence.
        f_equal. lia.
      * rewrite bool_decide_eq_false_2; [done|]. congruence.
    + apply lookup_ge_None in Hi. rewrite drop_ge by lia. cbn [take].
      by rewrite bool_decide_eq_false_2.
Qed.

Lemma match_chars_Some l i e :
  match_chars l i = Some e ->
  e = (i + length l)%nat /\ drop i input = l ++ drop e input.
Proof.
  rewrite match_chars_spec. case_bool_decide as H; [|done].
  intros [= <-]. split; [done|].
  rewrite <- drop_drop. rewrite <- H at 1. rewrite take_drop. done.
Qed.

Lemma match_chars_le l i e : match_chars l i = Some e -> i <= e /\ (e <= Nat.max i (length input)).
Proof.
  intros H. apply match_chars_Some in H as [-> H]. split; [lia|].
  destruct l as [|ch l]; simpl; [lia|].
  assert (length (drop i input) = length ((ch :: l) ++ drop (i + length (ch :: l)) input)) as Hl
    by (by rewrite <- H).
  rewrite length_app, !length_drop in Hl. simpl in Hl. lia.
Qed.

(** Continuations that agree on the reachable states give the same result. *)
Lemma repeat_ext (m : mstate -> cont -> option mstate) gs :
  (forall x c c', (forall y, reach x y -> c y = c' y) -> m x c = m x c') ->
  forall fuel min max x c c',
    (forall y, reach x y -> c y = c' y) ->
    repeatMatcher m gs fuel min max x c = repeatMatcher m gs fuel min max x c'.
Proof.
  intros Hm fuel. induction fuel as [|fuel IH]; intros min max x c c' Hc.
  - simpl. destruct max as [[|k]|]; [apply Hc, reach_refl| |].
    all: rewrite (Hc x (reach_refl x)); reflexivity.
  - simpl. destruct max as [[|k]|]; [apply Hc, reach_refl| |].
    all: rewrite (Hc x (reach_refl x)).
    all: erewrite Hm; [reflexivity|]; intros y Hy; simpl in *.
    all: destruct (Nat.eqb min 0 && Nat.eqb (endIndex y) (endIndex x)); [done|].
    all: apply IH; intros z Hz; apply Hc; eapply reach_trans; [exact Hy|exact Hz].
Qed.

Lemma matcher_ext r : forall x c c',
  (forall y, reach x y -> c y = c' y) -> matcher r x c = matcher r x c'.
Proof.
  induction r as [| | |l|p|r1 IH1 r2 IH2|r1 IH1 r2 IH2|min max r IH|n r IH];
    intros x c c' Hc; simpl.
  - apply Hc, reach_refl.
  - destruct (Nat.eqb _ _); [apply Hc, reach_refl|done].
  - destruct (Nat.eqb _ _); [apply Hc, reach_refl|done].
  - destruct (match_chars l (endIndex x)) as [e|] eqn:He; [|done].
    apply Hc. apply match_chars_le in He. unfold reach; simpl. lia.
  - destruct (input !! endIndex x) as [ch|] eqn:Hi; [|done].
    destruct (p ch); [|done]. apply Hc.
    apply lookup_lt_Some in Hi. unfold reach; simpl. lia.
  - apply IH1. intros y Hy. apply IH2. intros z Hz. apply Hc.
    eapply reach_trans; eauto.
  - rewrite (IH1 x c c' Hc), (IH2 x c c' Hc). done.
  - apply repeat_ext; [exact IH|exact Hc].
  - apply IH. intros y Hy. apply Hc. unfold reach in *; simpl. lia.
Qed.

Lemma repeatMatcher_unfold (m : mstate -> cont -> option mstate) gs fuel min max x c :
  repeatMatcher m gs fuel min max x c =
  match max with
  | Some O => c x
  | _ =>
      let d : cont := fun y =>
        if Nat.eqb min 0 && Nat.eqb (endIndex y) (endIndex x) then None
        else match fuel with
             | O => None
             | S fuel' => repeatMatcher m gs fuel' (Nat.pred min) (pred_max max) y c
             end in
      let xr := MState (endIndex x) (clear_captures gs (captures x)) in
      if Nat.eqb min 0 then
        match m xr d with
        | Some z => Some z
        | None => c x
        end
      else m xr d
  end.
Proof. destruct fuel; reflexivity. Qed.

(** Any fuel above the bound gives the same result. *)
Lemma repeat_fuel r gs : forall f f' min max x c,
  min + (length input - endIndex x) <= f ->
  min + (length input - endIndex x) <= f' ->
  repeatMatcher (matcher r) gs f min max x c = repeatMatcher (matcher r) gs f' min max x c.
Proof.
  induction f as [|f IH]; intros f' min max x c Hf Hf';
    rewrite (repeatMatcher_unfold _ _ _ min max x c);
    rewrite (repeatMatcher_unfold _ _ f' min max x c);
    destruct max as [[|k]|]; try reflexivity; cbv zeta.
  all: erewrite matcher_ext; [reflexivity|]; intros y [Hy1 Hy2]; simpl in Hy1, Hy2.
  all: destruct (Nat.eqb_spec min 0) as [Hmin|Hmin]; simpl;
         [destruct (Nat.eqb_spec (endIndex y) (endIndex x)) as [He|He]; [done|]|].
  all: destruct f' as [|f']; try lia.
  all: apply IH; simpl; lia.
Qed.

Lemma quant_unfold min max r x c :
  matcher (Quant min max r) x c =
  match max with
  | Some O => c x
  | _ =>
      let d : cont := fun y =>
        if Nat.eqb min 0 && Nat.eqb (endIndex y) (endIndex x) then None
        else matcher (Quant (Nat.pred min) (pred_max max) r) y c in
      let xr := MState (endIndex x) (clear_captures (groups r) (captures x)) in
      if Nat.eqb min 0 then
        match matcher r xr d with
        | Some z => Some z
        | None => c x
        end
      else matcher r xr d
  end.
Proof.
  cbn [Regex.matcher]. rewrite repeatMatcher_unfold.
  destruct max as [[|k]|]; try reflexivity; cbv zeta.
  all: erewrite matcher_ext; [reflexivity|]; intros y [Hy1 Hy2]; simpl in Hy1, Hy2.
  all: destruct (Nat.eqb_spec min 0) as [Hmin|Hmin]; simpl;
         [destruct (Nat.eqb_spec (endIndex y) (endIndex x)) as [He|He]; [done|]|].
  all: destruct (min + (length input - endIndex x)) as [|f] eqn:Hf; try lia.
  all: apply repeat_fuel; simpl; lia.
Qed.

Lemma prefix_len_rest p x :
  prefix_len p (rest x) =
    match input !! endIndex x with
    | Some ch => if p ch then S (prefix_len p (drop (S (endIndex x)) input)) else O
    | None => O
    end.
Proof.
  unfold Regex.rest. destruct (input !! endIndex x) as [ch|] eqn:Hi.
  - by rewrite (drop_S _ _ _ Hi).
  - apply lookup_ge_None in Hi. by rewrite drop_ge by lia.
Qed.

Lemma steps_S gs f n x : steps gs f (S n) x = steps gs f n (step gs f x).
Proof. reflexivity. Qed.

Lemma endIndex_steps gs f n x : endIndex (steps gs f n x) = (endIndex x + n)%nat.
Proof.
  revert x. induction n as [|n IH]; intros x; simpl; [lia|].
  rewrite IH. simpl. lia.
Qed.

Lemma quant_single p r f K min max x : single input p r f ->
  max <> Some O ->
  matcher (Quant min max r) x K =
    match input !! endIndex x with
    | Some ch =>
        if p ch then
          let inner := matcher (Quant (Nat.pred min) (pred_max max) r) (step (groups r) f x) K in
          if Nat.eqb min 0 then match inner with Some z => Some z | None => K x end
          else inner
        else if Nat.eqb min 0 then K x else None
    | None => if Nat.eqb min 0 then K x else None
    end.
Proof.
  intros Hr Hmax. rewrite quant_unfold.
  assert (forall A (a b : A), match max with Some O => a | _ => b end = b) as ->
    by (intros; destruct max as [[|?]|]; done).
  cbv zeta. destruct (Nat.eqb min 0); rewrite Hr; cbn [endIndex].
  all: destruct (input !! endIndex x) as [ch|]; [|done].
  all: destruct (p ch); [|done].
  all: fold (step (groups r) f x).
  all: replace (Nat.eqb (S (endIndex x)) (endIndex x)) with false
    by (symmetry; apply Nat.eqb_neq; lia).
  all: by rewrite ?andb_false_r.
Qed.

(** A greedy quantifier over a one-unit pattern takes as many units as it
    can (at most [max]), provided that giving units back cannot help the
    continuation [K]. *)
Lemma quant_greedy p r f K : single input p r f ->
  forall n min max x,
    le_max min max ->
    prefix_len p (rest x) = n ->
    (forall k, min <= k < top_of max n ->
       K (steps (groups r) f (top_of max n) x) = None ->
       K (steps (groups r) f k x) = None) ->
    matcher (Quant min max r) x K =
      if Nat.leb min (top_of max n) then K (steps (groups r) f (top_of max n) x) else None.
Proof.
  intros Hr n min max. destruct (decide (max = Some O)) as [->|Hmax].
  { intros x Hle _ _. rewrite quant_unfold. unfold le_max in Hle.
    assert (min = 0)%nat as -> by lia. cbn [top_of]. by rewrite Nat.min_0_r. }
  revert min max Hmax.
  induction n as [|n IH]; intros min max Hmax x Hle Hn HK;
    rewrite (quant_single p r f) by done; rewrite prefix_len_rest in Hn.
  - assert (top_of max 0 = 0)%nat as Ht by (by destruct max).
    rewrite Ht.
    destruct (input !! endIndex x) as [ch|]; [destruct (p ch); [done|]|];
      by destruct min.
  - destruct (input !! endIndex x) as [ch|] eqn:Hi; [|done].
    destruct (p ch) eqn:Hp; [|done]. injection Hn as Hn.
    assert (exists t, top_of max (S n) = S t /\ top_of (pred_max max) n = t) as (t & Ht & Ht').
    { destruct max as [[|m]|]; [done| |].
      - exists (Nat.min n m). split; [cbn [top_of]; lia|done].
      - exists n. done. }
    rewrite Ht in *. cbv zeta.
    assert (matcher (Quant (Nat.pred min) (pred_max max) r) (step (groups r) f x) K
            = if Nat.leb (Nat.pred min) t then K (steps (groups r) f t (step (groups r) f x)) else None)
      as ->.
    { destruct (decide (pred_max max = Some O)) as [Hz|Hz].
      - rewrite quant_unfold, Hz. rewrite Hz in Ht'. cbn [top_of] in Ht'.
        assert (t = 0)%nat as -> by lia.
        assert (Nat.pred min = 0)%nat as ->; [|done].
        destruct max as [m|]; [|done]. unfold le_max in Hle. cbn in Hz.
        injection Hz as Hz. lia.
      - rewrite <- Ht'. apply IH; [done| | exact Hn |].
        + destruct max as [m|]; [|done]. unfold le_max in *. cbn. destruct m; [done|]. cbn. lia.
        + rewrite Ht'. intros k Hk Hnone. apply (HK (S k)); [lia|]. exact Hnone. }
    rewrite steps_S.
    destruct min as [|min]; cbn [Nat.pred Nat.eqb Nat.leb].
    + destruct (K (steps (groups r) f t (step (groups r) f x))) eqn:HKt; [done|].
      apply (HK 0%nat); [lia|]. rewrite steps_S. exact HKt.
    + done.
Qed.

Lemma strip_Some l s t : strip l s = Some t -> s = l ++ t /\ t = drop (length l) s.
Proof.
  unfold strip. case_bool_decide as H; [|done]. intros [= <-]. split; [|done].
  rewrite <- H at 1. by rewrite take_drop.
Qed.

Lemma strip_app l t : strip l (l ++ t) = Some t.
Proof.
  unfold strip. rewrite take_app_length, drop_app_length.
  by rewrite bool_decide_eq_true_2.
Qed.

Lemma strip_head c l c' s t : strip (c :: l) (c' :: s) = Some t -> c = c'.
Proof. intros H. apply strip_Some in H as [H _]. by injection H. Qed.

Lemma strip_head_ne c l c' s : c <> c' -> strip (c :: l) (c' :: s) = None.
Proof.
  intros Hne. destruct (strip (c :: l) (c' :: s)) eqn:H; [|done].
  by apply strip_head in H.
Qed.

Lemma matcher_Chars l x c :
  matcher (Chars l) x c =
    match strip l (rest x) with
    | Some _ => c (MState (endIndex x + length l) (captures x))
    | None => None
    end.
Proof.
  cbn [Regex.matcher]. rewrite match_chars_spec. unfold strip, Regex.rest.
  by case_bool_decide.
Qed.

Lemma rest_drop x n c : rest (MState (endIndex x + n) c) = drop n (rest x).
Proof. unfold Regex.rest. cbn [endIndex]. by rewrite drop_drop. Qed.

Lemma length_rest x : length (rest x) = (length input - endIndex x)%nat.
Proof. unfold Regex.rest. by rewrite length_drop. Qed.

Lemma single_Class p : single input p (Class p) captures.
Proof. intros x c. reflexivity. Qed.

Lemma single_letter :
  single input letter (Capture 2 (Alt (Class lower) (Class upper)))
    (fun x => set_capture 2 (substring input (endIndex x) (S (endIndex x))) (captures x)).
Proof.
  intros x c. cbn [Regex.matcher]. unfold letter.
  destruct (input !! endIndex x) as [ch|]; [|done].
  cbn [endIndex captures].
  destruct (lower ch), (upper ch); cbn [orb]; try done.
  all: by destruct (c _).
Qed.

Lemma steps_plain n x : steps [] captures n x = MState (endIndex x + n) (captures x).
Proof.
  revert x. induction n as [|n IH]; intros [e cs].
  - cbn. f_equal. lia.
  - rewrite steps_S, IH. cbn. f_equal. lia.
Qed.

Lemma prefix_len_le p l : prefix_len p l <= length l.
Proof. induction l as [|c l IH]; cbn; [lia|]. destruct (p c); lia. Qed.

Lemma prefix_len_lookup p l k :
  k < prefix_len p l -> exists ch, l !! k = Some ch /\ p ch = true.
Proof.
  revert k. induction l as [|c l IH]; intros k; cbn; [lia|].
  destruct (p c) eqn:Hp; [|lia]. destruct k as [|k]; [eauto|].
  intros Hk. apply IH. lia.
Qed.

Lemma prefix_len_full_drop p l k :
  prefix_len p (drop k l) <> length (drop k l) ->
  forall j, j <= k -> prefix_len p (drop j l) <> length (drop j l).
Proof.
  revert k. induction l as [|c l IH]; intros k Hk j Hj.
  - by rewrite drop_nil in *.
  - destruct j as [|j].
    + rewrite drop_0. destruct k as [|k]; [by rewrite drop_0 in Hk|].
      cbn. destruct (p c); [|cbn; lia].
      cbn in Hk. specialize (IH k Hk 0%nat). rewrite drop_0 in IH. cbn. lia.
    + destruct k as [|k]; [lia|]. cbn in *. apply (IH k Hk). lia.
Qed.

Lemma prefix_len_app p a t :
  Forall (fun c => p c = true) a -> (forall c, head t = Some c -> p c = false) ->
  prefix_len p (a ++ t) = length a.
Proof.
  intros Ha Ht. induction Ha as [|c a Hc Ha IH]; cbn.
  - destruct t as [|c t]; [done|]. cbn. by rewrite (Ht c).
  - by rewrite Hc, IH.
Qed.

Lemma prefix_len_all p t :
  Forall (fun c => p c = true) t <-> prefix_len p t = length t.
Proof.
  induction t as [|c t IH]; cbn; [done|]. split.
  - intros H. inversion H as [|? ? Hc Ht]; subst. rewrite Hc. f_equal. by apply IH.
  - destruct (p c) eqn:Hc; [|done]. intros [= H]. constructor; [done|]. by apply IH.
Qed.

Lemma matcher_Seq r1 r2 x c :
  matcher (Seq r1 r2) x c = matcher r1 x (fun y => matcher r2 y c).
Proof. reflexivity. Qed.

Lemma matcher_Alt r1 r2 x c :
  matcher (Alt r1 r2) x c = first_of (matcher r1 x c) (matcher r2 x c).
Proof. reflexivity. Qed.

Lemma matcher_Capture n r x c :
  matcher (Capture n r) x c =
    matcher r x (fun y =>
      c (MState (endIndex y)
           (set_capture n (substring input (endIndex x) (endIndex y)) (captures y)))).
Proof. reflexivity. Qed.

Lemma matcher_Eol x c :
  matcher Eol x c = if Nat.eqb (endIndex x) (length input) then c x else None.
Proof. reflexivity. Qed.

Lemma matcher_Class p x c :
  matcher (Class p) x c =
    match rest x with
    | ch :: _ => if p ch then c (MState (S (endIndex x)) (captures x)) else None
    | [] => None
    end.
Proof.
  cbn [Regex.matcher]. unfold Regex.rest.
  destruct (input !! endIndex x) as [ch|] eqn:Hi.
  - by rewrite (drop_S _ _ _ Hi).
  - apply lookup_ge_None in Hi. by rewrite drop_ge by lia.
Qed.

Lemma substring_rest x n :
  substring input (endIndex x) (endIndex x + n) = take n (rest x).
Proof. unfold substring, Regex.rest. f_equal. lia. Qed.

(** [.*$] succeeds exactly when no line terminator is left. *)
Lemma tail_spec x c : endIndex x <= length input ->
  matcher (Seq (Star (Class dot)) Eol) x c =
    if bool_decide (prefix_len dot (rest x) = length (rest x))
    then c (MState (length input) (captures x)) else None.
Proof.
  intros Hx. rewrite matcher_Seq. unfold Star.
  pose proof (prefix_len_le dot (rest x)) as Hle. rewrite length_rest in Hle.
  rewrite (quant_greedy dot (Class dot) captures _ (single_Class dot)
             (prefix_len dot (rest x)) 0 None x); cbn [top_of groups].
  - cbn [Nat.leb]. rewrite steps_plain, matcher_Eol. cbn [endIndex].
    rewrite length_rest.
    case_bool_decide as H.
    + replace (endIndex x + prefix_len dot (rest x))%nat with (length input) by lia.
      by rewrite Nat.eqb_refl.
    + replace (Nat.eqb _ _) with false; [done|]. symmetry. apply Nat.eqb_neq. lia.
  - done.
  - done.
  - intros k Hk _. rewrite steps_plain, matcher_Eol. cbn [endIndex].
    replace (Nat.eqb _ _) with false; [done|]. symmetry. apply Nat.eqb_neq. lia.
Qed.

(** [([A-Za-z0-9]+).*$]: the identifier is the whole alphanumeric run. *)
Lemma id_tail_spec x : endIndex x <= length input ->
  matcher (Seq re_id (Seq (Star (Class dot)) Eol)) x Some =
    match id_of (rest x) with
    | Some i => Some (MState (length input) (set_capture 4 i (captures x)))
    | None => None
    end.
Proof.
  intros Hx. rewrite matcher_Seq. unfold re_id. rewrite matcher_Capture. unfold Plus.
  pose proof (prefix_len_le alnum (rest x)) as Hle. rewrite length_rest in Hle.
  rewrite (quant_greedy alnum (Class alnum) captures _ (single_Class alnum)
             (prefix_len alnum (rest x)) 1 None x); cbn [top_of groups].
  - unfold id_of. destruct (Nat.leb 1 (prefix_len alnum (rest x))); [|done].
    rewrite steps_plain. cbn [endIndex captures andb].
    rewrite tail_spec by (cbn; lia). rewrite rest_drop, substring_rest.
    cbn [captures]. by case_bool_decide.
  - done.
  - done.
  - intros k Hk. rewrite !steps_plain. cbn [endIndex captures].
    rewrite !tail_spec by (cbn; lia). rewrite !rest_drop.
    case_bool_decide as H1; [done|]. intros _.
    rewrite bool_decide_eq_false_2; [done|].
    unfold Regex.rest in *. rewrite drop_drop in *.
    eapply prefix_len_full_drop; [exact H1|lia].
Qed.

Lemma strip_take l s t : strip l s = Some t -> take (length l) s = l.
Proof. unfold strip. by case_bool_decide. Qed.

Lemma strip_kind_Some s k t :
  strip_kind s = Some (k, t) -> kind_word k /\ strip k s = Some t.
Proof.
  unfold strip_kind.
  destruct (strip (lit "album") s) eqn:Ha; [intros [= <- <-]; split; [constructor|done]|].
  destruct (strip (lit "playlist") s) eqn:Hp; [intros [= <- <-]; split; [constructor|done]|].
  destruct (strip (lit "track") s) eqn:Ht; [intros [= <- <-]; split; [constructor|done]|].
  done.
Qed.

Lemma strip_kind_app k t : kind_word k -> strip_kind (k ++ t) = Some (k, t).
Proof. intros []; reflexivity. Qed.

(** The three kinds start with different letters, so at most one of the
    alternatives applies. *)
Lemma kind_spec x c :
  matcher re_kind x c =
    match strip_kind (rest x) with
    | Some (k, _) => c (MState (endIndex x + length k) (set_capture 3 k (captures x)))
    | None => None
    end.
Proof.
  unfold re_kind. rewrite matcher_Capture, !matcher_Alt, !matcher_Chars.
  cbn [endIndex captures]. rewrite !substring_rest. unfold strip_kind.
  destruct (strip (lit "album") (rest x)) as [t|] eqn:Ha.
  { rewrite (strip_take _ _ _ Ha). apply strip_Some in Ha as [Ha _]. rewrite Ha.
    cbn. by destruct (c _). }
  destruct (strip (lit "playlist") (rest x)) as [t|] eqn:Hp.
  { rewrite (strip_take _ _ _ Hp). apply strip_Some in Hp as [Hp _]. rewrite Hp.
    cbn. by destruct (c _). }
  destruct (strip (lit "track") (rest x)) as [t|] eqn:Ht; [|done].
  by rewrite (strip_take _ _ _ Ht).
Qed.

Lemma after_prefix_spec x :
  matcher re_after_prefix x Some =
    match link_tail (rest x) with
    | Some (k, i) =>
        Some (MState (length input) (set_capture 4 i (set_capture 3 k (captures x))))
    | None => None
    end.
Proof.
  unfold re_after_prefix. rewrite matcher_Seq, kind_spec. unfold link_tail.
  destruct (strip_kind (rest x)) as [[k t]|] eqn:Hk; [|done].
  apply strip_kind_Some in Hk as [_ Hk]. apply strip_Some in Hk as [_ Hk].
  rewrite matcher_Seq, matcher_Class, rest_drop, <- Hk.
  destruct t as [|sep t]; [done|]. cbn [endIndex captures].
  destruct (slash_or_colon sep); [|done].
  assert (rest (MState (S (endIndex x + length k)) (set_capture 3 k (captures x))) = t) as Ht.
  { replace (S (endIndex x + length k)) with (endIndex x + (length k + 1))%nat by lia.
    rewrite rest_drop, <- drop_drop, <- Hk. done. }
  assert (length (sep :: t) = length input - endIndex x - length k)%nat as Hl.
  { rewrite Hk, length_drop, length_rest. done. }
  rewrite id_tail_spec by (cbn in *; lia). rewrite Ht. cbn [captures].
  by destruct (id_of t).
Qed.

Lemma after_prefix_obs x :
  obs <$> matcher re_after_prefix x Some = pair_of (link_tail (rest x)).
Proof. rewrite after_prefix_spec. by destruct (link_tail (rest x)) as [[k i]|]. Qed.

Lemma obs_first_of (a b : option mstate) :
  obs <$> first_of a b = first_of (obs <$> a) (obs <$> b).
Proof. by destruct a. Qed.

Lemma pair_of_first_of a b : pair_of (first_of a b) = first_of (pair_of a) (pair_of b).
Proof. by destruct a as [[? ?]|]. Qed.

Lemma opt_unfold r x K :
  matcher (Opt r) x K =
    first_of
      (matcher r (MState (endIndex x) (clear_captures (groups r) (captures x)))
         (fun y => if Nat.eqb (endIndex y) (endIndex x) then None else K y))
      (K x).
Proof.
  unfold Opt. rewrite quant_unfold. cbv zeta. cbn [Nat.eqb andb pred_max Nat.pred].
  erewrite matcher_ext; [reflexivity|]. intros y _. cbn beta.
  destruct (Nat.eqb (endIndex y) (endIndex x)); [done|]. by rewrite quant_unfold.
Qed.

Lemma rest_same x c : rest (MState (endIndex x) c) = rest x.
Proof. reflexivity. Qed.

Lemma rest_at y x n : endIndex y = (endIndex x + n)%nat -> rest y = drop n (rest x).
Proof. intros H. unfold Regex.rest. by rewrite H, drop_drop. Qed.

Lemma strip_slash_class p l k :
  p 47%N = false -> k < prefix_len p l -> strip (lit "/") (drop k l) = None.
Proof.
  intros Hp Hk. apply prefix_len_lookup in Hk as (ch & Hl & Hch).
  rewrite (drop_S _ _ _ Hl). change (lit "/") with [47%N].
  apply strip_head_ne. intros <-. congruence.
Qed.

(** A quantified one-unit pattern in front of [/] stops where the run of
    units stops. *)
Lemma class_then_slash p r f min max x d :
  single input p r f -> le_max min max -> p 47%N = false ->
  matcher (Quant min max r) x (fun y => matcher (Chars (lit "/")) y d) =
    let n := top_of max (prefix_len p (rest x)) in
    if Nat.leb min n then
      match strip (lit "/") (drop n (rest x)) with
      | Some _ => d (MState (endIndex x + n + 1) (captures (steps (groups r) f n x)))
      | None => None
      end
    else None.
Proof.
  intros Hr Hle Hp. cbv zeta.
  rewrite (quant_greedy p r f _ Hr (prefix_len p (rest x)) min max x Hle eq_refl).
  - destruct (Nat.leb _ _); [|done]. rewrite matcher_Chars.
    rewrite (rest_at _ x (top_of max (prefix_len p (rest x)))) by apply endIndex_steps.
    by rewrite endIndex_steps.
  - intros k Hk _. rewrite matcher_Chars.
    rewrite (rest_at _ x k) by apply endIndex_steps.
    rewrite (strip_slash_class p); [done|done|].
    destruct max as [m|]; cbn [top_of] in Hk; lia.
Qed.

Lemma user_obs K F x :
  (forall y, obs <$> K y = pair_of (F (rest y))) ->
  obs <$> matcher re_user x K =
    pair_of (match strip_user (rest x) with
             | Some t => first_of (F t) (F (rest x))
             | None => F (rest x)
             end).
Proof.
  intros HK. unfold re_user. rewrite opt_unfold, obs_first_of, (HK x).
  rewrite matcher_Seq, matcher_Chars. cbn [endIndex captures groups app].
  unfold strip_user. rewrite rest_same.
  destruct (strip (lit "user/") (rest x)) as [t|] eqn:Hs; [|done].
  apply strip_Some in Hs as [_ Hs].
  rewrite matcher_Seq. unfold Plus.
  rewrite (class_then_slash alnum (Class alnum) captures 1 None _ _ (single_Class alnum))
    by done.
  cbv zeta. cbn [top_of endIndex groups]. rewrite rest_drop, <- Hs.
  destruct (Nat.leb 1 (prefix_len alnum t)); [|done].
  destruct (strip (lit "/") (drop (prefix_len alnum t) t)) as [t'|] eqn:Hs'; [|done].
  apply strip_Some in Hs' as [_ Hs'].
  replace (Nat.eqb _ (endIndex x)) with false
    by (symmetry; apply Nat.eqb_neq; lia).
  rewrite HK, pair_of_first_of.
  rewrite (rest_at _ x (length (lit "user/") + prefix_len alnum t + 1)) by (cbn; lia).
  rewrite Hs', Hs, !drop_drop. done.
Qed.

Lemma locale_obs K F x :
  (forall y, obs <$> K y = pair_of (F (rest y))) ->
  obs <$> matcher re_locale x K =
    pair_of (match strip_locale (rest x) with
             | Some t => first_of (F t) (F (rest x))
             | None => F (rest x)
             end).
Proof.
  intros HK. unfold re_locale. rewrite opt_unfold, obs_first_of, (HK x).
  rewrite matcher_Capture, matcher_Seq, matcher_Chars. cbn [endIndex captures].
  unfold strip_locale. rewrite rest_same.
  destruct (strip (lit "intl-") (rest x)) as [t|] eqn:Hs; [|done].
  apply strip_Some in Hs as [_ Hs].
  rewrite matcher_Seq.
  rewrite (class_then_slash letter _ _ 0 (Some 3) _ _ single_letter)
    by (done || (cbn; lia)).
  cbv zeta. cbn [top_of endIndex Nat.leb]. rewrite rest_drop, <- Hs.
  destruct (strip (lit "/") (drop (Nat.min (prefix_len letter t) 3) t)) as [t'|] eqn:Hs'; [|done].
  apply strip_Some in Hs' as [_ Hs'].
  replace (Nat.eqb _ (endIndex x)) with false
    by (symmetry; apply Nat.eqb_neq; lia).
  rewrite HK, pair_of_first_of.
  rewrite (rest_at _ x (length (lit "intl-") + Nat.min (prefix_len letter t) 3 + 1))
    by (cbn; lia).
  rewrite Hs', Hs, !drop_drop. done.
Qed.

Lemma prefix_obs x :
  obs <$> matcher (Seq re_prefix re_after_prefix) x Some = pair_of (link_of (rest x)).
Proof.
  unfold re_prefix, link_of.
  rewrite matcher_Seq, matcher_Alt, obs_first_of, pair_of_first_of. f_equal.
  - rewrite !matcher_Seq, matcher_Chars.
    destruct (strip (lit "https://open.spotify.com/") (rest x)) as [t|] eqn:Hs; [|done].
    apply strip_Some in Hs as [_ Hs]. cbn beta. rewrite matcher_Seq.
    rewrite (locale_obs _ after_user).
    + rewrite rest_drop, <- Hs. done.
    + intros y. rewrite (user_obs _ link_tail); [done|]. apply after_prefix_obs.
  - rewrite matcher_Chars.
    destruct (strip (lit "spotify:") (rest x)) as [t|] eqn:Hs; [|done].
    apply strip_Some in Hs as [_ Hs].
    rewrite after_prefix_obs, rest_drop, <- Hs. done.
Qed.

(** [^] holds at index 0 only, so only the first start index can match. *)
Lemma exec_from_Bol r fuel i : 0 < i -> exec_from input (Seq Bol r) fuel i = None.
Proof.
  revert i. induction fuel as [|fuel IH]; intros i Hi; cbn [exec_from];
    rewrite matcher_Seq; cbn [Regex.matcher endIndex];
    destruct i as [|i]; try lia; cbn [Nat.eqb]; [done|].
  apply IH. lia.
Qed.

Lemma exec_from_0 r fuel :
  exec_from input (Seq Bol r) fuel 0 =
    match matcher r (MState 0 no_captures) Some with
    | Some y => Some (0%nat, y)
    | None => None
    end.
Proof.
  destruct fuel as [|fuel]; cbn [exec_from]; rewrite matcher_Seq;
    cbn [Regex.matcher endIndex Nat.eqb];
    destruct (matcher r (MState 0 no_captures) Some); try done.
  apply exec_from_Bol. lia.
Qed.

End Facts.

(** [parse] reads the pattern as [link_of] does. *)
Lemma parse_link_of q :
  parse q = match link_of q with
            | Some (k, i) => (Some k, Some i)
            | None => (None, None)
            end.
Proof.
  unfold parse, exec, re. rewrite exec_from_0.
  pose proof (prefix_obs q (MState 0 no_captures)) as H.
  change (rest q (MState 0 no_captures)) with (drop 0 q) in H. rewrite drop_0 in H.
  destruct (matcher q (Seq re_prefix re_after_prefix) (MState 0 no_captures) Some) as [y|];
    destruct (link_of q) as [[k i]|]; cbn in H; try done.
  injection H as H3 H4. by rewrite <- H3, <- H4.
Qed.

(** ** [link_of] recognises [Link] *)

Lemma prefix_len_take p l : Forall (fun c => p c = true) (take (prefix_len p l) l).
Proof.
  induction l as [|c l IH]; cbn; [constructor|].
  destruct (p c) eqn:Hc; cbn; [by constructor|constructor].
Qed.

Lemma prefix_len_take_le p l m :
  m <= prefix_len p l -> Forall (fun c => p c = true) (take m l).
Proof.
  intros Hm. pose proof (prefix_len_take p l) as H.
  rewrite <- (Nat.min_l _ _ Hm), <- take_take. by apply Forall_take.
Qed.

Lemma prefix_len_drop_head p l c :
  head (drop (prefix_len p l) l) = Some c -> p c = false.
Proof.
  induction l as [|c' l IH]; cbn; [done|].
  destruct (p c') eqn:Hc; cbn; [done|]. by intros [= <-].
Qed.

Lemma id_of_Some t i :
  id_of t = Some i ->
  exists tl, t = i ++ tl /\ is_id i /\ (forall c, head tl = Some c -> alnum c = false) /\
             Forall (fun c => dot c = true) tl.
Proof.
  unfold id_of. cbv zeta.
  destruct (Nat.leb_spec 1 (prefix_len alnum t)) as [Hn|]; [|done]. cbn [andb].
  case_bool_decide as Hd; [|done]. intros [= <-].
  exists (drop (prefix_len alnum t) t). split; [by rewrite take_drop|].
  split; [split|split].
  - intros H. apply (f_equal length) in H. rewrite length_take in H.
    pose proof (prefix_len_le alnum t). cbn in H. lia.
  - apply prefix_len_take.
  - apply prefix_len_drop_head.
  - by apply prefix_len_all.
Qed.

Lemma id_of_app i tl :
  is_id i -> (forall c, head tl = Some c -> alnum c = false) ->
  Forall (fun c => dot c = true) tl ->
  id_of (i ++ tl) = Some i.
Proof.
  intros [Hne Hi] Hh Hd. unfold id_of. cbv zeta.
  rewrite (prefix_len_app alnum i tl Hi Hh), drop_app_length, take_app_length.
  apply prefix_len_all in Hd.
  rewrite bool_decide_eq_true_2 by done.
  destruct i; [done|]. done.
Qed.

Lemma link_tail_Some s k i :
  link_tail s = Some (k, i) ->
  exists sep tl,
    s = k ++ sep :: i ++ tl /\ kind_word k /\ slash_or_colon sep = true /\ is_id i /\
    (forall c, head tl = Some c -> alnum c = false) /\ Forall (fun c => dot c = true) tl.
Proof.
  unfold link_tail.
  destruct (strip_kind s) as [[k' [|sep t]]|] eqn:Hk; [done| |done].
  destruct (slash_or_colon sep) eqn:Hsep; [|done].
  destruct (id_of t) as [i'|] eqn:Hi; [|done]. intros [= <- <-].
  apply strip_kind_Some in Hk as [Hkw Hk]. apply strip_Some in Hk as [Hs _].
  apply id_of_Some in Hi as (tl & -> & Hid & Hh & Hd).
  exists sep, tl. done.
Qed.

Lemma link_tail_app k sep i tl :
  kind_word k -> slash_or_colon sep = true -> is_id i ->
  (forall c, head tl = Some c -> alnum c = false) -> Forall (fun c => dot c = true) tl ->
  link_tail (k ++ sep :: i ++ tl) = Some (k, i).
Proof.
  intros Hk Hsep Hi Hh Hd. unfold link_tail.
  rewrite (strip_kind_app _ _ Hk), Hsep, (id_of_app _ _ Hi Hh Hd). done.
Qed.

Lemma strip_user_Some s t :
  strip_user s = Some t -> exists usr, user_part usr /\ usr <> [] /\ s = usr ++ t.
Proof.
  unfold strip_user. destruct (strip (lit "user/") s) as [t1|] eqn:H1; [|done].
  cbv zeta. destruct (Nat.leb_spec 1 (prefix_len alnum t1)) as [Hn|]; [|done].
  intros H2. apply strip_Some in H1 as [-> _]. apply strip_Some in H2 as [H2 _].
  exists (lit "user/" ++ take (prefix_len alnum t1) t1 ++ lit "/"). split; [|split].
  - constructor. split; [|apply prefix_len_take].
    intros H. apply (f_equal length) in H. rewrite length_take in H.
    pose proof (prefix_len_le alnum t1). cbn in H. lia.
  - done.
  - rewrite <- !app_assoc. f_equal. rewrite <- H2. by rewrite take_drop.
Qed.

Lemma strip_user_app name t :
  is_id name -> strip_user (lit "user/" ++ name ++ lit "/" ++ t) = Some t.
Proof.
  intros [Hne Hn]. unfold strip_user. rewrite strip_app. cbv zeta.
  rewrite (prefix_len_app alnum name _ Hn) by (by intros c [= <-]).
  rewrite drop_app_length, strip_app. by destruct name.
Qed.

Lemma strip_locale_Some s t :
  strip_locale s = Some t -> exists loc, locale_part loc /\ loc <> [] /\ s = loc ++ t.
Proof.
  unfold strip_locale. destruct (strip (lit "intl-") s) as [t1|] eqn:H1; [|done].
  intros H2. apply strip_Some in H1 as [-> _]. apply strip_Some in H2 as [H2 _].
  exists (lit "intl-" ++ take (Nat.min (prefix_len letter t1) 3) t1 ++ lit "/").
  split; [|split].
  - constructor.
    + rewrite length_take. lia.
    + apply prefix_len_take_le. lia.
  - done.
  - rewrite <- !app_assoc. f_equal. rewrite <- H2. by rewrite take_drop.
Qed.

Lemma strip_locale_app ls t :
  length ls <= 3 -> Forall (fun c => letter c = true) ls ->
  strip_locale (lit "intl-" ++ ls ++ lit "/" ++ t) = Some t.
Proof.
  intros Hl Hls. unfold strip_locale. rewrite strip_app.
  rewrite (prefix_len_app letter ls _ Hls) by (by intros c [= <-]).
  rewrite Nat.min_l by done. by rewrite drop_app_length, strip_app.
Qed.

Lemma after_user_Some s k i :
  after_user s = Some (k, i) ->
  exists usr t, user_part usr /\ s = usr ++ t /\ link_tail t = Some (k, i).
Proof.
  unfold after_user. destruct (strip_user s) as [t|] eqn:Hu.
  - destruct (link_tail t) as [o|] eqn:Ht; cbn [first_of].
    + intros [= ->]. apply strip_user_Some in Hu as (usr & Husr & _ & ->). eauto.
    + intros H. exists [], s. split; [constructor|done].
  - intros H. exists [], s. split; [constructor|done].
Qed.

Lemma after_locale_Some s k i :
  after_locale s = Some (k, i) ->
  exists loc usr t,
    locale_part loc /\ user_part usr /\ s = loc ++ usr ++ t /\ link_tail t = Some (k, i).
Proof.
  unfold after_locale. destruct (strip_locale s) as [t|] eqn:Hl.
  - destruct (after_user t) as [o|] eqn:Ht; cbn [first_of].
    + intros [= ->]. apply strip_locale_Some in Hl as (loc & Hloc & _ & ->).
      apply after_user_Some in Ht as (usr & t' & Husr & -> & Ht'). eauto 10.
    + intros H. apply after_user_Some in H as (usr & t' & Husr & -> & Ht').
      exists [], usr, t'. split; [constructor|done].
  - intros H. apply after_user_Some in H as (usr & t' & Husr & -> & Ht').
    exists [], usr, t'. split; [constructor|done].
Qed.

Lemma link_of_Some q k i : link_of q = Some (k, i) -> Link k i q.
Proof.
  unfold link_of.
  destruct (strip (lit "https://open.spotify.com/") q) as [t|] eqn:Hh.
  - destruct (after_locale t) as [o|] eqn:Ht; cbn [first_of].
    + intros [= ->]. apply strip_Some in Hh as [-> _].
      apply after_locale_Some in Ht as (loc & usr & t' & Hloc & Husr & -> & Ht').
      apply link_tail_Some in Ht' as (sep & tl & -> & Hk & Hsep & Hi & Hhd & Hd).
      rewrite !app_assoc. rewrite <- (app_assoc _ loc usr), <- (app_assoc _ k).
      by constructor; [constructor| | | | |].
    + apply strip_Some in Hh as [-> _]. cbn. done.
  - cbn [first_of]. destruct (strip (lit "spotify:") q) as [t|] eqn:Hs; [|done].
    intros Ht. apply strip_Some in Hs as [-> _].
    apply link_tail_Some in Ht as (sep & tl & -> & Hk & Hsep & Hi & Hhd & Hd).
    by constructor; [constructor| | | | |].
Qed.

Lemma after_user_app usr k sep i tl :
  user_part usr -> kind_word k -> slash_or_colon sep = true -> is_id i ->
  (forall c, head tl = Some c -> alnum c = false) -> Forall (fun c => dot c = true) tl ->
  after_user (usr ++ k ++ sep :: i ++ tl) = Some (k, i).
Proof.
  intros Hu Hk Hsep Hi Hh Hd. unfold after_user. destruct Hu as [|name Hname].
  - cbn [app]. rewrite (link_tail_app _ _ _ _ Hk Hsep Hi Hh Hd).
    assert (strip_user (k ++ sep :: i ++ tl) = None) as -> by (by destruct Hk). done.
  - rewrite <- !app_assoc, (strip_user_app _ _ Hname).
    by rewrite (link_tail_app _ _ _ _ Hk Hsep Hi Hh Hd).
Qed.

Lemma after_locale_app loc usr k sep i tl :
  locale_part loc -> user_part usr -> kind_word k -> slash_or_colon sep = true -> is_id i ->
  (forall c, head tl = Some c -> alnum c = false) -> Forall (fun c => dot c = true) tl ->
  after_locale (loc ++ usr ++ k ++ sep :: i ++ tl) = Some (k, i).
Proof.
  intros Hl Hu Hk Hsep Hi Hh Hd. unfold after_locale. destruct Hl as [|ls Hlen Hls].
  - cbn [app]. rewrite (after_user_app _ _ _ _ _ Hu Hk Hsep Hi Hh Hd).
    assert (strip_locale (usr ++ k ++ sep :: i ++ tl) = None) as ->; [|done].
    destruct Hu; [by destruct Hk|done].
  - rewrite <- !app_assoc, (strip_locale_app _ _ Hlen Hls).
    by rewrite (after_user_app _ _ _ _ _ Hu Hk Hsep Hi Hh Hd).
Qed.

Lemma link_of_Link q k i : Link k i q -> link_of q = Some (k, i).
Proof.
  intros [pre sep tl Hpre Hk Hsep Hi Hh Hd]. unfold link_of.
  destruct Hpre as [|loc usr Hloc Husr].
  - assert (strip (lit "https://open.spotify.com/")
              (lit "spotify:" ++ k ++ sep :: i ++ tl) = None) as -> by done.
    cbn [first_of]. by rewrite strip_app, (link_tail_app _ _ _ _ Hk Hsep Hi Hh Hd).
  - rewrite <- !app_assoc, strip_app.
    by rewrite (after_locale_app _ _ _ _ _ _ Hloc Husr Hk Hsep Hi Hh Hd).
Qed.

Lemma documented_Link k i q : documented k i q -> Link k i q.
Proof.
  intros [loc usr Hloc Husr Hk Hi|Hk Hi].
  - replace (lit "https://open.spotify.com/" ++ loc ++ usr ++ k ++ lit "/" ++ i)
      with ((lit "https://open.spotify.com/" ++ loc ++ usr) ++ k ++ 47%N :: i ++ [])
      by (rewrite <- !app_assoc, app_nil_r; done).
    constructor; try done.
    constructor; [|done]. destruct Hloc as [|a b Ha Hb]; constructor; [cbn; lia|].
    by repeat constructor.
  - replace (lit "spotify:" ++ k ++ lit ":" ++ i)
      with (lit "spotify:" ++ k ++ 58%N :: i ++ []) by (rewrite app_nil_r; done).
    constructor; try done. constructor.
Qed.

End RegexFacts.

(** * Facts about the extractor *)

Arguments lit : simpl never.

Section ExtractorFacts.

Context {World : Type} (env : Imports World).

Local Abbreviation M := (M World).
Local Abbreviation state := (state World).

Lemma make_track_run init pl (s : state) :
  make_track init pl s =
    (Ok (length (store s)),
     {| world := world s;
        store := store s ++ [OTrack (finish_track init pl (length (store s)))];
        trace := trace s |}).
Proof.
  unfold make_track, new_track, bind, alloc, update_track, ret, finish_track.
  cbn [store world trace].
  rewrite list_lookup_middle by done.
  destruct pl as [p|]; cbn [store world trace].
  - rewrite !(insert_app_r_alt _ _ (length (store s))) by lia.
    rewrite Nat.sub_diag. cbn [insert list_insert].
    rewrite list_lookup_middle by done. cbn [store world trace].
    rewrite !(insert_app_r_alt _ _ (length (store s))) by lia.
    rewrite Nat.sub_diag. done.
  - rewrite !(insert_app_r_alt _ _ (length (store s))) by lia.
    rewrite Nat.sub_diag. done.
Qed.

Lemma make_tracks_run {A} (init : A -> loc -> Track.t) pl ds (s : state) :
  mapM (fun d => make_track (init d) pl) ds s =
    (Ok (seq (length (store s)) (length ds)),
     {| world := world s;
        store := store s
                 ++ imap (fun i d => OTrack (finish_track (init d) pl (length (store s) + i))) ds;
        trace := trace s |}).
Proof.
  revert s. induction ds as [|d ds IH]; intros s.
  - cbn. rewrite app_nil_r. by destruct s.
  - cbn [mapM]. unfold bind at 1. rewrite make_track_run.
    unfold bind at 1. rewrite IH. cbn [store world trace ret length seq imap].
    rewrite length_app, <- app_assoc. cbn [length app].
    rewrite Nat.add_0_r, Nat.add_1_r. do 4 f_equal.
    apply imap_ext. intros i x _. cbn. do 2 f_equal. lia.
Qed.

Lemma build_list_run {A} pinit (tinit : loc -> A -> loc -> Track.t) ds (s : state) :
  build_list pinit tinit ds s =
    (Ok (list_info (store s) (length ds)),
     {| world := world s; store := list_store (store s) pinit tinit ds; trace := trace s |}).
Proof.
  unfold build_list. unfold bind at 1. cbn [alloc store world trace].
  unfold bind at 1. cbn [alloc store world trace].
  unfold bind at 1. rewrite make_tracks_run. cbn [store world trace].
  unfold bind at 1. cbn [alloc store world trace].
  unfold bind at 1. unfold update_playlist. cbn [store world trace ret].
  rewrite !length_app. cbn [length].
  set (n := length (store s)).
  replace (n + 1)%nat with (S n) by lia.
  rewrite <- !app_assoc. cbn [app].
  rewrite lookup_app_r by (fold n; lia). fold n.
  replace (S n - n)%nat with 1%nat by lia. cbn [lookup list_lookup].
  unfold ret, list_info, list_store. fold n. rewrite length_imap.
  f_equal; [f_equal; f_equal; lia|]. f_equal.
  replace (S n) with (length (store s) + 1)%nat at 1 by (fold n; lia).
  rewrite insert_app_r. cbn [insert list_insert]. cbn [app].
  replace (S n + 1)%nat with (n + 2)%nat by lia. done.
Qed.

Lemma scrape_run (ext : SpotifyExtractor World) q (s : state) :
  scrape ext q s =
    match _lib ext with
    | None =>
        (Throw (TypeError (lit "Cannot read properties of undefined (reading 'getData')")), s)
    | Some lib =>
        let (r, w) := getData lib q (world s) in
        (Ok (match r with Fulfilled o => o | Rejected _ => None end),
         {| world := w; store := store s; trace := trace s ++ [EvGetData q] |})
    end.
Proof.
  unfold scrape. destruct (_lib ext) as [lib|]; [|done].
  unfold catch_noop, try_catch, call.
  destruct (getData lib q (world s)) as [[o|r] w]; done.
Qed.

Lemma scraped_list_run (ext : SpotifyExtractor World) lib q ctx (s : state) :
  _lib ext = Some lib ->
  scraped_list ext q ctx s =
    match scraper_result lib q s with
    | (Some p, s2) =>
        built s2 (scraped_playlist_init q p)
          (item_track_init q (SearchContext.requestedBy ctx)) (Scraped.trackList p)
    | (None, s2) => empty_result s2
    end.
Proof.
  intros Hlib. unfold scraped_list. unfold bind at 1.
  rewrite scrape_run, Hlib. unfold scraper_result.
  destruct (getData lib q (world s)) as [[[p|]|r] w]; try done.
  by rewrite build_list_run.
Qed.

(** The [try]/[catch] of the playlist and album cases follows the two-tier
    policy. *)
Lemma list_case_two_tier (ext : SpotifyExtractor World) lib kind ev lookup q ctx (s : state) :
  _lib ext = Some lib ->
  try_catch (primary_list kind ev lookup q ctx) (scraped_list ext q ctx) s =
    two_tier kind ev lookup lib q ctx s.
Proof.
  intros Hlib. unfold try_catch, primary_list, two_tier, primary_result.
  destruct (parse q) as [qt id]. destruct (strict_eq kind qt); cbn [negb].
  - unfold bind at 1, call.
    destruct (lookup id (world s)) as [[[d|]|r] w]; cbn [throw].
    + by rewrite build_list_run.
    + by rewrite (scraped_list_run _ lib).
    + by rewrite (scraped_list_run _ lib).
  - cbn [throw]. by rewrite (scraped_list_run _ lib).
Qed.

Lemma handle_playlist (ext : SpotifyExtractor World) q ctx :
  SearchContext.type ctx = Some SPOTIFY_PLAYLIST ->
  handle env ext q ctx =
    try_catch (primary_list (lit "playlist") EvGetPlaylist (getPlaylist env) q ctx)
              (scraped_list ext q ctx).
Proof. intros H. unfold handle. by rewrite H. Qed.

Lemma handle_album (ext : SpotifyExtractor World) q ctx :
  SearchContext.type ctx = Some SPOTIFY_ALBUM ->
  handle env ext q ctx =
    try_catch (primary_list (lit "album") EvGetAlbum (getAlbum env) q ctx)
              (scraped_list ext q ctx).
Proof. intros H. unfold handle. by rewrite H. Qed.

Lemma handle_song (ext : SpotifyExtractor World) q ctx :
  SearchContext.type ctx = Some SPOTIFY_SONG ->
  handle env ext q ctx = scraped_song ext q ctx.
Proof. intros H. unfold handle. by rewrite H. Qed.

Lemma primary_list_found kind ev lookup q ctx (s : state) id d w :
  parse q = (Some kind, id) ->
  lookup id (world s) = (Fulfilled (Some d), w) ->
  primary_list kind ev lookup q ctx s =
    built {| world := w; store := store s; trace := trace s ++ [ev id] |}
      (api_playlist_init kind q d)
      (fun _ => api_track_init (SearchContext.requestedBy ctx)) (ApiList.tracks d).
Proof.
  intros Hparse Hlookup. unfold primary_list. rewrite Hparse.
  assert (strict_eq kind (Some kind) = true) as -> by (by apply strict_eq_true).
  cbn [negb]. unfold bind at 1, call. rewrite Hlookup.
  by rewrite build_list_run.
Qed.

End ExtractorFacts.

(** ** The store of a playlist *)

Section ListStore.

Context {A : Type} (h : heap) (pinit : loc -> Playlist.t)
  (tinit : loc -> A -> loc -> Track.t) (ds : list A).

Lemma list_store_playlist :
  list_store h pinit tinit ds !! S (length h) =
    Some (OPlaylist (Playlist.with_tracks (length h + 2 + length ds) (pinit (length h)))).
Proof.
  unfold list_store. rewrite lookup_app_r by lia.
  replace (S (length h) - length h)%nat with 1%nat by lia. done.
Qed.

Lemma list_store_track i d :
  ds !! i = Some d ->
  list_store h pinit tinit ds !! (length h + 2 + i)%nat =
    Some (OTrack (finish_track (tinit (S (length h)) d) (Some (S (length h)))
                    (length h + 2 + i))).
Proof.
  intros Hi. unfold list_store. rewrite lookup_app_r by lia.
  rewrite lookup_app_r by (cbn [length]; lia).
  apply lookup_app_l_Some. rewrite list_lookup_imap. cbn [length].
  replace (length h + 2 + i - length h - 2)%nat with i by lia.
  by rewrite Hi.
Qed.

Lemma list_store_array :
  list_store h pinit tinit ds !! (length h + 2 + length ds)%nat =
    Some (OArray (seq (length h + 2) (length ds))).
Proof.
  unfold list_store. rewrite lookup_app_r by lia.
  rewrite lookup_app_r by (cbn [length]; lia).
  rewrite lookup_app_r by (rewrite length_imap; cbn [length]; lia).
  rewrite length_imap. cbn [length].
  by replace (length h + 2 + length ds - length h - 2 - length ds)%nat with 0%nat by lia.
Qed.

End ListStore.

(** * The properties of the specification *)

(** ** Validation *)

(** Claim C10.  The result of [validate] does not depend on the query
    string: for any two queries and any type it is the same, and it is
    [true] exactly when the type is one of SPOTIFY_ALBUM,
    SPOTIFY_PLAYLIST, SPOTIFY_SONG, SPOTIFY_SEARCH, AUTO and
    AUTO_SEARCH. *)
Theorem validate_depends_on_type_only (q1 q2 : jsstring) (t : option SearchQueryType) :
  validate q1 t = validate q2 t /\
  (validate q1 t = true <->
     t = Some SPOTIFY_ALBUM \/ t = Some SPOTIFY_PLAYLIST \/ t = Some SPOTIFY_SONG \/
     t = Some SPOTIFY_SEARCH \/ t = Some AUTO \/ t = Some AUTO_SEARCH).
Proof.
  split; [reflexivity|]. unfold validate. cbn [existsb].
  rewrite !orb_true_iff, !strict_eq_true. intuition discriminate.
Qed.

(** ** Link parsing *)

Example parse_track :
  parse (lit "https://open.spotify.com/track/4uLU6hMCjMI75M1A2tKUQC?si=abc")
  = (Some (lit "track"), Some (lit "4uLU6hMCjMI75M1A2tKUQC")).
Proof. vm_compute. reflexivity. Qed.

Example parse_locale_user :
  parse (lit "https://open.spotify.com/intl-us/user/bob/playlist/abc123")
  = (Some (lit "playlist"), Some (lit "abc123")).
Proof. vm_compute. reflexivity. Qed.

Example parse_scheme :
  parse (lit "spotify:album:xyz") = (Some (lit "album"), Some (lit "xyz")).
Proof. vm_compute. reflexivity. Qed.

Example parse_other : parse (lit "not a url at all") = (None, None).
Proof. vm_compute. reflexivity. Qed.

Example parse_three_letter_locale :
  parse (lit "https://open.spotify.com/intl-usa/album/xyz")
  = (Some (lit "album"), Some (lit "xyz")).
Proof. vm_compute. reflexivity. Qed.

Example parse_four_letter_locale :
  parse (lit "https://open.spotify.com/intl-abcd/album/xyz") = (None, None).
Proof. vm_compute. reflexivity. Qed.

Example parse_scheme_slash :
  parse (lit "spotify:track/abc") = (Some (lit "track"), Some (lit "abc")).
Proof. vm_compute. reflexivity. Qed.

Example parse_line_break : parse (lit "spotify:track:abc" ++ [10%N]) = (None, None).
Proof. vm_compute. reflexivity. Qed.

(** Claim C3, as stated, fails: [https://open.spotify.com/track:abc] is
    none of the documented forms, not even followed by further text, and
    [parse] still reads a track link from it. *)
Lemma parse_accepts_undocumented_form :
  (forall kind id p tl,
     documented kind id p -> lit "https://open.spotify.com/track:abc" <> p ++ tl) /\
  parse (lit "https://open.spotify.com/track:abc") = (Some (lit "track"), Some (lit "abc")).
Proof.
  split; [|vm_compute; reflexivity].
  intros kind id p tl Hdoc Heq.
  destruct Hdoc as [loc usr Hloc Husr Hk Hi|Hk Hi]; [|destruct Hk; discriminate].
  destruct Hloc as [|a b Ha Hb]; [|discriminate].
  destruct Husr as [|name Hname]; [|discriminate].
  destruct Hk; discriminate.
Qed.

(** Claim C3, amended.  For every string of a documented form [parse]
    returns the kind and the identifier; in general it returns a pair
    exactly for the strings of the grammar [Link] (a locale of zero to
    three letters, [/] or [:] before the identifier after either prefix,
    any text without line terminators after the identifier), with the kind
    and the whole alphanumeric run as identifier, and the none variant for
    every other string. *)
Theorem parse_reads_links :
  (forall kind id q, documented kind id q -> parse q = (Some kind, Some id)) /\
  (forall q kind id, parse q = (Some kind, Some id) <-> Link kind id q) /\
  (forall q, parse q = (None, None) <-> ~ exists kind id, Link kind id q).
Proof.
  assert (forall q kind id, parse q = (Some kind, Some id) <-> Link kind id q) as Hiff.
  { intros q kind id. rewrite RegexFacts.parse_link_of. split.
    - destruct (link_of q) as [[k i]|] eqn:Hl; [|done].
      intros [= <- <-]. by apply RegexFacts.link_of_Some.
    - intros H. by rewrite (RegexFacts.link_of_Link _ _ _ H). }
  split; [|split; [exact Hiff|]].
  - intros kind id q Hdoc. apply Hiff. by apply RegexFacts.documented_Link.
  - intros q. split.
    + intros Hnone (kind & id & HL). apply Hiff in HL. congruence.
    + intros Hno. rewrite RegexFacts.parse_link_of.
      destruct (link_of q) as [[k i]|] eqn:Hl; [|done].
      exfalso. apply Hno. exists k, i. by apply RegexFacts.link_of_Some.
Qed.

(** The documented locale form, read through the theorem. *)
Lemma parse_reads_links_witness :
  parse (lit "https://open.spotify.com/intl-us/user/bob/playlist/abc123")
  = (Some (lit "playlist"), Some (lit "abc123")).
Proof.
  apply (proj1 parse_reads_links).
  apply (documented_https (lit "playlist") (lit "abc123")
           (lit "intl-" ++ [117%N; 115%N] ++ lit "/")
           (lit "user/" ++ lit "bob" ++ lit "/")).
  - by constructor.
  - constructor. split; [done|]. repeat constructor.
  - constructor.
  - split; [done|]. repeat constructor.
Defined.

(** ** Resolution *)

Section Resolution.

Context {World : Type} (env : Imports World).

Local Abbreviation state := (state World).

(** Claim C1 does not hold of the code.  With a bridge provider or a
    [createStream] function, [activate] returns before the scraper is
    created; a song query then reads [getData] off [undefined] and [handle]
    rejects with a [TypeError] instead of returning the empty structure. *)
Theorem handle_rejects_without_scraper (init : SpotifyExtractorInit World)
    (query : jsstring) (context : SearchContext.t) (s : state) :
  returns_early init = true ->
  SearchContext.type context = Some SPOTIFY_SONG ->
  fst (activate_then_handle env init query context s) =
    Throw (TypeError (lit "Cannot read properties of undefined (reading 'getData')")).
Proof.
  intros Hearly Hty. unfold activate_then_handle, bind, activate, returns_early in *.
  cbn [new_extractor options].
  destruct (bridgeProvider init) as [p|].
  - cbn [ret]. rewrite (handle_song env) by done.
    unfold scraped_song, bind. by rewrite scrape_run.
  - destruct (createStream init) as [fn|]; [|done].
    cbn [ret]. rewrite (handle_song env) by done.
    unfold scraped_song, bind. by rewrite scrape_run.
Qed.

(** The same defect on the playlist and album paths: when the primary
    lookup gives nothing, the [catch] block raises the [TypeError]. *)
Lemma list_case_rejects_without_scraper (ext : SpotifyExtractor World) kind ev lookup
    (query : jsstring) (context : SearchContext.t) (s : state) :
  _lib ext = None ->
  fst (primary_result kind ev lookup query s) = None ->
  fst (try_catch (primary_list kind ev lookup query context)
         (scraped_list ext query context) s) =
    Throw (TypeError (lit "Cannot read properties of undefined (reading 'getData')")).
Proof.
  intros Hlib. unfold try_catch, primary_list, primary_result, scraped_list.
  destruct (parse query) as [qt id]. destruct (strict_eq kind qt); cbn [negb throw].
  - unfold bind at 1, call.
    destruct (lookup id (world s)) as [[[d|]|r] w]; cbn [fst throw]; [done| |].
    all: intros _; unfold bind; by rewrite scrape_run, Hlib.
  - intros _. unfold bind. by rewrite scrape_run, Hlib.
Qed.

(** With the scraper in place and collaborators that answer, [handle]
    returns for every query type. *)
Lemma handle_returns (ext : SpotifyExtractor World) lib
    (query : jsstring) (context : SearchContext.t) (s : state) :
  _lib ext = Some lib ->
  (forall reason w, fst (search env query w) <> Rejected reason) ->
  exists info, fst (handle env ext query context s) = Ok info.
Proof.
  intros Hlib Hsearch. unfold handle. cbv zeta.
  destruct (_ || _ || _).
  { unfold search_tracks, bind, call. specialize (Hsearch).
    destruct (search env query (world s)) as [[[d|]|r] w] eqn:Hs.
    - rewrite make_tracks_run. cbn. eauto.
    - cbn. eauto.
    - exfalso. apply (Hsearch r (world s)). by rewrite Hs. }
  destruct (strict_eq SPOTIFY_SONG _).
  { unfold scraped_song, bind. rewrite scrape_run, Hlib.
    destruct (getData lib query (world s)) as [[[d|]|r] w]; cbn [fst].
    - rewrite make_track_run. cbn. eauto.
    - cbn. eauto.
    - cbn. eauto. }
  destruct (strict_eq SPOTIFY_PLAYLIST _).
  { rewrite (list_case_two_tier _ lib) by done. unfold two_tier.
    destruct (primary_result _ _ _ _ _) as [[d|] s1]; [cbn; eauto|].
    destruct (scraper_result _ _ _) as [[p|] s2]; cbn; eauto. }
  destruct (strict_eq SPOTIFY_ALBUM _).
  { rewrite (list_case_two_tier _ lib) by done. unfold two_tier.
    destruct (primary_result _ _ _ _ _) as [[d|] s1]; [cbn; eauto|].
    destruct (scraper_result _ _ _) as [[p|] s2]; cbn; eauto. }
  cbn. eauto.
Qed.

(** With the scraper in place, [handle] follows the two-tier policy for a
    playlist or album query: the primary lookup (parse, then getPlaylist
    or getAlbum) comes first; when it throws or gives nothing the scraper
    is asked with the query string as it was given; the empty result
    [{ playlist: null, tracks: [] }] is returned exactly when the scraper
    gave nothing either, and a payload of the scraper always becomes the
    result. *)
Theorem handle_list_two_tier (ext : SpotifyExtractor World) (lib : Spotify World)
    (query : jsstring) (context : SearchContext.t) (s : state)
    (kind : jsstring) (ev : option jsstring -> event)
    (lookup : option jsstring -> ask World (option ApiList.t)) :
  _lib ext = Some lib ->
  (SearchContext.type context = Some SPOTIFY_PLAYLIST /\ kind = lit "playlist" /\
     ev = EvGetPlaylist /\ lookup = getPlaylist env) \/
  (SearchContext.type context = Some SPOTIFY_ALBUM /\ kind = lit "album" /\
     ev = EvGetAlbum /\ lookup = getAlbum env) ->
  handle env ext query context s = two_tier kind ev lookup lib query context s /\
  (forall d s1, primary_result kind ev lookup query s = (Some d, s1) ->
     trace (snd (handle env ext query context s)) = trace s1) /\
  (forall s1, primary_result kind ev lookup query s = (None, s1) ->
     trace (snd (handle env ext query context s)) = trace s1 ++ [EvGetData query]) /\
  (forall s1 p s2, primary_result kind ev lookup query s = (None, s1) ->
     scraper_result lib query s1 = (Some p, s2) ->
     handle env ext query context s =
       built s2 (scraped_playlist_init query p)
         (item_track_init query (SearchContext.requestedBy context))
         (Scraped.trackList p)) /\
  (empty_structure (fst (handle env ext query context s))
     (store (snd (handle env ext query context s))) <->
   exists s1 s2, primary_result kind ev lookup query s = (None, s1) /\
                 scraper_result lib query s1 = (None, s2)).
Proof.
  intros Hlib Hcase.
  assert (handle env ext query context s = two_tier kind ev lookup lib query context s) as Heq.
  { destruct Hcase as [(Hty & -> & -> & ->)|(Hty & -> & -> & ->)].
    - rewrite (handle_playlist env) by done. by apply list_case_two_tier.
    - rewrite (handle_album env) by done. by apply list_case_two_tier. }
  rewrite Heq. unfold two_tier. split; [done|].
  destruct (primary_result kind ev lookup query s) as [[d|] s1] eqn:Hp.
  - split; [by intros ? ? [= <- <-]|]. split; [done|]. split; [done|].
    split; [by intros (a & Ha & _)|by intros (? & ? & ? & _)].
  - split; [done|].
    assert (trace (snd (scraper_result lib query s1)) = trace s1 ++ [EvGetData query]) as Htr.
    { unfold scraper_result. by destruct (getData lib query (world s1)) as [r w]. }
    destruct (scraper_result lib query s1) as [[p|] s2] eqn:Hs; cbn [snd] in Htr.
    + split; [|split; [|split]].
      * by intros ? [= <-].
      * intros ? ? ? [= <-] Hs'. rewrite Hs in Hs'. by injection Hs' as <- <-.
      * by intros (a & Ha & _).
      * intros (? & ? & [= <-] & Hs'). rewrite Hs in Hs'. discriminate.
    + split; [|split; [|split]].
      * by intros ? [= <-].
      * intros ? ? ? [= <-] Hs'. rewrite Hs in Hs'. discriminate.
      * intros _. eauto.
      * intros _. exists (length (store s2)). split; [done|]. cbn [snd store empty_result].
        by apply list_lookup_middle.
Qed.

End Resolution.

(** [activate] on the default path creates the stream function and the
    scraper. *)
Example activate_default :
  activate (Sample.imports None) (new_extractor Sample.plain_init) Sample.start =
  (Ok Sample.activated, {| world := tt; store := []; trace := [EvLoadYtdl] |}).
Proof. reflexivity. Qed.

(** With a bridge provider it leaves the extractor as it was. *)
Example activate_with_bridge :
  activate (Sample.imports None) (new_extractor Sample.bridge_init) Sample.start =
  (Ok (new_extractor Sample.bridge_init), Sample.start).
Proof. reflexivity. Qed.

(** The scenario of the specification for a search without results. *)
Example search_without_results :
  handle (Sample.imports None) Sample.activated (lit "not a url at all")
    (Sample.context SPOTIFY_SEARCH) Sample.start =
  (Ok {| info_playlist := None; info_tracks := 0 |},
   {| world := tt; store := [OArray []]; trace := [EvSearch (lit "not a url at all")] |}).
Proof. vm_compute. reflexivity. Qed.

(** A playlist link that the primary client resolves: one lookup, no
    scraper call, the playlist at 1 and the array of its two tracks at 4. *)
Example playlist_from_primary :
  let out := handle (Sample.imports (Some Sample.playlist)) Sample.activated
               Sample.playlist_link (Sample.context SPOTIFY_PLAYLIST) Sample.start in
  fst out = Ok {| info_playlist := Some 1; info_tracks := 4 |} /\
  trace (snd out) = [EvGetPlaylist (Some (lit "abc123"))] /\
  store (snd out) !! 4 = Some (OArray [2; 3]).
Proof. vm_compute. repeat split. Qed.

(** A bridge provider is configured and a song is asked for. *)
Lemma handle_rejects_without_scraper_witness :
  fst (activate_then_handle (Sample.imports None) Sample.bridge_init
         (lit "https://open.spotify.com/track/t1") (Sample.context SPOTIFY_SONG) Sample.start) =
    Throw (TypeError (lit "Cannot read properties of undefined (reading 'getData')")).
Proof.
  apply (handle_rejects_without_scraper (Sample.imports None) Sample.bridge_init);
    reflexivity.
Defined.

(** The primary client has no answer, the scraper has a playlist of one
    entry: the result is that playlist. *)
Lemma handle_list_two_tier_witness :
  handle (Sample.imports None) Sample.activated Sample.playlist_link
    (Sample.context SPOTIFY_PLAYLIST) Sample.start =
  (Ok {| info_playlist := Some 1; info_tracks := 3 |},
   {| world := tt;
      store := list_store [] (scraped_playlist_init Sample.playlist_link Sample.scraped)
                 (item_track_init Sample.playlist_link (Some (lit "alice")))
                 [Sample.item1];
      trace := [EvGetPlaylist (Some (lit "abc123")); EvGetData Sample.playlist_link] |}).
Proof.
  rewrite (proj1 (handle_list_two_tier (Sample.imports None) Sample.activated Sample.scraper
                    Sample.playlist_link (Sample.context SPOTIFY_PLAYLIST) Sample.start
                    (lit "playlist") EvGetPlaylist (getPlaylist (Sample.imports None))
                    eq_refl (or_introl (conj eq_refl (conj eq_refl (conj eq_refl eq_refl)))))).
  vm_compute. reflexivity.
Defined.

(** ** Normalisation *)

Section Normalisation.

Context {World : Type} (env : Imports World).

Local Abbreviation state := (state World).

(** Claim C5.  A playlist query that the primary client resolves with a
    payload of n tracks returns [{ playlist, tracks }] where [tracks] is
    the array object that [playlist.tracks] holds, [playlist.id] is the
    payload's id, [tracks] has the n tracks in the payload's order, and
    every track's [playlist] field refers to the one returned playlist. *)
Theorem primary_playlist_is_shared (ext : SpotifyExtractor World) (query : jsstring)
    (context : SearchContext.t) (s : state) (id : option jsstring) (d : ApiList.t) (w : World) :
  SearchContext.type context = Some SPOTIFY_PLAYLIST ->
  parse query = (Some (lit "playlist"), id) ->
  getPlaylist env id (world s) = (Fulfilled (Some d), w) ->
  playlist_of_payload (fst (handle env ext query context s))
    (store (snd (handle env ext query context s))) d.
Proof.
  intros Hty Hparse Hlookup. rewrite (handle_playlist env) by done.
  unfold try_catch.
  rewrite (primary_list_found _ _ _ _ _ _ _ _ _ Hparse Hlookup).
  unfold built. cbn [fst snd store world trace].
  set (h := store s). unfold playlist_of_payload, list_info.
  eexists _, _, _, _. split; [reflexivity|].
  split; [apply list_store_playlist|]. split; [reflexivity|]. split; [reflexivity|].
  split; [apply list_store_array|]. split; [apply length_seq|].
  intros i di Hi. eexists _, _.
  split; [apply lookup_seq_lt; by eapply lookup_lt_Some|].
  split; [by apply list_store_track|]. done.
Qed.


(** Claim C8.  In every normalisation path a missing artist gives the
    author ["Unknown Artist"] and a missing thumbnail gives the placeholder
    [https://www.scdn.co/i/_global/twitter_card-default.jpg].  The duration
    is the timecode of the payload's milliseconds ([duration], and for a
    scraped song [maxDuration] when [duration] is missing); the formatter
    is total and a missing value counts as 0.  Building a track never
    throws. *)
Theorem normalisation_fills_defaults (requestedBy : option jsstring) (query : jsstring)
    (context : SearchContext.t) (pl : option loc) (p self : loc)
    (a : ApiTrack.t) (d : Scraped.t) (m : ScrapedItem.t)
    (init : loc -> Track.t) (s : state) :
  let t1 := finish_track (api_track_init requestedBy a) pl self in
  let t2 := finish_track (song_track_init query context d) pl self in
  let t3 := finish_track (item_track_init query requestedBy p m) pl self in
  ((ApiTrack.artist a = None -> Track.author t1 = lit "Unknown Artist") /\
   (ApiTrack.thumbnail a = None ->
      Track.thumbnail t1 = lit "https://www.scdn.co/i/_global/twitter_card-default.jpg") /\
   Track.duration t1 = buildTimeCode (parseMS (ApiTrack.duration a)) /\
   (ApiTrack.duration a = None -> Track.duration t1 = buildTimeCode (parseMS (Some 0%Z)))) /\
  ((Scraped.first_artist d = None -> Track.author t2 = lit "Unknown Artist") /\
   (Scraped.cover_url d = None ->
      Track.thumbnail t2 = lit "https://www.scdn.co/i/_global/twitter_card-default.jpg") /\
   Track.duration t2 =
     buildTimeCode (parseMS (match Scraped.duration d with
                             | Some ms => Some ms
                             | None => Scraped.maxDuration d
                             end)) /\
   (Scraped.duration d = None -> Scraped.maxDuration d = None ->
      Track.duration t2 = buildTimeCode (parseMS (Some 0%Z)))) /\
  ((ScrapedItem.subtitle m = None -> Track.author t3 = lit "Unknown Artist") /\
   Track.thumbnail t3 = lit "https://www.scdn.co/i/_global/twitter_card-default.jpg" /\
   Track.duration t3 = buildTimeCode (parseMS (ScrapedItem.duration m)) /\
   (ScrapedItem.duration m = None -> Track.duration t3 = buildTimeCode (parseMS (Some 0%Z)))) /\
  (parseMS None = parseMS (Some 0%Z) /\ buildTimeCode (parseMS None) = lit "00:00") /\
  fst (make_track init pl s) = Ok (length (store s)).
Proof.
  cbv zeta. split; [|split; [|split; [|split]]].
  - unfold finish_track; destruct pl as [q|]; cbn;
      repeat split; try (by intros ->); by destruct (ApiTrack.duration a).
  - unfold finish_track; destruct pl as [q|]; cbn;
      repeat split; try (by intros ->); try (by intros -> ->);
      by destruct (Scraped.duration d), (Scraped.maxDuration d).
  - unfold finish_track; destruct pl as [q|]; cbn;
      repeat split; by intros ->.
  - split; [reflexivity|vm_compute; reflexivity].
  - by rewrite make_track_run.
Qed.

End Normalisation.

Example timecode_of_song : buildTimeCode (parseMS (Some 215000%Z)) = lit "03:35".
Proof. vm_compute. reflexivity. Qed.

Example timecode_of_hours : buildTimeCode (parseMS (Some 3723000%Z)) = lit "01:02:03".
Proof. vm_compute. reflexivity. Qed.

Example timecode_of_negative : buildTimeCode (parseMS (Some (-5)%Z)) = lit "00:00".
Proof. vm_compute. reflexivity. Qed.

(** The end-to-end scenario of the specification: a playlist link, and a
    primary client that answers with a playlist of two songs. *)
Lemma primary_playlist_is_shared_witness :
  playlist_of_payload
    (fst (handle (Sample.imports (Some Sample.playlist)) Sample.activated Sample.playlist_link
            (Sample.context SPOTIFY_PLAYLIST) Sample.start))
    (store (snd (handle (Sample.imports (Some Sample.playlist)) Sample.activated
                   Sample.playlist_link (Sample.context SPOTIFY_PLAYLIST) Sample.start)))
    Sample.playlist.
Proof.
  apply (primary_playlist_is_shared (Sample.imports (Some Sample.playlist)) Sample.activated
           Sample.playlist_link (Sample.context SPOTIFY_PLAYLIST) Sample.start
           (Some (lit "abc123")) Sample.playlist tt).
  - reflexivity.
  - vm_compute. reflexivity.
  - reflexivity.
Defined.



(** ** Deferred metadata and streaming *)

Section Streaming.

Context {World : Type} (env : Imports World).

Local Abbreviation state := (state World).

Lemma read_track_run l t (s : state) :
  store s !! l = Some (OTrack t) -> read_track l s = (Ok t, s).
Proof. intros H. unfold read_track. by rewrite H. Qed.

Lemma update_track_run l f t (s : state) :
  store s !! l = Some (OTrack t) ->
  update_track l f s =
    (Ok tt, {| world := world s; store := <[l := OTrack (f t)]> (store s); trace := trace s |}).
Proof. intros H. unfold update_track. by rewrite H. Qed.

Lemma keeps_insert p l h t t' :
  h !! l = Some (OTrack t) -> metadata_source t' = Some p ->
  Track.requestMetadata t' = Resolver p l ->
  keeps p l (<[l := OTrack t']> h).
Proof.
  intros Hl Hs Hr. exists t'. split; [|done].
  apply list_lookup_insert_eq. by eapply lookup_lt_Some.
Qed.

Lemma requestMetadata_keeps (ext : SpotifyExtractor World) p l (s : state) :
  keeps p l (store s) ->
  keeps p l (store (snd (requestMetadata env ext l s))) /\
  forall m, fst (requestMetadata env ext l s) = Ok m -> Metadata.source m = Some p.
Proof.
  intros (t & Hl & Hsrc & Hres).
  destruct (requestMetadata env ext l s) as [r0 s'] eqn:Hrun. cbn [fst snd].
  revert Hrun. unfold requestMetadata.
  unfold bind at 1. rewrite (read_track_run _ _ _ Hl).
  unfold bind at 1. unfold run_resolver. rewrite Hres. cbn [captured_track captured_source].
  unfold bind at 1. rewrite (read_track_run _ _ _ Hl).
  unfold bind at 1.
  destruct (bridgeProvider (options ext)) as [provider|].
  - unfold bind at 1, call.
    destruct (resolve provider t (world s)) as [[[r|]|reason] w]; cbn [throw ret].
    + unfold bind at 1, setMetadata.
      erewrite update_track_run by exact Hl. cbn [ret].
      intros [= <- <-]. cbn [store].
      split; [by eapply keeps_insert|]. by intros m [= <-].
    + intros [= <- <-]. split; [by exists t|done].
    + intros [= <- <-]. split; [by exists t|done].
  - unfold bind at 1, call.
    destruct (pullYTMetadata env t (world s)) as [[meta|reason] w]; cbn [throw ret].
    + unfold bind at 1, setMetadata.
      erewrite update_track_run by exact Hl. cbn [ret].
      intros [= <- <-]. cbn [store].
      split; [by eapply keeps_insert|]. by intros m [= <-].
    + intros [= <- <-]. split; [by exists t|done].
Qed.

Lemma requestMetadata_returns (ext : SpotifyExtractor World) p l t (s : state) :
  store s !! l = Some (OTrack t) ->
  Track.requestMetadata t = Resolver p l ->
  answers env ext t (world s) = true ->
  exists b, fst (requestMetadata env ext l s) = Ok (Metadata.Build (Some p) b).
Proof.
  intros Hl Hres. unfold answers, requestMetadata.
  unfold bind at 1. rewrite (read_track_run _ _ _ Hl).
  unfold bind at 1. unfold run_resolver. rewrite Hres. cbn [captured_track captured_source].
  unfold bind at 1. rewrite (read_track_run _ _ _ Hl).
  unfold bind at 1.
  destruct (bridgeProvider (options ext)) as [provider|].
  - unfold bind at 1, call.
    destruct (resolve provider t (world s)) as [[[r|]|reason] w]; cbn [fst]; try done.
    intros _. cbn [ret]. unfold bind at 1, setMetadata.
    erewrite update_track_run by exact Hl. cbn. eauto.
  - unfold bind at 1, call.
    destruct (pullYTMetadata env t (world s)) as [[meta|reason] w]; cbn [fst]; try done.
    intros _. cbn [ret]. unfold bind at 1, setMetadata.
    erewrite update_track_run by exact Hl. cbn. eauto.
Qed.

Lemma repeat_request_keeps (ext : SpotifyExtractor World) p l n : forall s : state,
  keeps p l (store s) ->
  Forall (fun r => forall m, r = Ok m -> Metadata.source m = Some p)
    (fst (repeat_request env ext l n s)) /\
  keeps p l (store (snd (repeat_request env ext l n s))).
Proof.
  induction n as [|n IH]; intros s Hk; cbn [repeat_request].
  - split; [constructor|done].
  - destruct (requestMetadata_keeps ext p l s Hk) as [Hk1 Hm].
    destruct (requestMetadata env ext l s) as [r s1]. cbn [fst snd] in *.
    destruct (IH s1 Hk1) as [Hrs Hk2].
    destruct (repeat_request env ext l n s1) as [rs s2]. cbn [fst snd] in *.
    split; [by constructor|done].
Qed.

(** *** What [handle] adds to the store *)

Lemma adds_ret {A} (a : A) : adds_created (ret (World := World) a).
Proof. by intros n s H. Qed.

Lemma adds_throw {A} e : adds_created (throw (World := World) (A := A) e).
Proof. by intros n s H. Qed.

Lemma adds_bind {A B} (m : M World A) (k : A -> M World B) :
  adds_created m -> (forall a, adds_created (k a)) -> adds_created (bind m k).
Proof.
  intros Hm Hk n s H. unfold bind. specialize (Hm n s H).
  destruct (m s) as [[a|e] s1]; cbn [snd] in *; [by apply Hk|done].
Qed.

Lemma adds_try_catch {A} (m h : M World A) :
  adds_created m -> adds_created h -> adds_created (try_catch m h).
Proof.
  intros Hm Hh n s H. unfold try_catch. specialize (Hm n s H).
  destruct (m s) as [[a|e] s1]; cbn [snd] in *; [done|by apply Hh].
Qed.

Lemma adds_call {A} ev (f : ask World A) : adds_created (call ev f).
Proof.
  intros n s H. unfold call. by destruct (f (world s)) as [[a|r] w].
Qed.

Lemma all_created_snoc n h o :
  all_created_from n h ->
  (forall t, o = OTrack t -> created (length h) t) ->
  all_created_from n (h ++ [o]).
Proof.
  intros H Ho l t Hn Hl. apply lookup_app_Some in Hl as [Hl|[Hlen Hl]]; [by apply H|].
  destruct (l - length h)%nat as [|?] eqn:Hd; [|done]. injection Hl as ->.
  replace l with (length h) by lia. by apply Ho.
Qed.

Lemma adds_alloc o : (forall t, o <> OTrack t) -> adds_created (alloc (World := World) o).
Proof.
  intros Ho n s H. unfold alloc. cbn [snd store].
  apply all_created_snoc; [done|]. intros t ->. by destruct (Ho t).
Qed.

Lemma adds_make_track init pl :
  (forall self, created self (finish_track init pl self)) ->
  adds_created (make_track (World := World) init pl).
Proof.
  intros Hinit n s H. rewrite make_track_run. cbn [snd store].
  apply all_created_snoc; [done|]. intros t [= <-]. apply Hinit.
Qed.

Lemma adds_mapM {A B} (f : A -> M World B) l :
  (forall a, adds_created (f a)) -> adds_created (mapM f l).
Proof.
  intros Hf. induction l as [|a l IH]; cbn [mapM]; [apply adds_ret|].
  apply adds_bind; [done|]. intros b. apply adds_bind; [done|]. intros bs. apply adds_ret.
Qed.

Lemma adds_update_playlist l f : adds_created (update_playlist (World := World) l f).
Proof.
  intros n s H. unfold update_playlist.
  destruct (store s !! l) as [[t|p|a]|] eqn:Hl; cbn [snd store]; try done.
  intros l' t' Hn Hl'. destruct (decide (l = l')) as [<-|Hne].
  - rewrite list_lookup_insert_eq in Hl' by (by eapply lookup_lt_Some). done.
  - rewrite list_lookup_insert_ne in Hl' by done. by apply H.
Qed.

Lemma adds_scrape (ext : SpotifyExtractor World) q : adds_created (scrape ext q).
Proof.
  unfold scrape. destruct (_lib ext); [|apply adds_throw].
  apply adds_try_catch; [apply adds_call|apply adds_ret].
Qed.

Lemma adds_empty_info : adds_created (empty_info (World := World)).
Proof. apply adds_bind; [by apply adds_alloc|]. intros a. apply adds_ret. Qed.

Lemma created_finish init pl p self :
  Track.metadata (init self) = Some (Metadata.Build (Some p) None) ->
  Track.requestMetadata (init self) = Resolver p self ->
  created self (finish_track init pl self).
Proof. intros Hm Hr. exists p. unfold finish_track. by destruct pl. Qed.

Lemma adds_build_list {A} pinit (tinit : loc -> A -> loc -> Track.t) ds :
  (forall p d self, created self (finish_track (tinit p d) (Some p) self)) ->
  adds_created (build_list (World := World) pinit tinit ds).
Proof.
  intros Hinit. unfold build_list.
  apply adds_bind; [by apply adds_alloc|]. intros e.
  apply adds_bind; [by apply adds_alloc|]. intros p.
  apply adds_bind; [apply adds_mapM; intros d; by apply adds_make_track|]. intros ls.
  apply adds_bind; [by apply adds_alloc|]. intros a.
  apply adds_bind; [apply adds_update_playlist|]. intros _. apply adds_ret.
Qed.

Lemma adds_handle (ext : SpotifyExtractor World) q ctx : adds_created (handle env ext q ctx).
Proof.
  assert (forall kind ev lookup, adds_created (primary_list (World := World) kind ev lookup q ctx))
    as Hprimary.
  { intros kind ev lookup. unfold primary_list. destruct (parse q) as [qt id].
    destruct (negb _); [apply adds_throw|].
    apply adds_bind; [apply adds_call|]. intros [d|]; [|apply adds_throw].
    apply adds_build_list. intros p a self. by eapply created_finish. }
  assert (adds_created (scraped_list ext q ctx)) as Hscraped.
  { unfold scraped_list. apply adds_bind; [apply adds_scrape|].
    intros [d|]; [|apply adds_empty_info].
    apply adds_build_list. intros p a self. by eapply created_finish. }
  unfold handle. cbv zeta.
  destruct (_ || _ || _).
  { unfold search_tracks. apply adds_bind; [apply adds_call|]. intros [data|].
    - apply adds_bind.
      + apply adds_mapM. intros d. apply adds_make_track. intros self.
        by eapply created_finish.
      + intros ls. apply adds_bind; [by apply adds_alloc|]. intros a. apply adds_ret.
    - unfold createResponse. apply adds_bind; [by apply adds_alloc|]. intros a.
      apply adds_ret. }
  destruct (strict_eq SPOTIFY_SONG _).
  { unfold scraped_song. apply adds_bind; [apply adds_scrape|].
    intros [d|]; [|apply adds_empty_info].
    apply adds_bind.
    - apply adds_make_track. intros self. by eapply created_finish.
    - intros l. apply adds_bind; [by apply adds_alloc|]. intros a. apply adds_ret. }
  destruct (strict_eq SPOTIFY_PLAYLIST _); [by apply adds_try_catch|].
  destruct (strict_eq SPOTIFY_ALBUM _); [by apply adds_try_catch|].
  apply adds_empty_info.
Qed.

(** Claim C9.  Every track that [handle] produces has [metadata.bridge]
    null at creation; its deferred resolver returns an envelope whenever
    the bridge it calls answers; and however often the resolver is invoked,
    every envelope it returns has as [source] the provider payload captured
    at creation, and [metadata.source] of the track stays that payload. *)
Theorem resolver_keeps_captured_source (ext : SpotifyExtractor World) (query : jsstring)
    (context : SearchContext.t) (s : state) (l : loc) (t : Track.t) :
  length (store s) <= l ->
  store (snd (handle env ext query context s)) !! l = Some (OTrack t) ->
  source_is_kept env (store (snd (handle env ext query context s))) l t.
Proof.
  intros Hl Ht.
  assert (created l t) as (p & Hmeta & Hres).
  { eapply (adds_handle ext query context (length (store s)) s); [|done|done].
    intros l' t' Hn Hl'. apply lookup_lt_Some in Hl'. lia. }
  exists p. split; [done|]. split.
  { intros ext' w tr Hans.
    by apply (requestMetadata_returns ext' p l t
                {| world := w; store := store (snd (handle env ext query context s));
                   trace := tr |}). }
  intros ext' n w tr. cbv zeta.
  destruct (repeat_request_keeps ext' p l n
              {| world := w; store := store (snd (handle env ext query context s)); trace := tr |})
    as [Hrs (t' & Hl' & Hsrc & _)].
  { exists t. split; [done|]. split; [|done]. unfold metadata_source. by rewrite Hmeta. }
  split; [done|]. eauto.
Qed.

(** *** Streaming *)

Lemma same_outside_bridge_refl t : same_outside_bridge t t.
Proof. by repeat split. Qed.

Lemma same_outside_with_bridge t b :
  same_outside_bridge t (Track.with_metadata (Some (with_bridge (Track.metadata t) b)) t).
Proof. by repeat split. Qed.

Lemma same_outside_with_raw_url t t' u :
  same_outside_bridge t t' -> same_outside_bridge t (Track.with_raw_url u t').
Proof. intros H. exact H. Qed.

(** [stream] writes the track at [info] and nothing else. *)
Lemma stream_store (ext : SpotifyExtractor World) info t (s : state) :
  store s !! info = Some (OTrack t) ->
  exists t', same_outside_bridge t t' /\
    store (snd (stream env ext info s)) = <[info := OTrack t']> (store s).
Proof.
  intros Hl.
  assert (exists t', same_outside_bridge t t' /\ store s = <[info := OTrack t']> (store s)) as Hsame.
  { exists t. split; [apply same_outside_bridge_refl|]. by rewrite list_insert_id. }
  destruct (stream env ext info s) as [r0 s'] eqn:Hrun. cbn [snd].
  revert Hrun. unfold stream.
  destruct (bridgeProvider (options ext)) as [provider|].
  - unfold bind at 1. rewrite (read_track_run _ _ _ Hl).
    unfold bind at 1, call.
    destruct (resolve provider t (world s)) as [[[d|]|reason] w]; cbn [throw].
    + unfold bind at 1, setMetadata. erewrite update_track_run by exact Hl.
      unfold call. cbn [world store trace].
      destruct (provider_stream provider d w) as [[hd|reason] w']; intros [= <- <-]; cbn [store].
      all: eexists; split; [apply same_outside_with_bridge|reflexivity].
    + by intros [= <- <-].
    + by intros [= <- <-].
  - destruct (_stream ext) as [stream_fn|]; [|by intros [= <- <-]].
    unfold bind at 1. rewrite (read_track_run _ _ _ Hl).
    destruct (_isYtdl ext).
    + destruct (validateURL env (Track.raw_url t)).
      * unfold call. destruct (stream_fn _ _) as [[hd|reason] w]; by intros [= <- <-].
      * unfold bind at 1, call.
        destruct (pullYTMetadata env t (world s)) as [[[m|]|reason] w].
        -- unfold bind at 1, setMetadata. erewrite update_track_run by exact Hl.
           destruct (truthy (yt_url m)).
           ++ unfold bind at 1. erewrite update_track_run
                by (cbn [store]; apply list_lookup_insert_eq; by eapply lookup_lt_Some).
              unfold call. cbn [store world trace]. rewrite list_insert_insert_eq.
              destruct (stream_fn _ _) as [[hd|reason] w']; intros [= <- <-]; cbn [store].
              all: eexists; split; [|reflexivity].
              all: apply same_outside_with_raw_url, same_outside_with_bridge.
           ++ cbn [throw]. intros [= <- <-]. cbn [store].
              eexists; split; [apply same_outside_with_bridge|reflexivity].
        -- unfold bind at 1. cbn [ret truthy throw]. by intros [= <- <-].
        -- by intros [= <- <-].
    + unfold call. destruct (stream_fn _ _) as [[hd|reason] w]; by intros [= <- <-].
Qed.

(** Claim C7.  A call of [stream] changes at most the [metadata.bridge]
    slot and the [raw.url] slot of its track: title, description, author,
    url, thumbnail, duration, views, source, queryType and
    [metadata.source] (and every other object of the store) are as before,
    on the bridge provider path and on the default path alike. *)
Theorem stream_changes_bridge_and_raw_url_only (ext : SpotifyExtractor World) (info : loc)
    (t : Track.t) (s : state) :
  store s !! info = Some (OTrack t) ->
  only_bridge_and_raw_url_change info t (store s) (store (snd (stream env ext info s))).
Proof.
  intros Hl. destruct (stream_store ext info t s Hl) as (t' & Hsame & ->).
  pose proof (lookup_lt_Some _ _ _ Hl) as Hlt.
  split; [|split].
  - exists t'. split; [by apply list_lookup_insert_eq|done].
  - apply length_insert.
  - intros l Hne. by apply list_lookup_insert_ne.
Qed.

(** Claim C6.  When no playable candidate is found, [stream] rejects
    with an [Error]: with a bridge provider, when [provider.resolve]
    resolves to nothing; on the default path, when the search that
    [pullYTMetadata] runs for a track without a directly streamable url
    finds no track or a track without url.  No handle is returned. *)
Theorem stream_rejects_without_candidate (ext : SpotifyExtractor World) (info : loc)
    (t : Track.t) (s : state) :
  store s !! info = Some (OTrack t) ->
  match bridgeProvider (options ext) with
  | Some provider => fst (resolve provider t (world s)) = Fulfilled None
  | None =>
      _isYtdl ext = true /\ validateURL env (Track.raw_url t) = false /\
      no_candidate (fst (pullYTMetadata env t (world s))) = true
  end ->
  exists msg, fst (stream env ext info s) = Throw (Error msg).
Proof.
  intros Hl Hnone. unfold stream.
  destruct (bridgeProvider (options ext)) as [provider|].
  - unfold bind at 1. rewrite (read_track_run _ _ _ Hl). unfold bind at 1, call.
    destruct (resolve provider t (world s)) as [r w]. cbn [fst] in Hnone. subst r.
    cbn. eauto.
  - destruct Hnone as (Hytdl & Hurl & Hnone).
    destruct (_stream ext) as [stream_fn|]; [|cbn; eauto].
    unfold bind at 1. rewrite (read_track_run _ _ _ Hl). rewrite Hytdl, Hurl.
    unfold bind at 1, call.
    destruct (pullYTMetadata env t (world s)) as [[[m|]|reason] w]; cbn [fst] in Hnone;
      [| |done].
    + unfold bind at 1, setMetadata. erewrite update_track_run by exact Hl.
      cbn [no_candidate] in Hnone. apply negb_true_iff in Hnone. rewrite Hnone.
      cbn. eauto.
    + cbn. eauto.
Qed.

(** With a provider that resolves to an envelope without data, [stream]
    stores the empty bridge and hands the envelope to [provider.stream]:
    the outcome is the provider's. *)
Lemma stream_passes_empty_envelope (ext : SpotifyExtractor World) provider (info : loc)
    (t : Track.t) (s : state) w :
  store s !! info = Some (OTrack t) ->
  bridgeProvider (options ext) = Some provider ->
  resolve provider t (world s) = (Fulfilled (Some {| data := None |}), w) ->
  fst (stream env ext info s) =
    match fst (provider_stream provider {| data := None |} w) with
    | Fulfilled hd => Ok hd
    | Rejected reason => Throw (Rejection reason)
    end.
Proof.
  intros Hl Hp Hr. unfold stream. rewrite Hp.
  unfold bind at 1. rewrite (read_track_run _ _ _ Hl). unfold bind at 1, call.
  rewrite Hr. unfold bind at 1, setMetadata. erewrite update_track_run by exact Hl.
  cbn [world]. by destruct (provider_stream provider _ w) as [[hd|reason] w'].
Qed.

End Streaming.

(** Streaming the sample track: the default search finds nothing. *)
Lemma stream_rejects_without_candidate_witness :
  exists msg,
    fst (stream (Sample.imports None) Sample.activated 0 Sample.one_track) = Throw (Error msg).
Proof.
  apply (stream_rejects_without_candidate (Sample.imports None) Sample.activated 0
           (finish_track (api_track_init None Sample.song1) None 0) Sample.one_track).
  - reflexivity.
  - cbn. repeat split.
Defined.

Lemma stream_changes_bridge_and_raw_url_only_witness :
  only_bridge_and_raw_url_change 0 (finish_track (api_track_init None Sample.song1) None 0)
    (store Sample.one_track)
    (store (snd (stream (Sample.imports None) Sample.activated 0 Sample.one_track))).
Proof.
  apply (stream_changes_bridge_and_raw_url_only (Sample.imports None) Sample.activated 0
           (finish_track (api_track_init None Sample.song1) None 0) Sample.one_track).
  reflexivity.
Defined.

(** The first track of the sample playlist, asked for its metadata. *)
Lemma resolver_keeps_captured_source_witness :
  source_is_kept (Sample.imports (Some Sample.playlist))
    (store (snd (handle (Sample.imports (Some Sample.playlist)) Sample.activated
                   Sample.playlist_link (Sample.context SPOTIFY_PLAYLIST) Sample.start)))
    2 (finish_track (api_track_init (Some (lit "alice")) Sample.song1) (Some 1) 2).
Proof.
  apply (resolver_keeps_captured_source (Sample.imports (Some Sample.playlist))
           Sample.activated Sample.playlist_link (Sample.context SPOTIFY_PLAYLIST)
           Sample.start 2).
  - cbn. lia.
  - vm_compute. reflexivity.
Defined.

(** * Further facts about the extractor *)

Section MoreFacts.

Context {World : Type} (env : Imports World).

Local Abbreviation state := (state World).

(** ** Closed forms of [handle] *)

Lemma handle_search (ext : SpotifyExtractor World) q ctx :
  is_search_type (SearchContext.type ctx) = true ->
  handle env ext q ctx = search_tracks env q ctx.
Proof. unfold is_search_type, handle. cbv zeta. by intros ->. Qed.

Lemma validate_false q type :
  validate q type = false ->
  is_search_type type = false /\ strict_eq SPOTIFY_SONG type = false /\
  strict_eq SPOTIFY_PLAYLIST type = false /\ strict_eq SPOTIFY_ALBUM type = false.
Proof.
  unfold validate, is_search_type. cbn [existsb].
  destruct (strict_eq SPOTIFY_ALBUM type), (strict_eq SPOTIFY_PLAYLIST type),
    (strict_eq SPOTIFY_SONG type), (strict_eq SPOTIFY_SEARCH type),
    (strict_eq AUTO type), (strict_eq AUTO_SEARCH type); cbn; intros; try done.
Qed.

Lemma empty_info_run (s : state) : empty_info s = empty_result s.
Proof. done. Qed.

Lemma search_tracks_run q ctx (s : state) :
  search_tracks env q ctx s =
    match search env q (world s) with
    | (Rejected reason, w) => (Throw (Rejection reason), called s w (EvSearch q))
    | (Fulfilled None, w) => empty_result (called s w (EvSearch q))
    | (Fulfilled (Some data), w) =>
        tracks_result (called s w (EvSearch q))
          (api_track_init (SearchContext.requestedBy ctx)) data
    end.
Proof.
  unfold search_tracks. unfold bind at 1, call.
  destruct (search env q (world s)) as [[[data|]|r] w]; try done.
  unfold bind at 1. rewrite make_tracks_run. cbn [store world trace].
  unfold tracks_result, called, bind, alloc, createResponse, ret. cbn [store world trace].
  rewrite length_app, length_imap, <- app_assoc. done.
Qed.

Lemma scraped_song_run (ext : SpotifyExtractor World) q ctx (s : state) :
  scraped_song ext q ctx s =
    match _lib ext with
    | None =>
        (Throw (TypeError (lit "Cannot read properties of undefined (reading 'getData')")), s)
    | Some lib =>
        match getData lib q (world s) with
        | (Fulfilled (Some d), w) =>
            tracks_result (called s w (EvGetData q)) (song_track_init q ctx) [d]
        | (_, w) => empty_result (called s w (EvGetData q))
        end
    end.
Proof.
  unfold scraped_song. unfold bind at 1. rewrite scrape_run.
  destruct (_lib ext) as [lib|]; [|done].
  destruct (getData lib q (world s)) as [[[d|]|r] w]; try done.
  unfold bind at 1. rewrite make_track_run. cbn [store world trace].
  unfold tracks_result, called, bind, alloc, ret. cbn [store world trace imap length seq].
  rewrite length_app, <- app_assoc. cbn [length app]. by rewrite !Nat.add_0_r.
Qed.

Lemma scraped_list_cases (ext : SpotifyExtractor World) q ctx (s : state) :
  scraped_list ext q ctx s =
    match _lib ext with
    | None =>
        (Throw (TypeError (lit "Cannot read properties of undefined (reading 'getData')")), s)
    | Some lib =>
        match getData lib q (world s) with
        | (Fulfilled (Some p), w) =>
            built (called s w (EvGetData q)) (scraped_playlist_init q p)
              (item_track_init q (SearchContext.requestedBy ctx)) (Scraped.trackList p)
        | (_, w) => empty_result (called s w (EvGetData q))
        end
    end.
Proof.
  unfold scraped_list. unfold bind at 1. rewrite scrape_run.
  destruct (_lib ext) as [lib|]; [|done].
  destruct (getData lib q (world s)) as [[[p|]|r] w]; try done.
  by rewrite build_list_run.
Qed.

(** The [try]/[catch] of the playlist and album cases, with or without a
    scraper. *)
Lemma list_case_run (ext : SpotifyExtractor World) kind ev lookup q ctx (s : state) :
  try_catch (primary_list kind ev lookup q ctx) (scraped_list ext q ctx) s =
    match primary_result kind ev lookup q s with
    | (Some d, s1) =>
        built s1 (api_playlist_init kind q d)
          (fun _ => api_track_init (SearchContext.requestedBy ctx)) (ApiList.tracks d)
    | (None, s1) => scraped_list ext q ctx s1
    end.
Proof.
  unfold try_catch, primary_list, primary_result.
  destruct (parse q) as [qt id]. destruct (strict_eq kind qt); cbn [negb]; [|done].
  unfold bind at 1, call.
  destruct (lookup id (world s)) as [[[d|]|r] w]; cbn [throw]; try done.
  by rewrite build_list_run.
Qed.

(** What the primary lookup leaves behind: the store as it was, and at
    most one call, with the identifier that [re] finds. *)
Lemma primary_result_state kind ev lookup q (s : state) :
  store (snd (primary_result kind ev lookup q s)) = store s /\
  (trace (snd (primary_result kind ev lookup q s)) = trace s \/
   exists id, parse q = (Some kind, id) /\
              trace (snd (primary_result kind ev lookup q s)) = trace s ++ [ev id]).
Proof.
  unfold primary_result. destruct (parse q) as [qt id] eqn:Hp.
  destruct (strict_eq kind qt) eqn:Hk; [|by split; [|left]].
  apply strict_eq_true in Hk as ->.
  destruct (lookup id (world s)) as [r w]. split; [done|]. right. by exists id.
Qed.

(** [parse] finds exactly the links of the grammar. *)
Lemma parse_Link q kind id : parse q = (Some kind, Some id) <-> Link kind id q.
Proof.
  rewrite RegexFacts.parse_link_of. split.
  - destruct (link_of q) as [[k i]|] eqn:Hl; [|done].
    intros [= <- <-]. by apply RegexFacts.link_of_Some.
  - intros H. by rewrite (RegexFacts.link_of_Link _ _ _ H).
Qed.

Lemma parse_cases q :
  parse q = (None, None) \/ exists kind id, parse q = (Some kind, Some id) /\ Link kind id q.
Proof.
  destruct (link_of q) as [[k i]|] eqn:Hl.
  - right. exists k, i. split; [|by apply RegexFacts.link_of_Some].
    by rewrite RegexFacts.parse_link_of, Hl.
  - left. by rewrite RegexFacts.parse_link_of, Hl.
Qed.

(** Every outcome of [handle] has one of four shapes. *)
Lemma handle_has_shape (ext : SpotifyExtractor World) q ctx (s : state) :
  handle_shape (store s) (fst (handle env ext q ctx s)) (store (snd (handle env ext q ctx s))).
Proof.
  assert (forall s' : state, store s' = store s ->
            handle_shape (store s) (fst (scraped_list ext q ctx s'))
              (store (snd (scraped_list ext q ctx s')))) as Hscraped.
  { intros s' Hs'. rewrite scraped_list_cases. destruct (_lib ext) as [lib|].
    - destruct (getData lib q (world s')) as [[[p|]|r] w]; cbn [fst snd built empty_result
        called store]; rewrite Hs'; constructor.
    - cbn [fst snd]. rewrite Hs'. constructor. }
  assert (forall kind ev lookup,
            handle_shape (store s)
              (fst (try_catch (primary_list kind ev lookup q ctx) (scraped_list ext q ctx) s))
              (store (snd (try_catch (primary_list kind ev lookup q ctx)
                             (scraped_list ext q ctx) s)))) as Hlist.
  { intros kind ev lookup. rewrite list_case_run.
    pose proof (primary_result_state kind ev lookup q s) as [Hst _].
    destruct (primary_result kind ev lookup q s) as [[d|] s1]; cbn [snd] in Hst.
    - cbn [fst snd built store]. rewrite Hst. constructor.
    - by apply Hscraped. }
  unfold handle. cbv zeta.
  destruct (_ || _ || _).
  { rewrite search_tracks_run.
    destruct (search env q (world s)) as [[[data|]|r] w];
      cbn [fst snd tracks_result empty_result called store]; by constructor. }
  destruct (strict_eq SPOTIFY_SONG _).
  { rewrite scraped_song_run. destruct (_lib ext) as [lib|]; [|constructor].
    destruct (getData lib q (world s)) as [[[d|]|r] w];
      cbn [fst snd tracks_result empty_result called store]; by constructor. }
  destruct (strict_eq SPOTIFY_PLAYLIST _); [apply Hlist|].
  destruct (strict_eq SPOTIFY_ALBUM _); [apply Hlist|].
  constructor.
Qed.

End MoreFacts.

(** ** The fallback without a scraper *)

Section Fallback.

Context {World : Type} (env : Imports World).

Local Abbreviation state := (state World).

(** Claim C2 does not hold of the code.  With a bridge provider or a
    [createStream] function, [activate] returns before the scraper is
    created.  A playlist or album query then has one tier only: a payload
    of the primary client becomes the result; when the primary lookup
    throws or gives nothing, the [catch] block reads [getData] off
    [undefined] and [handle] rejects with a [TypeError], in the state that
    the primary lookup left.  The scraper is not asked and the empty
    result is not returned. *)
Theorem handle_list_has_no_fallback_without_scraper (init : SpotifyExtractorInit World)
    (query : jsstring) (context : SearchContext.t) (s : state)
    (kind : jsstring) (ev : option jsstring -> event)
    (lookup : option jsstring -> ask World (option ApiList.t)) :
  returns_early init = true ->
  (SearchContext.type context = Some SPOTIFY_PLAYLIST /\ kind = lit "playlist" /\
     ev = EvGetPlaylist /\ lookup = getPlaylist env) \/
  (SearchContext.type context = Some SPOTIFY_ALBUM /\ kind = lit "album" /\
     ev = EvGetAlbum /\ lookup = getAlbum env) ->
  activate_then_handle env init query context s =
    match primary_result kind ev lookup query s with
    | (Some d, s1) =>
        built s1 (api_playlist_init kind query d)
          (fun _ => api_track_init (SearchContext.requestedBy context)) (ApiList.tracks d)
    | (None, s1) =>
        (Throw (TypeError (lit "Cannot read properties of undefined (reading 'getData')")), s1)
    end.
Proof.
  intros Hearly Hcase.
  assert (exists ext, activate env (new_extractor init) s = (Ok ext, s) /\ _lib ext = None)
    as (ext & Hact & Hlib).
  { unfold activate, returns_early in *. cbn [new_extractor options _lib ret].
    destruct (bridgeProvider init) as [p|]; [by eexists|].
    destruct (createStream init) as [fn|]; [by eexists|done]. }
  unfold activate_then_handle, bind. rewrite Hact.
  assert (handle env ext query context s =
            try_catch (primary_list kind ev lookup query context)
              (scraped_list ext query context) s) as ->.
  { destruct Hcase as [(Hty & -> & -> & ->)|(Hty & -> & -> & ->)].
    - by rewrite (handle_playlist env).
    - by rewrite (handle_album env). }
  rewrite list_case_run.
  destruct (primary_result kind ev lookup query s) as [[d|] s1]; [done|].
  by rewrite scraped_list_cases, Hlib.
Qed.

End Fallback.

(** A bridge provider is configured, the link is a playlist link and the
    primary client has no answer: [handle] rejects after the one lookup. *)
Lemma handle_list_has_no_fallback_without_scraper_witness :
  activate_then_handle (Sample.imports None) Sample.bridge_init Sample.playlist_link
    (Sample.context SPOTIFY_PLAYLIST) Sample.start =
  (Throw (TypeError (lit "Cannot read properties of undefined (reading 'getData')")),
   {| world := tt; store := []; trace := [EvGetPlaylist (Some (lit "abc123"))] |}).
Proof.
  rewrite (handle_list_has_no_fallback_without_scraper (Sample.imports None) Sample.bridge_init
             Sample.playlist_link (Sample.context SPOTIFY_PLAYLIST) Sample.start
             (lit "playlist") EvGetPlaylist (getPlaylist (Sample.imports None))
             eq_refl (or_introl (conj eq_refl (conj eq_refl (conj eq_refl eq_refl))))).
  vm_compute. reflexivity.
Defined.

(** * Further properties of the extractor *)

(** ** [handle] *)

(** The calls of a branch: the trace grows by the given events, which are
    few and carry the query. *)
Ltac events_ok := split; [done|split; [cbn; lia|repeat constructor]].

Section MoreResolution.

Context {World : Type} (env : Imports World).

Local Abbreviation state := (state World).

(** Property X1.

    A query type that [validate] refuses falls through the [switch] of
    [handle]: the result is the empty structure, no collaborator is
    called, and it does not matter whether the scraper exists. *)
Theorem handle_ignores_refused_types (ext : SpotifyExtractor World) (query : jsstring)
    (context : SearchContext.t) (s : state) :
  validate query (SearchContext.type context) = false ->
  handle env ext query context s = empty_result s.
Proof.
  intros H. apply validate_false in H as (Hs & Hsong & Hpl & Hal).
  unfold handle. cbv zeta. fold (is_search_type (SearchContext.type context)).
  by rewrite Hs, Hsong, Hpl, Hal.
Qed.

(** Property X2.

    For the types [auto], [autoSearch] and [spotifySearch], [handle] asks
    the primary client once, with the query as given.  When the client
    answers with a list, the result has no playlist and one new track per
    entry, in the order of the list; each track is built from its entry
    alone, with the query type [spotifySong] whatever the type of the
    context was. *)
Theorem search_results_become_tracks (ext : SpotifyExtractor World) (query : jsstring)
    (context : SearchContext.t) (s : state) (data : list ApiTrack.t) (w : World) :
  is_search_type (SearchContext.type context) = true ->
  search env query (world s) = (Fulfilled (Some data), w) ->
  tracks_of_search (fst (handle env ext query context s))
    (store (snd (handle env ext query context s)))
    (SearchContext.requestedBy context) data /\
  trace (snd (handle env ext query context s)) = trace s ++ [EvSearch query] /\
  world (snd (handle env ext query context s)) = w.
Proof.
  intros Hty Hsearch. rewrite handle_search by done.
  rewrite search_tracks_run, Hsearch. unfold tracks_result, called.
  cbn [fst snd store world trace]. split; [|done].
  set (h := store s).
  exists (length h + length data)%nat, (seq (length h) (length data)).
  split; [done|]. split.
  { rewrite lookup_app_r by lia. rewrite lookup_app_r by (rewrite length_imap; lia).
    rewrite length_imap.
    by replace (length h + length data - length h - length data)%nat with 0%nat by lia. }
  split; [apply length_seq|].
  intros i d Hi. exists (length h + i)%nat.
  split; [apply lookup_seq_lt; by eapply lookup_lt_Some|].
  rewrite lookup_app_r by lia. apply lookup_app_l_Some.
  rewrite list_lookup_imap.
  replace (length h + i - length h)%nat with i by lia. by rewrite Hi.
Qed.

(** Property X3.

    A rejection of the search is not caught: [handle] rejects with the
    same reason and creates nothing.  An answer without a list gives the
    empty structure. *)
Theorem search_failure_is_passed_on (ext : SpotifyExtractor World) (query : jsstring)
    (context : SearchContext.t) (s : state) :
  is_search_type (SearchContext.type context) = true ->
  match search env query (world s) with
  | (Rejected reason, w) =>
      handle env ext query context s =
        (Throw (Rejection reason), called s w (EvSearch query))
  | (Fulfilled None, w) =>
      handle env ext query context s = empty_result (called s w (EvSearch query))
  | (Fulfilled (Some _), _) => exists info, fst (handle env ext query context s) = Ok info
  end.
Proof.
  intros Hty. rewrite handle_search by done. rewrite search_tracks_run.
  destruct (search env query (world s)) as [[[data|]|r] w]; try done.
  cbn. eauto.
Qed.

(** Property X4.

    A song query goes to the scraper alone, once and with the query as
    given: the primary client is not asked, whatever the query looks like.
    A payload becomes the one track of the result; a rejection and an
    empty answer both give the empty structure. *)
Theorem song_query_asks_scraper_only (ext : SpotifyExtractor World) (lib : Spotify World)
    (query : jsstring) (context : SearchContext.t) (s : state) :
  _lib ext = Some lib ->
  SearchContext.type context = Some SPOTIFY_SONG ->
  trace (snd (handle env ext query context s)) = trace s ++ [EvGetData query] /\
  match fst (getData lib query (world s)) with
  | Fulfilled (Some d) =>
      song_of_scraped (fst (handle env ext query context s))
        (store (snd (handle env ext query context s))) query context d
  | _ =>
      empty_structure (fst (handle env ext query context s))
        (store (snd (handle env ext query context s)))
  end.
Proof.
  intros Hlib Hty. rewrite (handle_song env) by done.
  rewrite scraped_song_run, Hlib.
  destruct (getData lib query (world s)) as [[[d|]|r] w];
    cbn [fst snd tracks_result empty_result called store world trace]; (split; [done|]).
  - exists (length (store s) + 1)%nat, (length (store s)).
    split; [done|]. cbn [imap length seq]. split.
    + rewrite lookup_app_r by lia.
      by replace (length (store s) + 1 - length (store s))%nat with 1%nat by lia.
    + rewrite Nat.add_0_r. by apply list_lookup_middle.
  - exists (length (store s)). split; [done|]. by apply list_lookup_middle.
  - exists (length (store s)). split; [done|]. by apply list_lookup_middle.
Qed.

(** Property X5.

    [handle] only creates objects: whatever the query, the type and the
    answers of the collaborators, the objects that were in the store are
    there afterwards, unchanged and at their places. *)
Theorem handle_only_adds_objects (ext : SpotifyExtractor World) (query : jsstring)
    (context : SearchContext.t) (s : state) :
  exists added, store (snd (handle env ext query context s)) = store s ++ added.
Proof.
  destruct (handle_has_shape env ext query context s); eauto using app_nil_r.
Qed.

(** Property X6.

    Every result of [handle] is well formed: [tracks] is an array that
    the call created; its elements are tracks that the call created, each
    tagged with the extractor and with [playlist] equal to the playlist of
    the result; and the playlist, when there is one, is new and holds that
    very array as its [tracks]. *)
Theorem handle_result_is_well_formed (ext : SpotifyExtractor World) (query : jsstring)
    (context : SearchContext.t) (s : state) (info : ExtractorInfo) :
  fst (handle env ext query context s) = Ok info ->
  well_formed_result (length (store s)) (store (snd (handle env ext query context s))) info.
Proof.
  intros Hok. pose proof (handle_has_shape env ext query context s) as Hshape.
  rewrite Hok in Hshape. set (h := store s) in *.
  inversion Hshape as [| |A init payload Hpl|A pinit tinit payload]; subst.
  - unfold well_formed_result. cbn [info_tracks info_playlist].
    split; [lia|]. split; [|done]. exists []. split; [by apply list_lookup_middle|done].
  - unfold well_formed_result. cbn [info_tracks info_playlist].
    split; [lia|]. split; [|done]. exists (seq (length h) (length payload)). split.
    { rewrite lookup_app_r by lia. rewrite lookup_app_r by (rewrite length_imap; lia).
      rewrite length_imap.
      by replace (length h + length payload - length h - length payload)%nat
        with 0%nat by lia. }
    apply Forall_seq. intros j Hj. split; [lia|].
    destruct (lookup_lt_is_Some_2 payload (j - length h)) as [d Hd]; [lia|].
    exists (finish_track (init d) None j). split.
    { rewrite lookup_app_r by lia. apply lookup_app_l_Some.
      rewrite list_lookup_imap, Hd. cbn [fmap option_fmap option_map].
      by replace (length h + (j - length h))%nat with j by lia. }
    split; [apply Hpl|done].
  - unfold well_formed_result, list_info. cbn [info_tracks info_playlist].
    split; [lia|]. split.
    { exists (seq (length h + 2) (length payload)). split; [apply list_store_array|].
      apply Forall_seq. intros j Hj. split; [lia|].
      destruct (lookup_lt_is_Some_2 payload (j - (length h + 2))) as [d Hd]; [lia|].
      exists (finish_track (tinit (S (length h)) d) (Some (S (length h))) j).
      split; [|done].
      replace j with (length h + 2 + (j - (length h + 2)))%nat at 1 2 by lia.
      by apply list_store_track. }
    split; [lia|]. eexists. split; [apply list_store_playlist|done].
Qed.

(** Property X7.

    [handle] makes at most two calls.  The search and the scraper get the
    query as it was given.  The primary client is asked for a playlist or
    an album only with an identifier that [re] found in the query after
    the word [playlist] or [album]: never with [undefined], and never for
    a link of the other kind. *)
Theorem handle_asks_with_the_query (ext : SpotifyExtractor World) (query : jsstring)
    (context : SearchContext.t) (s : state) :
  exists evs,
    trace (snd (handle env ext query context s)) = trace s ++ evs /\
    length evs <= 2 /\
    Forall (asks_for_parsed_id query) evs.
Proof.
  assert (forall s' : state, exists evs,
            trace (snd (scraped_list ext query context s')) = trace s' ++ evs /\
            length evs <= 1 /\ Forall (asks_for_parsed_id query) evs) as Hscraped.
  { intros s'. rewrite scraped_list_cases. destruct (_lib ext) as [lib|].
    - exists [EvGetData query].
      destruct (getData lib query (world s')) as [[[p|]|r] w];
        cbn [fst snd built empty_result called trace]; events_ok.
    - exists []. cbn [snd]. rewrite app_nil_r. events_ok. }
  assert (forall kind ev lookup,
            (forall id, ev id = EvGetPlaylist id /\ kind = lit "playlist" \/
                        ev id = EvGetAlbum id /\ kind = lit "album") ->
            exists evs,
              trace (snd (try_catch (primary_list kind ev lookup query context)
                            (scraped_list ext query context) s)) = trace s ++ evs /\
              length evs <= 2 /\ Forall (asks_for_parsed_id query) evs) as Hlist.
  { intros kind ev lookup Hev. rewrite list_case_run.
    pose proof (primary_result_state kind ev lookup query s) as [_ Htr].
    assert (exists evs1, trace (snd (primary_result kind ev lookup query s)) = trace s ++ evs1 /\
              length evs1 <= 1 /\ Forall (asks_for_parsed_id query) evs1)
      as (evs1 & H1 & Hl1 & Hf1).
    { destruct Htr as [Htr|(id & Hparse & Htr)].
      - exists []. rewrite app_nil_r. events_ok.
      - exists [ev id]. split; [done|]. split; [cbn; lia|].
        apply Forall_singleton.
        destruct (parse_cases query) as [Hnone|(k & i & Hsome & Hlink)];
          [rewrite Hnone in Hparse; discriminate|].
        rewrite Hsome in Hparse. injection Hparse as -> <-.
        destruct (Hev (Some i)) as [[-> ->]|[-> ->]]; cbn; eauto. }
    destruct (primary_result kind ev lookup query s) as [[d|] s1]; cbn [snd] in H1.
    - exists evs1. cbn [snd built trace]. split; [done|]. split; [lia|done].
    - destruct (Hscraped s1) as (evs2 & H2 & Hl2 & Hf2).
      exists (evs1 ++ evs2). rewrite H2, H1, app_assoc. split; [done|].
      split; [rewrite length_app; lia|by apply Forall_app]. }
  unfold handle. cbv zeta.
  destruct (_ || _ || _).
  { exists [EvSearch query]. rewrite search_tracks_run.
    destruct (search env query (world s)) as [[[data|]|r] w];
      cbn [fst snd tracks_result empty_result called trace]; events_ok. }
  destruct (strict_eq SPOTIFY_SONG _).
  { rewrite scraped_song_run. destruct (_lib ext) as [lib|].
    - exists [EvGetData query].
      destruct (getData lib query (world s)) as [[[d|]|r] w];
        cbn [fst snd tracks_result empty_result called trace]; events_ok.
    - exists []. cbn [snd]. rewrite app_nil_r. events_ok. }
  destruct (strict_eq SPOTIFY_PLAYLIST _); [apply Hlist; by left|].
  destruct (strict_eq SPOTIFY_ALBUM _); [apply Hlist; by right|].
  exists []. cbn [snd empty_info]. unfold empty_info, bind, alloc, ret. cbn [snd trace].
  rewrite app_nil_r. events_ok.
Qed.

(** Property X8.

    An album link that the primary client resolves: for every query in
    which [re] finds the word [album] and an identifier, and every payload
    that [getAlbum] returns for that identifier, the result is a playlist
    of type [album] with the payload's id and the payload's tracks in
    their order, all sharing the one playlist; the scraper is not asked. *)
Theorem primary_album_is_shared (ext : SpotifyExtractor World) (query : jsstring)
    (context : SearchContext.t) (s : state) (id : jsstring) (d : ApiList.t) (w : World) :
  SearchContext.type context = Some SPOTIFY_ALBUM ->
  Link (lit "album") id query ->
  getAlbum env (Some id) (world s) = (Fulfilled (Some d), w) ->
  playlist_of_payload (fst (handle env ext query context s))
    (store (snd (handle env ext query context s))) d /\
  store (snd (handle env ext query context s)) !! S (length (store s)) =
    Some (OPlaylist (Playlist.with_tracks (length (store s) + 2 + length (ApiList.tracks d))
                       (api_playlist_init (lit "album") query d (length (store s))))) /\
  trace (snd (handle env ext query context s)) = trace s ++ [EvGetAlbum (Some id)].
Proof.
  intros Hty Hlink Hlookup. apply parse_Link in Hlink.
  rewrite (handle_album env) by done. unfold try_catch.
  rewrite (primary_list_found _ _ _ _ _ _ _ _ _ Hlink Hlookup).
  unfold built. cbn [fst snd store world trace].
  set (h := store s). split; [|split; [apply list_store_playlist|done]].
  unfold playlist_of_payload, list_info.
  eexists _, _, _, _. split; [reflexivity|].
  split; [apply list_store_playlist|]. split; [reflexivity|]. split; [reflexivity|].
  split; [apply list_store_array|]. split; [apply length_seq|].
  intros i di Hi. eexists _, _.
  split; [apply lookup_seq_lt; by eapply lookup_lt_Some|].
  split; [by apply list_store_track|]. done.
Qed.

(** Property X9.

    A playlist or album that only the scraper resolves: the result is a
    playlist with the payload's id and type and one track per entry of
    [trackList], in its order; [tracks] is the array that the playlist
    holds and every track points to the playlist. *)
Theorem scraped_list_is_shared (ext : SpotifyExtractor World) (lib : Spotify World)
    (query : jsstring) (context : SearchContext.t) (s s1 : state)
    (kind : jsstring) (ev : option jsstring -> event)
    (lookup : option jsstring -> ask World (option ApiList.t)) (p : Scraped.t) (w : World) :
  _lib ext = Some lib ->
  (SearchContext.type context = Some SPOTIFY_PLAYLIST /\ kind = lit "playlist" /\
     ev = EvGetPlaylist /\ lookup = getPlaylist env) \/
  (SearchContext.type context = Some SPOTIFY_ALBUM /\ kind = lit "album" /\
     ev = EvGetAlbum /\ lookup = getAlbum env) ->
  primary_result kind ev lookup query s = (None, s1) ->
  getData lib query (world s1) = (Fulfilled (Some p), w) ->
  playlist_of_scraped (fst (handle env ext query context s))
    (store (snd (handle env ext query context s))) p.
Proof.
  intros Hlib Hcase Hprimary Hdata.
  assert (handle env ext query context s =
            built (called s1 w (EvGetData query)) (scraped_playlist_init query p)
              (item_track_init query (SearchContext.requestedBy context))
              (Scraped.trackList p)) as ->.
  { destruct Hcase as [(Hty & -> & -> & ->)|(Hty & -> & -> & ->)].
    - rewrite (handle_playlist env) by done.
      by rewrite list_case_run, Hprimary, scraped_list_cases, Hlib, Hdata.
    - rewrite (handle_album env) by done.
      by rewrite list_case_run, Hprimary, scraped_list_cases, Hlib, Hdata. }
  unfold built, called. cbn [fst snd store world trace].
  set (h := store s1). unfold playlist_of_scraped, list_info.
  eexists _, _, _, _. split; [reflexivity|].
  split; [apply list_store_playlist|]. split; [reflexivity|]. split; [reflexivity|].
  split; [reflexivity|].
  split; [apply list_store_array|]. split; [apply length_seq|].
  intros i m Hi. eexists _, _.
  split; [apply lookup_seq_lt; by eapply lookup_lt_Some|].
  split; [by apply list_store_track|]. done.
Qed.

End MoreResolution.

(** ** [activate] and [stream] *)

Section MoreStreaming.

Context {World : Type} (env : Imports World).

Local Abbreviation state := (state World).

(** [stream] on a track, case by case. *)
Lemma stream_run (ext : SpotifyExtractor World) info t (s : state) :
  store s !! info = Some (OTrack t) ->
  stream env ext info s =
    match bridgeProvider (options ext) with
    | Some provider =>
        match resolve provider t (world s) with
        | (Rejected reason, w) => (Throw (Rejection reason), called s w (EvResolve info))
        | (Fulfilled None, w) =>
            (Throw (Error (lit "Failed to bridge this track")), called s w (EvResolve info))
        | (Fulfilled (Some d), w) =>
            call EvProviderStream (provider_stream provider d)
              (with_track (called s w (EvResolve info)) info (bridged t (data d)))
        end
    | None =>
        match _stream ext with
        | None => (Throw (Error missing_api), s)
        | Some fn =>
            if _isYtdl ext then
              if validateURL env (Track.raw_url t) then
                call (EvStream (Track.raw_url t)) (fn (Track.raw_url t)) s
              else
                match pullYTMetadata env t (world s) with
                | (Rejected reason, w) =>
                    (Throw (Rejection reason), called s w (EvPullYTMetadata info))
                | (Fulfilled None, w) =>
                    (Throw (Error (lit "Failed to fetch resources for ytdl streaming")),
                     called s w (EvPullYTMetadata info))
                | (Fulfilled (Some m), w) =>
                    let s1 := with_track (called s w (EvPullYTMetadata info)) info
                                (bridged t (Some (BridgeTrack m))) in
                    match yt_url m with
                    | Some (c :: u) =>
                        call (EvStream (c :: u)) (fn (c :: u))
                          (with_track s1 info
                             (Track.with_raw_url (c :: u) (bridged t (Some (BridgeTrack m)))))
                    | _ =>
                        (Throw (Error (lit "Failed to fetch resources for ytdl streaming")), s1)
                    end
                end
            else call (EvStream (Track.url t)) (fn (Track.url t)) s
        end
    end.
Proof.
  intros Hl. unfold stream.
  destruct (bridgeProvider (options ext)) as [provider|].
  - unfold bind at 1. rewrite (read_track_run _ _ _ Hl).
    unfold bind at 1, call at 1.
    destruct (resolve provider t (world s)) as [[[d|]|reason] w]; cbn [throw]; try done.
    unfold bind at 1, setMetadata. erewrite update_track_run by exact Hl. done.
  - destruct (_stream ext) as [fn|]; [|done].
    unfold bind at 1. rewrite (read_track_run _ _ _ Hl).
    destruct (_isYtdl ext); [|done].
    destruct (validateURL env (Track.raw_url t)); [done|].
    unfold bind at 1, call at 1.
    destruct (pullYTMetadata env t (world s)) as [[[m|]|reason] w]; try done.
    unfold bind at 1, setMetadata. erewrite update_track_run by exact Hl.
    destruct (yt_url m) as [[|c u]|]; cbn [truthy throw]; try done.
    unfold bind at 1. erewrite update_track_run
      by (cbn [store]; apply list_lookup_insert_eq; by eapply lookup_lt_Some).
    cbn [nullish]. done.
Qed.

Lemma call_state {A} ev (f : ask World A) (s : state) :
  snd (call ev f s) = called s (snd (f (world s))) ev.
Proof. unfold call, called. by destruct (f (world s)) as [[a|r] w]. Qed.

Lemma call_result {A} ev (f : ask World A) (s : state) :
  fst (call ev f s) =
    match fst (f (world s)) with
    | Fulfilled a => Ok a
    | Rejected reason => Throw (Rejection reason)
    end.
Proof. unfold call. by destruct (f (world s)) as [[a|r] w]. Qed.

(** [activate], case by case. *)
Lemma activate_run (ext : SpotifyExtractor World) (s : state) :
  activate env ext s =
    match bridgeProvider (options ext), createStream (options ext) with
    | Some _, _ => (Ok ext, s)
    | None, Some fn =>
        (Ok {| options := options ext; _stream := Some fn; _isYtdl := false;
               _lib := _lib ext |}, s)
    | None, None =>
        match loadYtdl env (world s) with
        | (Rejected reason, w) => (Throw (Rejection reason), called s w EvLoadYtdl)
        | (Fulfilled fn, w) =>
            let ext' := {| options := options ext; _stream := Some fn; _isYtdl := true;
                           _lib := Some (spotify env) |} in
            if isTokenExpired env w then
              match requestToken env w with
              | (Rejected reason, w') =>
                  (Throw (Rejection reason), called (called s w EvLoadYtdl) w' EvRequestToken)
              | (Fulfilled _, w') =>
                  (Ok ext', called (called s w EvLoadYtdl) w' EvRequestToken)
              end
            else (Ok ext', called s w EvLoadYtdl)
        end
    end.
Proof.
  unfold activate. destruct (bridgeProvider (options ext)); [done|].
  destruct (createStream (options ext)); [done|].
  unfold bind at 1, call at 1.
  destruct (loadYtdl env (world s)) as [[fn|r] w]; [|done].
  cbn [world]. destruct (isTokenExpired env w); [|done].
  unfold bind, call. cbn [world].
  by destruct (requestToken env w) as [[[]|r] w'].
Qed.

(** The error about the missing stream function comes from one place. *)
Lemma missing_api_only_if (ext : SpotifyExtractor World) info (s : state) :
  fst (stream env ext info s) = Throw (Error missing_api) ->
  bridgeProvider (options ext) = None /\ _stream ext = None.
Proof.
  destruct (store s !! info) as [[t| |]|] eqn:Hl.
  1: { rewrite (stream_run ext info t s Hl).
       destruct (bridgeProvider (options ext)) as [provider|].
       { destruct (resolve provider t (world s)) as [[[d|]|reason] w]; cbn [fst]; try done.
         rewrite call_result. by destruct (fst (provider_stream provider d _)). }
       destruct (_stream ext) as [fn|]; [|done].
       destruct (_isYtdl ext).
       - destruct (validateURL env (Track.raw_url t)).
         { rewrite call_result. by destruct (fst (fn _ _)). }
         destruct (pullYTMetadata env t (world s)) as [[[m|]|reason] w]; cbn [fst]; try done.
         destruct (yt_url m) as [[|c u]|]; cbn [fst]; try done.
         rewrite call_result. by destruct (fst (fn _ _)).
       - rewrite call_result. by destruct (fst (fn _ _)). }
  all: unfold stream; destruct (bridgeProvider (options ext)) as [provider|];
    [unfold bind, read_track; by rewrite Hl|];
    (destruct (_stream ext) as [fn|]; [|done]);
    unfold bind, read_track; by rewrite Hl.
Qed.

(** Property X10.

    [stream] raises the error about the missing stream function exactly
    when there is no bridge provider and [activate] has not set the
    stream function; it then leaves the state as it was, and does not
    even look at the track. *)
Theorem stream_needs_activate (ext : SpotifyExtractor World) (info : loc) (s : state) :
  (fst (stream env ext info s) = Throw (Error missing_api) <->
   bridgeProvider (options ext) = None /\ _stream ext = None) /\
  (bridgeProvider (options ext) = None -> _stream ext = None ->
   stream env ext info s = (Throw (Error missing_api), s)).
Proof.
  assert (bridgeProvider (options ext) = None -> _stream ext = None ->
          stream env ext info s = (Throw (Error missing_api), s)) as H.
  { intros Hp Hs. unfold stream. by rewrite Hp, Hs. }
  split; [|done]. split; [apply missing_api_only_if|].
  intros [Hp Hs]. by rewrite H.
Qed.

(** Property X11.

    After [activate] has returned, [stream] never raises the error about
    the missing stream function, whatever the options were. *)
Theorem activate_makes_stream_ready (init : SpotifyExtractorInit World)
    (ext : SpotifyExtractor World) (s s1 s2 : state) (info : loc) :
  activate env (new_extractor init) s = (Ok ext, s1) ->
  fst (stream env ext info s2) <> Throw (Error missing_api).
Proof.
  rewrite activate_run. cbn [new_extractor options _lib]. intros Hact Herr.
  apply missing_api_only_if in Herr as [Hp Hs].
  destruct (bridgeProvider init) as [p|] eqn:Hbp.
  { injection Hact as <- <-. cbn in Hp. congruence. }
  destruct (createStream init) as [fn|].
  { injection Hact as <- <-. done. }
  destruct (loadYtdl env (world s)) as [[fn|r] w]; [|done].
  cbv zeta in Hact. destruct (isTokenExpired env w).
  - destruct (requestToken env w) as [[[]|r] w']; [|done]. by injection Hact as <- <-.
  - by injection Hact as <- <-.
Qed.

(** Property X12.

    What [activate] does to the world: it never touches the store; with a
    bridge provider or a [createStream] function it calls nothing; on the
    default path it loads ytdl and then requests a token exactly when the
    client reports the token as expired. *)
Theorem activate_requests_token_when_expired (ext : SpotifyExtractor World) (s : state) :
  store (snd (activate env ext s)) = store s /\
  trace (snd (activate env ext s)) =
    trace s ++
      if returns_early (options ext) then []
      else match loadYtdl env (world s) with
           | (Fulfilled _, w) =>
               if isTokenExpired env w then [EvLoadYtdl; EvRequestToken] else [EvLoadYtdl]
           | (Rejected _, _) => [EvLoadYtdl]
           end.
Proof.
  rewrite activate_run. unfold returns_early.
  destruct (bridgeProvider (options ext)); [by rewrite app_nil_r|].
  destruct (createStream (options ext)); [by rewrite app_nil_r|].
  destruct (loadYtdl env (world s)) as [[fn|r] w]; [|done].
  cbv zeta. destruct (isTokenExpired env w); [|done].
  destruct (requestToken env w) as [[[]|r] w']; cbn [snd called store trace];
    by rewrite <- app_assoc.
Qed.

(** Property X13.

    What [activate] leaves in the extractor: the options as they were;
    the scraper and ytdl streaming exactly when neither a bridge provider
    nor a [createStream] function is given; and no stream function exactly
    when a bridge provider is given. *)
Theorem activate_sets_up_default_path_only (init : SpotifyExtractorInit World)
    (ext : SpotifyExtractor World) (s s1 : state) :
  activate env (new_extractor init) s = (Ok ext, s1) ->
  options ext = init /\
  _isYtdl ext = negb (returns_early init) /\
  _lib ext = (if returns_early init then None else Some (spotify env)) /\
  (_stream ext = None <-> bridgeProvider init <> None).
Proof.
  rewrite activate_run. unfold returns_early. cbn [new_extractor options _lib].
  destruct (bridgeProvider init) as [p|].
  { intros [= <- <-]. by repeat split. }
  destruct (createStream init) as [fn|].
  { intros [= <- <-]. repeat split; done. }
  destruct (loadYtdl env (world s)) as [[fn|r] w]; [|done].
  cbv zeta. destruct (isTokenExpired env w).
  - destruct (requestToken env w) as [[[]|r] w']; [|done].
    intros [= <- <-]. repeat split; done.
  - intros [= <- <-]. repeat split; done.
Qed.

(** Property X14.

    With a [createStream] function and no bridge provider, [stream] hands
    the url of the track, as [handle] set it, to that function: one call,
    no search on YouTube, and the track is left as it was. *)
Theorem custom_stream_gets_track_url (init : SpotifyExtractorInit World) (fn : StreamFN World)
    (info : loc) (t : Track.t) (s : state) :
  bridgeProvider init = None ->
  createStream init = Some fn ->
  store s !! info = Some (OTrack t) ->
  activate_then_stream env init info s = call (EvStream (Track.url t)) (fn (Track.url t)) s.
Proof.
  intros Hp Hc Hl. unfold activate_then_stream. unfold bind at 1.
  rewrite activate_run. cbn [new_extractor options _lib]. rewrite Hp, Hc.
  rewrite (stream_run _ info t s Hl). cbn [options _stream _isYtdl]. by rewrite Hp.
Qed.

(** Property X15.

    With a bridge provider, the stream function of the options is never
    called, even when both are given: the only calls of [activate]
    followed by [stream] are [resolve] and then, at most, the provider's
    own [stream]. *)
Theorem bridge_provider_overrides_createStream (init : SpotifyExtractorInit World)
    (provider : BridgeProvider World) (info : loc) (s : state) :
  bridgeProvider init = Some provider ->
  trace (snd (activate_then_stream env init info s)) = trace s \/
  trace (snd (activate_then_stream env init info s)) = trace s ++ [EvResolve info] \/
  trace (snd (activate_then_stream env init info s)) =
    trace s ++ [EvResolve info; EvProviderStream].
Proof.
  intros Hp.
  assert (activate_then_stream env init info s = stream env (new_extractor init) info s) as ->.
  { unfold activate_then_stream, bind. rewrite activate_run.
    cbn [new_extractor options _lib]. by rewrite Hp. }
  destruct (store s !! info) as [[t| |]|] eqn:Hl.
  1: { rewrite (stream_run _ info t s Hl). cbn [new_extractor options]. rewrite Hp.
       destruct (resolve provider t (world s)) as [[[d|]|reason] w]; cbn [snd called trace];
         auto.
       rewrite call_state. cbn [called with_track trace]. rewrite <- app_assoc. auto. }
  all: left; unfold stream; cbn [new_extractor options]; rewrite Hp;
    unfold bind, read_track; by rewrite Hl.
Qed.

(** Property X16.

    The url that the search on YouTube finds is kept in the track: when a
    first [stream] had to search and found a playable url, a second
    [stream] of the same track streams that url without another search,
    and changes nothing in the store. *)
Theorem second_stream_reuses_found_url (ext : SpotifyExtractor World) (fn : StreamFN World)
    (info : loc) (t : Track.t) (s : state) (m : YTMeta) (u : jsstring) (w : World) :
  bridgeProvider (options ext) = None ->
  _stream ext = Some fn ->
  _isYtdl ext = true ->
  store s !! info = Some (OTrack t) ->
  validateURL env (Track.raw_url t) = false ->
  pullYTMetadata env t (world s) = (Fulfilled (Some m), w) ->
  yt_url m = Some u -> u <> [] ->
  validateURL env u = true ->
  trace (snd (stream env ext info s)) = trace s ++ [EvPullYTMetadata info; EvStream u] /\
  stream env ext info (snd (stream env ext info s)) =
    call (EvStream u) (fn u) (snd (stream env ext info s)).
Proof.
  intros Hp Hs Hy Hl Hv Hpull Hu Hne Hvu.
  destruct u as [|c u]; [done|].
  assert (exists s1, stream env ext info s = call (EvStream (c :: u)) (fn (c :: u)) s1 /\
            trace s1 = trace s ++ [EvPullYTMetadata info] /\
            store s1 !! info =
              Some (OTrack (Track.with_raw_url (c :: u) (bridged t (Some (BridgeTrack m))))))
    as (s1 & Hrun & Htr & Hst).
  { rewrite (stream_run _ info t s Hl), Hp, Hs, Hy, Hv, Hpull. cbv zeta. rewrite Hu.
    eexists. split; [reflexivity|]. split; [done|].
    cbn [with_track store called]. apply list_lookup_insert_eq.
    rewrite length_insert. by eapply lookup_lt_Some. }
  rewrite Hrun, call_state. split.
  { cbn [called trace]. by rewrite Htr, <- app_assoc. }
  erewrite stream_run by (cbn [called store]; exact Hst).
  cbn [Track.raw_url Track.with_raw_url]. by rewrite Hp, Hs, Hy, Hvu.
Qed.

(** Property X17.

    A failed search can still change the track: when the search on
    YouTube finds a track without url, [stream] raises its error after the
    found track was stored as [metadata.bridge]; the stream function is
    not called and [raw.url] stays. *)
Theorem failed_stream_still_records_bridge (ext : SpotifyExtractor World)
    (fn : StreamFN World) (info : loc) (t : Track.t) (s : state) (m : YTMeta) (w : World) :
  bridgeProvider (options ext) = None ->
  _stream ext = Some fn ->
  _isYtdl ext = true ->
  store s !! info = Some (OTrack t) ->
  validateURL env (Track.raw_url t) = false ->
  pullYTMetadata env t (world s) = (Fulfilled (Some m), w) ->
  truthy (yt_url m) = false ->
  stream env ext info s =
    (Throw (Error (lit "Failed to fetch resources for ytdl streaming")),
     with_track (called s w (EvPullYTMetadata info)) info (bridged t (Some (BridgeTrack m)))).
Proof.
  intros Hp Hs Hy Hl Hv Hpull Hu.
  rewrite (stream_run _ info t s Hl), Hp, Hs, Hy, Hv, Hpull. cbv zeta.
  by destruct (yt_url m) as [[|c u]|].
Qed.

(** Property X18.

    [stream] catches nothing: when [resolve] of the bridge provider, or
    the search on YouTube of the default path, is rejected, [stream] is
    rejected with the same reason, and the store is as it was. *)
Theorem stream_passes_rejections_on (ext : SpotifyExtractor World) (info : loc)
    (t : Track.t) (s : state) (reason : jsstring) :
  store s !! info = Some (OTrack t) ->
  match bridgeProvider (options ext) with
  | Some provider => fst (resolve provider t (world s)) = Rejected reason
  | None =>
      _stream ext <> None /\ _isYtdl ext = true /\
      validateURL env (Track.raw_url t) = false /\
      fst (pullYTMetadata env t (world s)) = Rejected reason
  end ->
  fst (stream env ext info s) = Throw (Rejection reason) /\
  store (snd (stream env ext info s)) = store s.
Proof.
  intros Hl H. rewrite (stream_run _ info t s Hl).
  destruct (bridgeProvider (options ext)) as [provider|].
  - destruct (resolve provider t (world s)) as [r w]. cbn [fst] in H. by subst r.
  - destruct H as (Hs & Hy & Hv & Hr). destruct (_stream ext) as [fn|]; [|done].
    rewrite Hy, Hv. destruct (pullYTMetadata env t (world s)) as [r w].
    cbn [fst] in Hr. by subst r.
Qed.

(** Property X19.

    With a bridge provider that resolves the track, the data of the
    answer is stored as [metadata.bridge] (next to the source that was
    there) before the provider's [stream] is called, and it stays when
    that call is rejected.  The outcome of [stream] is the outcome of the
    provider's [stream]. *)
Theorem bridge_data_is_stored_before_streaming (ext : SpotifyExtractor World)
    (provider : BridgeProvider World) (info : loc) (t : Track.t) (s : state)
    (d : BridgedMetadata) (w : World) :
  bridgeProvider (options ext) = Some provider ->
  store s !! info = Some (OTrack t) ->
  resolve provider t (world s) = (Fulfilled (Some d), w) ->
  store (snd (stream env ext info s)) = <[info := OTrack (bridged t (data d))]> (store s) /\
  trace (snd (stream env ext info s)) = trace s ++ [EvResolve info; EvProviderStream] /\
  fst (stream env ext info s) =
    match fst (provider_stream provider d w) with
    | Fulfilled hd => Ok hd
    | Rejected reason => Throw (Rejection reason)
    end.
Proof.
  intros Hp Hl Hr. rewrite (stream_run _ info t s Hl), Hp, Hr.
  rewrite call_state, call_result. cbn [called with_track store trace world].
  by rewrite <- app_assoc.
Qed.
End MoreStreaming.

(** ** The deferred resolver, related tracks and credentials *)

Section MoreMetadata.

Context {World : Type} (env : Imports World).

Local Abbreviation state := (state World).

(** The function stored as [requestMetadata], case by case. *)
Lemma run_resolver_run (ext : SpotifyExtractor World) (f : resolver) t (s : state) :
  store s !! captured_track f = Some (OTrack t) ->
  run_resolver env ext f s =
    match bridgeProvider (options ext) with
    | Some provider =>
        match resolve provider t (world s) with
        | (Fulfilled (Some r), w) =>
            (Ok (Metadata.Build (Some (captured_source f)) (data r)),
             called s w (EvResolve (captured_track f)))
        | (Fulfilled None, w) =>
            (Throw (TypeError (lit "Cannot read properties of null (reading 'data')")),
             called s w (EvResolve (captured_track f)))
        | (Rejected reason, w) =>
            (Throw (Rejection reason), called s w (EvResolve (captured_track f)))
        end
    | None =>
        match pullYTMetadata env t (world s) with
        | (Fulfilled meta, w) =>
            (Ok (Metadata.Build (Some (captured_source f)) (option_map BridgeTrack meta)),
             called s w (EvPullYTMetadata (captured_track f)))
        | (Rejected reason, w) =>
            (Throw (Rejection reason), called s w (EvPullYTMetadata (captured_track f)))
        end
    end.
Proof.
  intros Hl. unfold run_resolver. unfold bind at 1. rewrite (read_track_run _ _ _ Hl).
  destruct (bridgeProvider (options ext)) as [provider|].
  - unfold bind, call. by destruct (resolve provider t (world s)) as [[[r|]|reason] w].
  - unfold bind, call. by destruct (pullYTMetadata env t (world s)) as [[meta|reason] w].
Qed.

(** Property X20.

    The function stored as [requestMetadata] only reads: it leaves the
    store as it is, and for a track that exists it makes exactly one call,
    to the bridge provider when there is one and to the search on YouTube
    otherwise. *)
Theorem resolver_only_reads (ext : SpotifyExtractor World) (f : resolver) (t : Track.t)
    (s : state) :
  store s !! captured_track f = Some (OTrack t) ->
  store (snd (run_resolver env ext f s)) = store s /\
  trace (snd (run_resolver env ext f s)) =
    trace s ++ [match bridgeProvider (options ext) with
                | Some _ => EvResolve (captured_track f)
                | None => EvPullYTMetadata (captured_track f)
                end].
Proof.
  intros Hl. rewrite (run_resolver_run ext f t s Hl).
  destruct (bridgeProvider (options ext)) as [provider|].
  - by destruct (resolve provider t (world s)) as [[[r|]|reason] w].
  - by destruct (pullYTMetadata env t (world s)) as [[meta|reason] w].
Qed.

(** Property X21.

    A bridge provider that resolves to nothing makes the two users of
    [resolve] fail in different ways: the stored resolver reads [data] off
    the missing answer and rejects with a [TypeError], where [stream]
    checks the answer and raises its own [Error].  Neither changes the
    store. *)
Theorem missing_answer_fails_resolver_and_stream (ext : SpotifyExtractor World)
    (provider : BridgeProvider World) (f : resolver) (t : Track.t) (s : state) (w : World) :
  bridgeProvider (options ext) = Some provider ->
  store s !! captured_track f = Some (OTrack t) ->
  resolve provider t (world s) = (Fulfilled None, w) ->
  run_resolver env ext f s =
    (Throw (TypeError (lit "Cannot read properties of null (reading 'data')")),
     called s w (EvResolve (captured_track f))) /\
  stream env ext (captured_track f) s =
    (Throw (Error (lit "Failed to bridge this track")),
     called s w (EvResolve (captured_track f))).
Proof.
  intros Hp Hl Hr. split.
  - by rewrite (run_resolver_run ext f t s Hl), Hp, Hr.
  - by rewrite (stream_run env _ _ t s Hl), Hp, Hr.
Qed.

(** Property X22.

    [getRelatedTracks] is a search of the primary client for the author
    of the track, or for its title when the author is empty.  It does not
    depend on what [activate] has set up; it makes that one call; and the
    tracks it creates are requested by whoever requested the given
    track. *)
Theorem related_tracks_are_searched_by_author (ext : SpotifyExtractor World)
    (track : Track.t) (query : jsstring) :
  related_query track = Some query ->
  (Track.author track <> [] -> query = Track.author track) /\
  exists m,
    (forall ext' : SpotifyExtractor World, getRelatedTracks env ext' track = Some m) /\
    forall s : state,
      trace (snd (m s)) = trace s ++ [EvSearch query] /\
      forall data w,
        search env query (world s) = (Fulfilled (Some data), w) ->
        tracks_of_search (fst (m s)) (store (snd (m s))) (Track.requestedBy track) data.
Proof.
  intros Hq. split.
  { unfold related_query in Hq. destruct (Track.author track); [done|]. by injection Hq. }
  exists (search_tracks env query
            {| SearchContext.type := Some SPOTIFY_SEARCH;
               SearchContext.requestedBy := Track.requestedBy track |}).
  split.
  { intros ext'. unfold getRelatedTracks. rewrite Hq. by rewrite handle_search. }
  intros s. rewrite search_tracks_run. split.
  { by destruct (search env query (world s)) as [[[data|]|r] w]. }
  intros data w ->. unfold tracks_result, called. cbn [fst snd store world trace].
  set (h := store s).
  exists (length h + length data)%nat, (seq (length h) (length data)).
  split; [done|]. split.
  { rewrite lookup_app_r by lia. rewrite lookup_app_r by (rewrite length_imap; lia).
    rewrite length_imap.
    by replace (length h + length data - length h - length data)%nat with 0%nat by lia. }
  split; [apply length_seq|].
  intros i d Hi. exists (length h + i)%nat.
  split; [apply lookup_seq_lt; by eapply lookup_lt_Some|].
  rewrite lookup_app_r by lia. apply lookup_app_l_Some.
  rewrite list_lookup_imap.
  replace (length h + i - length h)%nat with i by lia. by rewrite Hi.
Qed.

(** Property X23.

    A track that [handle] built from an entry of the primary client that
    names no artist has the placeholder as its author: its related tracks
    are searched under ["Unknown Artist"], not under its title. *)
Theorem unnamed_artist_is_searched_by_placeholder (ext : SpotifyExtractor World)
    (requestedBy : option jsstring) (d : ApiTrack.t) (playlist : option loc) (l : loc)
    (s : state) :
  ApiTrack.artist d = None ->
  exists m,
    getRelatedTracks env ext (finish_track (api_track_init requestedBy d) playlist l) = Some m /\
    trace (snd (m s)) = trace s ++ [EvSearch (lit "Unknown Artist")].
Proof.
  intros Ha.
  assert (related_query (finish_track (api_track_init requestedBy d) playlist l) =
            Some (lit "Unknown Artist")) as Hq.
  { unfold related_query, finish_track. destruct playlist; cbn; by rewrite Ha. }
  unfold getRelatedTracks. rewrite Hq. eexists. split; [reflexivity|].
  rewrite handle_search by done. rewrite search_tracks_run.
  by destruct (search env _ (world s)) as [[[data|]|r] w].
Qed.

End MoreMetadata.

(** Property X24.

    An option that is the empty string counts as missing.  Each of the
    two credentials is the option when that is a non-empty string,
    otherwise the environment variable when that is a non-empty string,
    otherwise [null]: it is never the empty string, and the two are chosen
    independently of each other. *)
Theorem credentials_are_never_empty {World : Type} (options : SpotifyExtractorInit World)
    (process_env : ProcessEnv) :
  credentials_clientId (_credentials options process_env) <> Some [] /\
  credentials_clientSecret (_credentials options process_env) <> Some [] /\
  credentials_clientId (_credentials options process_env) =
    (if truthy (clientId options) then clientId options
     else if truthy (DP_SPOTIFY_CLIENT_ID process_env) then DP_SPOTIFY_CLIENT_ID process_env
     else None) /\
  credentials_clientSecret (_credentials options process_env) =
    (if truthy (clientSecret options) then clientSecret options
     else if truthy (DP_SPOTIFY_CLIENT_SECRET process_env)
          then DP_SPOTIFY_CLIENT_SECRET process_env
     else None).
Proof.
  unfold _credentials, or_null. cbn [credentials_clientId credentials_clientSecret].
  repeat split.
  - destruct (clientId options) as [[|c v]|]; cbn; try done;
      by destruct (DP_SPOTIFY_CLIENT_ID process_env) as [[|c' v']|].
  - destruct (clientSecret options) as [[|c v]|]; cbn; try done;
      by destruct (DP_SPOTIFY_CLIENT_SECRET process_env) as [[|c' v']|].
Qed.

(** ** [parse] and the urls that [handle] builds *)

Lemma alnum_dot c : alnum c = true -> dot c = true.
Proof.
  intros H. unfold dot, line_terminator.
  destruct (N.eqb_spec c 10) as [->|_]; [by vm_compute in H|].
  destruct (N.eqb_spec c 13) as [->|_]; [by vm_compute in H|].
  destruct (N.eqb_spec c 8232) as [->|_]; [by vm_compute in H|].
  destruct (N.eqb_spec c 8233) as [->|_]; [by vm_compute in H|].
  done.
Qed.

Lemma letter_dot c : letter c = true -> dot c = true.
Proof.
  intros H. apply alnum_dot. unfold alnum. unfold letter in H.
  destruct (lower c), (upper c); done.
Qed.

Lemma slash_or_colon_dot c : slash_or_colon c = true -> dot c = true.
Proof.
  unfold slash_or_colon. intros H. apply orb_true_iff in H as [H|H];
    apply N.eqb_eq in H; by subst c.
Qed.

Lemma kind_word_dot k : kind_word k -> Forall (fun c => dot c = true) k.
Proof. intros []; by repeat constructor. Qed.

Lemma link_prefix_dot pre : link_prefix pre -> Forall (fun c => dot c = true) pre.
Proof.
  intros [|loc usr Hloc Husr]; [by repeat constructor|].
  apply Forall_app. split; [by repeat constructor|]. apply Forall_app. split.
  - destruct Hloc as [|ls _ Hls]; [done|].
    apply Forall_app. split; [by repeat constructor|]. apply Forall_app.
    split; [|by repeat constructor].
    eapply Forall_impl; [apply letter_dot|exact Hls].
  - destruct Husr as [|name [_ Hname]]; [done|].
    apply Forall_app. split; [by repeat constructor|]. apply Forall_app.
    split; [|by repeat constructor].
    eapply Forall_impl; [apply alnum_dot|exact Hname].
Qed.

(** A link holds no line terminator. *)
Lemma Link_dot kind id q : Link kind id q -> Forall (fun c => dot c = true) q.
Proof.
  intros [pre sep tl Hpre Hkind Hsep [_ Hid] _ Htl].
  apply Forall_app. split; [by apply link_prefix_dot|].
  apply Forall_app. split; [by apply kind_word_dot|].
  constructor; [by apply slash_or_colon_dot|].
  apply Forall_app. split; [|done].
  eapply Forall_impl; [apply alnum_dot|exact Hid].
Qed.

Lemma Link_app kind id q tl :
  Link kind id q ->
  (forall c, head tl = Some c -> alnum c = false) ->
  Forall (fun c => dot c = true) tl ->
  Link kind id (q ++ tl).
Proof.
  intros [pre sep tl0 Hpre Hkind Hsep Hid Hhead Htl0] Hhd Htl.
  replace ((pre ++ kind ++ sep :: id ++ tl0) ++ tl)
    with (pre ++ kind ++ sep :: id ++ (tl0 ++ tl))
    by (by rewrite <- !app_assoc, <- app_comm_cons, <- app_assoc).
  constructor; try done.
  - intros c. destruct tl0 as [|c0 tl0]; [apply Hhd|apply Hhead].
  - by apply Forall_app.
Qed.

(** A link of the plain web form. *)
Lemma Link_plain kind id :
  kind_word kind -> is_id id ->
  Link kind id (lit "https://open.spotify.com/" ++ kind ++ lit "/" ++ id).
Proof.
  intros Hkind Hid.
  replace (lit "https://open.spotify.com/" ++ kind ++ lit "/" ++ id)
    with ((lit "https://open.spotify.com/" ++ [] ++ []) ++ kind ++ 47%N :: id ++ [])
    by (by rewrite !app_nil_r).
  constructor; try done.
  constructor; constructor.
Qed.

(** Property X25.

    [parse] finds a kind and an identifier together or not at all: the
    result is either [(undefined, undefined)], or one of the words
    [album], [playlist], [track] with a non-empty alphanumeric
    identifier. *)
Theorem parse_finds_both_or_neither (q : jsstring) :
  parse q = (None, None) \/
  exists kind id, parse q = (Some kind, Some id) /\ kind_word kind /\ is_id id.
Proof.
  destruct (parse_cases q) as [H|(kind & id & H & Hlink)]; [by left|].
  right. exists kind, id. split; [done|]. by destruct Hlink.
Qed.

(** Property X26.

    What follows a link does not matter, as long as it starts off with a
    code unit that cannot continue the identifier and holds no line
    terminator: a query string or a fragment after a link leaves the
    kind and the identifier as they are. *)
Theorem parse_ignores_trailing_text (q tl kind id : jsstring) :
  parse q = (Some kind, Some id) ->
  (forall c, head tl = Some c -> alnum c = false) ->
  Forall (fun c => line_terminator c = false) tl ->
  parse (q ++ tl) = (Some kind, Some id).
Proof.
  intros Hq Hhd Htl. apply parse_Link. apply Link_app; [by apply parse_Link|done|].
  eapply Forall_impl; [|exact Htl]. intros c Hc. unfold dot. by rewrite Hc.
Qed.

(** Property X27.

    A query that holds a line terminator anywhere, for instance a link
    that was pasted with its line break, is not read as a link. *)
Theorem parse_rejects_line_terminators (q : jsstring) (c : N) :
  In c q -> line_terminator c = true -> parse q = (None, None).
Proof.
  intros Hin Hc.
  destruct (parse_cases q) as [H|(kind & id & _ & Hlink)]; [done|].
  apply Link_dot in Hlink. rewrite Forall_forall in Hlink.
  specialize (Hlink c Hin). unfold dot in Hlink. by rewrite Hc in Hlink.
Qed.

(** Property X28.

    The url that [handle] gives a scraped song is a link that [parse]
    reads back: when the payload has an alphanumeric id, the url of the
    track is found to be a [track] with that id. *)
Theorem scraped_song_url_parses_back (query : jsstring) (context : SearchContext.t)
    (d : Scraped.t) (l : loc) (id : jsstring) :
  Scraped.id d = Some id -> is_id id ->
  parse (Track.url (song_track_init query context d l)) = (Some (lit "track"), Some id).
Proof.
  intros Hd Hid. cbn [song_track_init Track.url]. unfold url_or_query. rewrite Hd.
  destruct Hid as [Hne Hal]. destruct id as [|c id]; [done|]. cbn [truthy nullish].
  apply parse_Link.
  apply (Link_plain (lit "track") (c :: id)); [constructor|done].
Qed.

(** Property X29.

    The urls that [handle] gives the entries of a scraped playlist or
    album are built with the path [tracks/], which [re] does not know:
    [parse] finds no link in them, whatever the uid is. *)
Theorem scraped_item_urls_are_not_links (query : jsstring) (requestedBy : option jsstring)
    (playlist : loc) (m : ScrapedItem.t) (l : loc) (uid : jsstring) :
  ScrapedItem.uid m = Some uid -> uid <> [] ->
  Track.url (item_track_init query requestedBy playlist m l) =
    lit "https://open.spotify.com/tracks/" ++ uid /\
  parse (Track.url (item_track_init query requestedBy playlist m l)) = (None, None).
Proof.
  intros Hm Hne. cbn [item_track_init Track.url]. unfold url_or_query. rewrite Hm.
  destruct uid as [|c uid]; [done|]. cbn [truthy nullish]. split; [done|].
  rewrite RegexFacts.parse_link_of.
  assert (link_of (lit "https://open.spotify.com/tracks/" ++ c :: uid) = None) as ->; [|done].
  vm_compute. reflexivity.
Qed.

(** Property X30.

    The url that [handle] gives a playlist built from a scraped payload
    is always a [playlist] link, also when the payload is an album:
    [parse] reads it as a playlist with the payload's id, so that
    resolving that url as an album does not reach the primary client and
    goes to the scraper. *)
Theorem scraped_album_url_is_a_playlist_link {World : Type} (env : Imports World)
    (ext : SpotifyExtractor World) (lib : Spotify World) (query : jsstring) (d : Scraped.t)
    (tracks : loc) (id : jsstring) (context : SearchContext.t) (s : state World) :
  Scraped.id d = Some id -> is_id id ->
  _lib ext = Some lib ->
  SearchContext.type context = Some SPOTIFY_ALBUM ->
  parse (Playlist.url (scraped_playlist_init query d tracks)) =
    (Some (lit "playlist"), Some id) /\
  trace (snd (handle env ext (Playlist.url (scraped_playlist_init query d tracks))
                context s)) =
    trace s ++ [EvGetData (Playlist.url (scraped_playlist_init query d tracks))].
Proof.
  intros Hd Hid Hlib Hty.
  assert (parse (Playlist.url (scraped_playlist_init query d tracks)) =
            (Some (lit "playlist"), Some id)) as Hparse.
  { cbn [scraped_playlist_init Playlist.url]. unfold url_or_query. rewrite Hd.
    destruct Hid as [Hne Hal]. destruct id as [|c id]; [done|]. cbn [truthy nullish].
    apply parse_Link.
    apply (Link_plain (lit "playlist") (c :: id)); [constructor|done]. }
  split; [done|].
  set (url := Playlist.url (scraped_playlist_init query d tracks)) in *.
  rewrite (handle_album env) by done. rewrite list_case_run.
  unfold primary_result. rewrite Hparse.
  change (strict_eq (lit "album") (Some (lit "playlist"))) with false. cbv iota.
  rewrite scraped_list_cases, Hlib.
  by destruct (getData lib url (world s)) as [[[p|]|r] w].
Qed.

(** ** The properties above on the sample collaborators *)

(** A type of another extractor, and an extractor without scraper. *)
Lemma handle_ignores_refused_types_witness :
  handle (Sample.imports None) (new_extractor Sample.bridge_init) Sample2.track_link
    (Sample.context (lit "youtubeVideo")) Sample.start =
  empty_result Sample.start.
Proof.
  apply (handle_ignores_refused_types (Sample.imports None) (new_extractor Sample.bridge_init)
           Sample2.track_link (Sample.context (lit "youtubeVideo")) Sample.start).
  vm_compute. reflexivity.
Defined.

(** A search with two results, on an extractor that was not activated. *)
Lemma search_results_become_tracks_witness :
  tracks_of_search
    (fst (handle (Sample2.imports (Some [Sample.song1; Sample.song2]) None)
            (new_extractor Sample.plain_init) (lit "song") (Sample.context AUTO) Sample.start))
    (store (snd (handle (Sample2.imports (Some [Sample.song1; Sample.song2]) None)
                   (new_extractor Sample.plain_init) (lit "song") (Sample.context AUTO)
                   Sample.start)))
    (Some (lit "alice")) [Sample.song1; Sample.song2] /\
  trace (snd (handle (Sample2.imports (Some [Sample.song1; Sample.song2]) None)
                (new_extractor Sample.plain_init) (lit "song") (Sample.context AUTO)
                Sample.start)) = [EvSearch (lit "song")] /\
  world (snd (handle (Sample2.imports (Some [Sample.song1; Sample.song2]) None)
                (new_extractor Sample.plain_init) (lit "song") (Sample.context AUTO)
                Sample.start)) = tt.
Proof.
  apply (search_results_become_tracks (Sample2.imports (Some [Sample.song1; Sample.song2]) None)
           (new_extractor Sample.plain_init) (lit "song") (Sample.context AUTO) Sample.start
           [Sample.song1; Sample.song2] tt).
  - vm_compute. reflexivity.
  - reflexivity.
Defined.

(** A client that rejects the search. *)
Lemma search_failure_is_passed_on_witness :
  handle Sample2.failing Sample.activated (lit "song") (Sample.context SPOTIFY_SEARCH)
    Sample.start =
  (Throw (Rejection (lit "429")), called Sample.start tt (EvSearch (lit "song"))).
Proof.
  apply (search_failure_is_passed_on Sample2.failing Sample.activated (lit "song")
           (Sample.context SPOTIFY_SEARCH) Sample.start).
  vm_compute. reflexivity.
Defined.

(** A song link and a scraper that knows the song. *)
Lemma song_query_asks_scraper_only_witness :
  trace (snd (handle (Sample.imports None) Sample2.song_ext Sample2.track_link
                (Sample.context SPOTIFY_SONG) Sample.start)) = [EvGetData Sample2.track_link] /\
  song_of_scraped
    (fst (handle (Sample.imports None) Sample2.song_ext Sample2.track_link
            (Sample.context SPOTIFY_SONG) Sample.start))
    (store (snd (handle (Sample.imports None) Sample2.song_ext Sample2.track_link
                   (Sample.context SPOTIFY_SONG) Sample.start)))
    Sample2.track_link (Sample.context SPOTIFY_SONG) Sample2.song.
Proof.
  apply (song_query_asks_scraper_only (Sample.imports None) Sample2.song_ext
           Sample2.song_scraper Sample2.track_link (Sample.context SPOTIFY_SONG) Sample.start);
    reflexivity.
Defined.

(** The playlist of two songs that the primary client resolves. *)
Lemma handle_result_is_well_formed_witness :
  well_formed_result 0
    (store (snd (handle (Sample.imports (Some Sample.playlist)) Sample.activated
                   Sample.playlist_link (Sample.context SPOTIFY_PLAYLIST) Sample.start)))
    {| info_playlist := Some 1; info_tracks := 4 |}.
Proof.
  apply (handle_result_is_well_formed (Sample.imports (Some Sample.playlist)) Sample.activated
           Sample.playlist_link (Sample.context SPOTIFY_PLAYLIST) Sample.start
           {| info_playlist := Some 1; info_tracks := 4 |}).
  vm_compute. reflexivity.
Defined.

(** An album in the scheme form, resolved by the primary client. *)
Lemma primary_album_is_shared_witness :
  playlist_of_payload
    (fst (handle (Sample2.imports None None) Sample.activated Sample2.album_link
            (Sample.context SPOTIFY_ALBUM) Sample.start))
    (store (snd (handle (Sample2.imports None None) Sample.activated Sample2.album_link
                   (Sample.context SPOTIFY_ALBUM) Sample.start)))
    Sample.playlist /\
  store (snd (handle (Sample2.imports None None) Sample.activated Sample2.album_link
                (Sample.context SPOTIFY_ALBUM) Sample.start)) !! 1 =
    Some (OPlaylist (Playlist.with_tracks 4
                       (api_playlist_init (lit "album") Sample2.album_link Sample.playlist 0))) /\
  trace (snd (handle (Sample2.imports None None) Sample.activated Sample2.album_link
                (Sample.context SPOTIFY_ALBUM) Sample.start)) =
    [EvGetAlbum (Some (lit "abc123"))].
Proof.
  apply (primary_album_is_shared (Sample2.imports None None) Sample.activated
           Sample2.album_link (Sample.context SPOTIFY_ALBUM) Sample.start (lit "abc123")
           Sample.playlist tt).
  - reflexivity.
  - apply parse_Link. vm_compute. reflexivity.
  - reflexivity.
Defined.

(** The primary client has no answer, the scraper has a playlist. *)
Lemma scraped_list_is_shared_witness :
  playlist_of_scraped
    (fst (handle (Sample.imports None) Sample.activated Sample.playlist_link
            (Sample.context SPOTIFY_PLAYLIST) Sample.start))
    (store (snd (handle (Sample.imports None) Sample.activated Sample.playlist_link
                   (Sample.context SPOTIFY_PLAYLIST) Sample.start)))
    Sample.scraped.
Proof.
  apply (scraped_list_is_shared (Sample.imports None) Sample.activated Sample.scraper
           Sample.playlist_link (Sample.context SPOTIFY_PLAYLIST) Sample.start
           (called Sample.start tt (EvGetPlaylist (Some (lit "abc123"))))
           (lit "playlist") EvGetPlaylist (getPlaylist (Sample.imports None))
           Sample.scraped tt).
  - reflexivity.
  - left. repeat split.
  - vm_compute. reflexivity.
  - reflexivity.
Defined.

(** A [createStream] function is given: after [activate] the sample
    track can be streamed. *)
Lemma activate_makes_stream_ready_witness :
  fst (stream (Sample.imports None)
         {| options := Sample2.custom_init; _stream := Some Sample.stream_fn;
            _isYtdl := false; _lib := None |} 0 Sample.one_track) <>
    Throw (Error missing_api).
Proof.
  apply (activate_makes_stream_ready (Sample.imports None) Sample2.custom_init
           {| options := Sample2.custom_init; _stream := Some Sample.stream_fn;
              _isYtdl := false; _lib := None |}
           Sample.start Sample.start Sample.one_track 0).
  reflexivity.
Defined.

(** The default path. *)
Lemma activate_sets_up_default_path_only_witness :
  options Sample.activated = Sample.plain_init /\
  _isYtdl Sample.activated = true /\
  _lib Sample.activated = Some Sample.scraper /\
  (_stream Sample.activated = None <-> bridgeProvider Sample.plain_init <> None).
Proof.
  apply (activate_sets_up_default_path_only (Sample.imports None) Sample.plain_init
           Sample.activated Sample.start
           {| world := tt; store := []; trace := [EvLoadYtdl] |}).
  reflexivity.
Defined.

(** The custom function gets the Spotify url of the sample track. *)
Lemma custom_stream_gets_track_url_witness :
  activate_then_stream (Sample.imports None) Sample2.custom_init 0 Sample.one_track =
  (Ok (Url (lit "https://open.spotify.com/track/t1")),
   called Sample.one_track tt (EvStream (lit "https://open.spotify.com/track/t1"))).
Proof.
  apply (custom_stream_gets_track_url (Sample.imports None) Sample2.custom_init
           Sample.stream_fn 0 Sample2.track0 Sample.one_track); reflexivity.
Defined.

(** Both a bridge provider and a [createStream] function are given. *)
Lemma bridge_provider_overrides_createStream_witness :
  trace (snd (activate_then_stream (Sample.imports None) Sample2.both_init 0
                Sample.one_track)) = [] \/
  trace (snd (activate_then_stream (Sample.imports None) Sample2.both_init 0
                Sample.one_track)) = [EvResolve 0] \/
  trace (snd (activate_then_stream (Sample.imports None) Sample2.both_init 0
                Sample.one_track)) = [EvResolve 0; EvProviderStream].
Proof.
  apply (bridge_provider_overrides_createStream (Sample.imports None) Sample2.both_init
           Sample2.provider 0 Sample.one_track).
  reflexivity.
Defined.

(** The search on YouTube finds a playable url for the sample track. *)
Lemma second_stream_reuses_found_url_witness :
  trace (snd (stream (Sample2.imports None (Some Sample2.found)) Sample.activated 0
                Sample.one_track)) =
    [EvPullYTMetadata 0; EvStream (lit "https://www.youtube.com/watch?v=abc")] /\
  stream (Sample2.imports None (Some Sample2.found)) Sample.activated 0
    (snd (stream (Sample2.imports None (Some Sample2.found)) Sample.activated 0
            Sample.one_track)) =
  call (EvStream (lit "https://www.youtube.com/watch?v=abc"))
    (Sample.stream_fn (lit "https://www.youtube.com/watch?v=abc"))
    (snd (stream (Sample2.imports None (Some Sample2.found)) Sample.activated 0
            Sample.one_track)).
Proof.
  apply (second_stream_reuses_found_url (Sample2.imports None (Some Sample2.found))
           Sample.activated Sample.stream_fn 0 Sample2.track0 Sample.one_track Sample2.found
           (lit "https://www.youtube.com/watch?v=abc") tt);
    first [reflexivity | vm_compute; reflexivity | vm_compute; discriminate].
Defined.

(** The search on YouTube finds a track without url. *)
Lemma failed_stream_still_records_bridge_witness :
  stream (Sample2.imports None (Some Sample2.without_url)) Sample.activated 0
    Sample.one_track =
  (Throw (Error (lit "Failed to fetch resources for ytdl streaming")),
   with_track (called Sample.one_track tt (EvPullYTMetadata 0)) 0
     (bridged Sample2.track0 (Some (BridgeTrack Sample2.without_url)))).
Proof.
  apply (failed_stream_still_records_bridge (Sample2.imports None (Some Sample2.without_url))
           Sample.activated Sample.stream_fn 0 Sample2.track0 Sample.one_track
           Sample2.without_url tt);
    first [reflexivity | vm_compute; reflexivity].
Defined.

(** The search on YouTube is rejected. *)
Lemma stream_passes_rejections_on_witness :
  fst (stream Sample2.failing Sample.activated 0 Sample.one_track) =
    Throw (Rejection (lit "offline")) /\
  store (snd (stream Sample2.failing Sample.activated 0 Sample.one_track)) =
    store Sample.one_track.
Proof.
  apply (stream_passes_rejections_on Sample2.failing Sample.activated 0 Sample2.track0
           Sample.one_track (lit "offline")).
  - reflexivity.
  - cbn. repeat split. discriminate.
Defined.

(** A bridge provider that resolves the sample track. *)
Lemma bridge_data_is_stored_before_streaming_witness :
  store (snd (stream (Sample.imports None) (new_extractor Sample2.both_init) 0
                Sample.one_track)) =
    [OTrack (bridged Sample2.track0 (Some (BridgeData (lit "bridged"))))] /\
  trace (snd (stream (Sample.imports None) (new_extractor Sample2.both_init) 0
                Sample.one_track)) = [EvResolve 0; EvProviderStream] /\
  fst (stream (Sample.imports None) (new_extractor Sample2.both_init) 0 Sample.one_track) =
    Ok (Readable 7).
Proof.
  apply (bridge_data_is_stored_before_streaming (Sample.imports None)
           (new_extractor Sample2.both_init) Sample2.provider 0 Sample2.track0
           Sample.one_track {| data := Some (BridgeData (lit "bridged")) |} tt); reflexivity.
Defined.

(** The resolver of the sample track, without a bridge provider. *)
Lemma resolver_only_reads_witness :
  store (snd (run_resolver (Sample.imports None) Sample.activated
                (Resolver (FromApi Sample.song1) 0) Sample.one_track)) =
    store Sample.one_track /\
  trace (snd (run_resolver (Sample.imports None) Sample.activated
                (Resolver (FromApi Sample.song1) 0) Sample.one_track)) =
    [EvPullYTMetadata 0].
Proof.
  apply (resolver_only_reads (Sample.imports None) Sample.activated
           (Resolver (FromApi Sample.song1) 0) Sample2.track0 Sample.one_track).
  reflexivity.
Defined.

(** A bridge provider that resolves to nothing. *)
Lemma missing_answer_fails_resolver_and_stream_witness :
  run_resolver (Sample.imports None) (new_extractor Sample.bridge_init)
    (Resolver (FromApi Sample.song1) 0) Sample.one_track =
    (Throw (TypeError (lit "Cannot read properties of null (reading 'data')")),
     called Sample.one_track tt (EvResolve 0)) /\
  stream (Sample.imports None) (new_extractor Sample.bridge_init) 0 Sample.one_track =
    (Throw (Error (lit "Failed to bridge this track")),
     called Sample.one_track tt (EvResolve 0)).
Proof.
  apply (missing_answer_fails_resolver_and_stream (Sample.imports None)
           (new_extractor Sample.bridge_init) Sample.provider
           (Resolver (FromApi Sample.song1) 0) Sample2.track0 Sample.one_track tt);
    reflexivity.
Defined.

(** The sample track names its artist. *)
Lemma related_tracks_are_searched_by_author_witness :
  (Track.author Sample2.track0 <> [] -> lit "Artist" = Track.author Sample2.track0) /\
  exists m,
    (forall ext' : SpotifyExtractor unit,
       getRelatedTracks (Sample2.imports (Some [Sample.song2]) None) ext' Sample2.track0 =
         Some m) /\
    forall s : state unit,
      trace (snd (m s)) = trace s ++ [EvSearch (lit "Artist")] /\
      forall data w,
        search (Sample2.imports (Some [Sample.song2]) None) (lit "Artist") (world s) =
          (Fulfilled (Some data), w) ->
        tracks_of_search (fst (m s)) (store (snd (m s))) (Track.requestedBy Sample2.track0)
          data.
Proof.
  apply (related_tracks_are_searched_by_author (Sample2.imports (Some [Sample.song2]) None)
           Sample.activated Sample2.track0 (lit "Artist")).
  reflexivity.
Defined.

(** The second sample song names no artist. *)
Lemma unnamed_artist_is_searched_by_placeholder_witness :
  exists m,
    getRelatedTracks (Sample.imports None) Sample.activated
      (finish_track (api_track_init None Sample.song2) None 0) = Some m /\
    trace (snd (m Sample.start)) = [EvSearch (lit "Unknown Artist")].
Proof.
  apply (unnamed_artist_is_searched_by_placeholder (Sample.imports None) Sample.activated
           None Sample.song2 None 0 Sample.start).
  reflexivity.
Defined.

(** A share link with its query string. *)
Lemma parse_ignores_trailing_text_witness :
  parse (lit "https://open.spotify.com/track/abc" ++ lit "?si=xyz") =
    (Some (lit "track"), Some (lit "abc")).
Proof.
  apply (parse_ignores_trailing_text (lit "https://open.spotify.com/track/abc")
           (lit "?si=xyz") (lit "track") (lit "abc")).
  - vm_compute. reflexivity.
  - intros c [= <-]. reflexivity.
  - vm_compute. repeat constructor.
Defined.

(** A link that was pasted with its line break. *)
Lemma parse_rejects_line_terminators_witness :
  parse (lit "spotify:track:abc" ++ [10%N]) = (None, None).
Proof.
  apply (parse_rejects_line_terminators (lit "spotify:track:abc" ++ [10%N]) 10%N).
  - vm_compute. tauto.
  - reflexivity.
Defined.

(** The sample song. *)
Lemma scraped_song_url_parses_back_witness :
  parse (Track.url (song_track_init Sample2.track_link (Sample.context SPOTIFY_SONG)
                      Sample2.song 0)) =
    (Some (lit "track"), Some (lit "t1")).
Proof.
  apply (scraped_song_url_parses_back Sample2.track_link (Sample.context SPOTIFY_SONG)
           Sample2.song 0 (lit "t1")).
  - reflexivity.
  - split; [discriminate|]. vm_compute. repeat constructor.
Defined.

(** The entry of the sample playlist. *)
Lemma scraped_item_urls_are_not_links_witness :
  Track.url (item_track_init Sample.playlist_link None 1 Sample.item1 2) =
    lit "https://open.spotify.com/tracks/" ++ lit "u1" /\
  parse (Track.url (item_track_init Sample.playlist_link None 1 Sample.item1 2)) =
    (None, None).
Proof.
  apply (scraped_item_urls_are_not_links Sample.playlist_link None 1 Sample.item1 2
           (lit "u1")).
  - reflexivity.
  - discriminate.
Defined.

(** The sample album. *)
Lemma scraped_album_url_is_a_playlist_link_witness :
  parse (Playlist.url (scraped_playlist_init Sample2.album_link Sample2.album 0)) =
    (Some (lit "playlist"), Some (lit "abc123")) /\
  trace (snd (handle (Sample2.imports None None) Sample.activated
                (Playlist.url (scraped_playlist_init Sample2.album_link Sample2.album 0))
                (Sample.context SPOTIFY_ALBUM) Sample.start)) =
    [EvGetData (Playlist.url (scraped_playlist_init Sample2.album_link Sample2.album 0))].
Proof.
  apply (scraped_album_url_is_a_playlist_link (Sample2.imports None None) Sample.activated
           Sample.scraper Sample2.album_link Sample2.album 0 (lit "abc123")
           (Sample.context SPOTIFY_ALBUM) Sample.start).
  - reflexivity.
  - split; [discriminate|]. vm_compute. repeat constructor.
  - reflexivity.
  - reflexivity.
Defined.
